(** * 3D Tetris: the game-state engine of [tetris.py]

    A shallow embedding of the engine part of [tetris.py] (the playfield,
    the pieces, collision, locking, layer clearing, scoring, the bag
    randomizer, the tick driver and the key handlers) and the properties
    of it that the specification states, followed by what the code shows
    besides: of the engine and the handlers, and of the camera, the music
    manager, the high-score table and the drawing of the scene.

    Conventions of the embedding:
    - Python integers are [Z]; loop counters produced by [range] are [nat].
    - A Python list indexed by position is a Rocq [list]; subscripting
      follows Python (negative subscripts count from the end, anything
      further out raises [IndexError]).
    - A function that can raise returns a [result]; [OutOfFuel] stands for
      a [while] loop that has not finished within the iteration bound the
      model gives it.
    - The module-level [random] generator is outside [tetris.py]: its state
      and the calls the engine makes to it form the class [Random].
    - Python floats (the camera angles and distance, the music volume) are
      the primitive binary64 floats of Rocq.
    - OpenGL, pygame and the high-score file are outside [tetris.py].  Of
      the rendering, the calls of [draw_block] that [draw_scene_3d] makes
      and the landing height that [draw_drop_indicators] asks for are
      modelled; of [display], the demo it plays on the shared game state
      while the menu is shown ([display_main_menu]); of the audio, the
      fields of [MusicManager] and what it tells the mixer; of the high
      scores, the table that [add_score] keeps. *)

From Stdlib Require Uint63.
From Stdlib Require Import String PrimFloat.
From Stdlib Require Import ZArith List Ascii QArith_base.
From stdpp Require Import base tactics option list numbers gmap.

From stdpp Require Import sorting.

#[local] Set Warnings "-inexact-float".

#[local] Set Warnings "-clear-no-such-hyp".

Local Open Scope Z_scope.

(** ** Exceptions and results *)

Inductive exn : Type :=
| IndexError
| AttributeError
| UnboundLocalError
| SystemExit.

Inductive result (A : Type) : Type :=
| Ok (a : A)
| Raise (e : exn)
| OutOfFuel.

Arguments Ok {A} a.
Arguments Raise {A} e.
Arguments OutOfFuel {A}.

#[global] Instance result_ret : MRet result := fun A a => Ok a.

#[global] Instance result_bind : MBind result := fun A B f m =>
  match m with
  | Ok a => f a
  | Raise e => Raise e
  | OutOfFuel => OutOfFuel
  end.

(** [for i in l: g = body(i, g)], stopping at the first exception. *)
Fixpoint for_each {A S : Type} (l : list A) (body : A -> S -> result S) (s : S)
  : result S :=
  match l with
  | [] => Ok s
  | i :: l' => s' ← body i s; for_each l' body s'
  end.

(** Python's [range(a, b)] for non-negative bounds. *)
Definition range (a b : nat) : list nat := seq a (b - a).

(** ** Python list subscripting *)

(** [l[i]] *)
Definition py_getitem {A : Type} (l : list A) (i : Z) : result A :=
  let n := Z.of_nat (length l) in
  let j := if i <? 0 then i + n else i in
  if (j <? 0) || (n <=? j) then Raise IndexError
  else match l !! Z.to_nat j with
       | Some a => Ok a
       | None => Raise IndexError
       end.

(** [l[i] = v] *)
Definition py_setitem {A : Type} (l : list A) (i : Z) (v : A) : result (list A) :=
  let n := Z.of_nat (length l) in
  let j := if i <? 0 then i + n else i in
  if (j <? 0) || (n <=? j) then Raise IndexError
  else Ok (<[Z.to_nat j := v]> l).

(** [l.pop()]: removes and returns the last element. *)
Definition py_pop {A : Type} (l : list A) : result (A * list A) :=
  match last l with
  | Some a => Ok (a, removelast l)
  | None => Raise IndexError
  end.

(** ** Global constants *)

Definition GRID_SIZE : Z * Z * Z := (8, 20, 8).
Definition GRID_SIZE_0 : Z := GRID_SIZE.1.1.
Definition GRID_SIZE_1 : Z := GRID_SIZE.1.2.
Definition GRID_SIZE_2 : Z := GRID_SIZE.2.
Definition FALL_INTERVAL_MS : Z := 500.

(** A colour is a triple of channels.  The source writes them as decimal
    float literals and never computes with them; they are kept here as the
    rationals the literals denote. *)
Definition Color : Type := Q * Q * Q.

Definition CYBER_COLORS : list Color :=
  [ (Qmake 0 1, Qmake 1 1, Qmake 1 1);
    (Qmake 1 1, Qmake 1 1, Qmake 0 1);
    (Qmake 1 1, Qmake 647 1000, Qmake 0 1);
    (Qmake 0 1, Qmake 0 1, Qmake 1 1);
    (Qmake 1 2, Qmake 0 1, Qmake 1 2);
    (Qmake 0 1, Qmake 1 1, Qmake 0 1);
    (Qmake 1 1, Qmake 0 1, Qmake 0 1) ].

Abbreviation Offset := (Z * Z * Z)%type.

Definition SHAPES_3D : list (list Offset) :=
  [ [(0,0,0); (1,0,0); (2,0,0); (3,0,0)];
    [(0,0,0); (1,0,0); (0,1,0); (1,1,0);
     (0,0,1); (1,0,1); (0,1,1); (1,1,1)];
    [(0,0,0); (1,0,0); (2,0,0); (2,1,0)];
    [(0,0,0); (1,0,0); (2,0,0); (0,1,0)];
    [(0,0,0); (1,0,0); (2,0,0); (1,1,0)];
    [(1,0,0); (2,0,0); (0,1,0); (1,1,0)];
    [(0,0,0); (1,0,0); (1,1,0); (2,1,0)] ].

Inductive Mode : Type :=
| STATE_LOADING
| STATE_MAIN_MENU
| STATE_PLAYING
| STATE_PAUSED
| STATE_GAME_OVER.

#[global] Instance Mode_eq_dec : EqDecision Mode.
Proof. solve_decision. Defined.

(** ** Pieces *)

Record Tetromino : Type := mkTetromino {
  shape : list Offset;
  position : Z * Z * Z;
  color : Color
}.

(** [Tetromino.move] *)
Definition move (dx dy dz : Z) (t : Tetromino) : Tetromino :=
  let '(px, py, pz) := position t in
  mkTetromino (shape t) (px + dx, py + dy, pz + dz) (color t).

(** One offset of [Tetromino.rotate]; an axis other than 0, 1, 2 leaves the
    local [rotated] unbound at its first use. *)
Definition rotate_offset (axis : Z) (o : Offset) : result Offset :=
  let '(x, y, z) := o in
  if axis =? 0 then Ok (x, - z, y)
  else if axis =? 1 then Ok (- z, y, x)
  else if axis =? 2 then Ok (- y, x, z)
  else Raise UnboundLocalError.

Fixpoint rotate_shape (axis : Z) (sh : list Offset) : result (list Offset) :=
  match sh with
  | [] => Ok []
  | o :: rest =>
      rotated ← rotate_offset axis o;
      rotated_rest ← rotate_shape axis rest;
      Ok (rotated :: rotated_rest)
  end.

(** [Tetromino.rotate] *)
Definition rotate (axis : Z) (t : Tetromino) : result Tetromino :=
  rotated_shape ← rotate_shape axis (shape t);
  Ok (mkTetromino rotated_shape (position t) (color t)).

(** ** The playfield *)

(** A cell is [None] (empty) or a colour. *)
Abbreviation Cell := (option Color).

(** [grid[x][y][z]] *)
Abbreviation Grid := (list (list (list Cell))).

Definition cell_get (g : Grid) (x y z : Z) : result Cell :=
  plane ← py_getitem g x;
  row ← py_getitem plane y;
  py_getitem row z.

Definition cell_set (g : Grid) (x y z : Z) (v : Cell) : result Grid :=
  plane ← py_getitem g x;
  row ← py_getitem plane y;
  row' ← py_setitem row z v;
  plane' ← py_setitem plane y row';
  py_setitem g x plane'.

(** The grid [reset_grid] builds. *)
Definition empty_grid : Grid :=
  replicate (Z.to_nat GRID_SIZE_0)
    (replicate (Z.to_nat GRID_SIZE_1)
       (replicate (Z.to_nat GRID_SIZE_2) None)).

(** The loop of [check_collision] over the offsets of the current piece. *)
Fixpoint collision_scan (g : Grid) (pos : Z * Z * Z) (sh : list Offset)
  : result bool :=
  match sh with
  | [] => Ok false
  | (ox, oy, oz) :: rest =>
      let x := pos.1.1 + ox in
      let y := pos.1.2 + oy in
      let z := pos.2 + oz in
      if (x <? 0) || (x >=? GRID_SIZE_0) then Ok true
      else if (y <? 0) || (y >=? GRID_SIZE_1) then Ok true
      else if (z <? 0) || (z >=? GRID_SIZE_2) then Ok true
      else
        c ← cell_get g x y z;
        match c with
        | Some _ => Ok true
        | None => collision_scan g pos rest
        end
  end.

(** ** The game state *)

(** The fields of [GameState] that the engine reads and writes.  The
    high-score manager, its [is_new_highscore] flag and the music manager
    are left out. *)
Record GameState : Type := mkGameState {
  grid : Grid;
  score : Z;
  game_over : bool;
  last_piece : option Tetromino;
  current_piece : option Tetromino;
  next_piece : option Tetromino;
  piece_bag : list nat
}.

Definition set_grid (g : Grid) (s : GameState) : GameState :=
  mkGameState g (score s) (game_over s) (last_piece s) (current_piece s)
    (next_piece s) (piece_bag s).
Definition set_score (n : Z) (s : GameState) : GameState :=
  mkGameState (grid s) n (game_over s) (last_piece s) (current_piece s)
    (next_piece s) (piece_bag s).
Definition set_game_over (b : bool) (s : GameState) : GameState :=
  mkGameState (grid s) (score s) b (last_piece s) (current_piece s)
    (next_piece s) (piece_bag s).
Definition set_last_piece (t : option Tetromino) (s : GameState) : GameState :=
  mkGameState (grid s) (score s) (game_over s) t (current_piece s)
    (next_piece s) (piece_bag s).
Definition set_current_piece (t : option Tetromino) (s : GameState) : GameState :=
  mkGameState (grid s) (score s) (game_over s) (last_piece s) t
    (next_piece s) (piece_bag s).
Definition set_next_piece (t : option Tetromino) (s : GameState) : GameState :=
  mkGameState (grid s) (score s) (game_over s) (last_piece s) (current_piece s)
    t (piece_bag s).
Definition set_piece_bag (b : list nat) (s : GameState) : GameState :=
  mkGameState (grid s) (score s) (game_over s) (last_piece s) (current_piece s)
    (next_piece s) b.

(** [GameState.__init__] *)
Definition GameState_init : GameState :=
  mkGameState empty_grid 0 false None None None [].

(** [GameState.reset_grid] *)
Definition reset_grid (s : GameState) : GameState :=
  set_score 0 (set_grid empty_grid s).

(** [self.current_piece.<attribute>] *)
Definition the_current_piece (s : GameState) : result Tetromino :=
  match current_piece s with
  | Some p => Ok p
  | None => Raise AttributeError
  end.

(** [GameState.check_collision] *)
Definition check_collision (s : GameState) (position : Z * Z * Z) : result bool :=
  p ← the_current_piece s;
  collision_scan (grid s) position (shape p).

(** *** Locking (the first loop of [lock_piece_and_clear]) *)

Definition lock_cell (cpos : Z * Z * Z) (ccol : Color) (o : Offset) (g : Grid)
  : result Grid :=
  let '(ox, oy, oz) := o in
  let x := cpos.1.1 + ox in
  let y := cpos.1.2 + oy in
  let z := cpos.2 + oz in
  if (0 <=? x) && (x <? GRID_SIZE_0) && (0 <=? y) && (y <? GRID_SIZE_1)
     && (0 <=? z) && (z <? GRID_SIZE_2)
  then cell_set g x y z (Some ccol)
  else Ok g.

Definition lock_cells (g : Grid) (p : Tetromino) : result Grid :=
  for_each (shape p) (lock_cell (position p) (color p)) g.

(** *** Layer clearing (the [while] loop of [lock_piece_and_clear]) *)

(** The inner [for z] of the fullness test: [Ok false] is the [break]. *)
Fixpoint row_full (g : Grid) (x y : nat) (zs : list nat) : result bool :=
  match zs with
  | [] => Ok true
  | z :: zs' =>
      c ← cell_get g (Z.of_nat x) (Z.of_nat y) (Z.of_nat z);
      match c with
      | None => Ok false
      | Some _ => row_full g x y zs'
      end
  end.

(** The outer [for x] of the fullness test. *)
Fixpoint layer_full_from (g : Grid) (y : nat) (xs : list nat) : result bool :=
  match xs with
  | [] => Ok true
  | x :: xs' =>
      layer_full ← row_full g x y (range 0 (Z.to_nat GRID_SIZE_2));
      if layer_full : bool then layer_full_from g y xs' else Ok false
  end.

Definition layer_is_full (g : Grid) (y : nat) : result bool :=
  layer_full_from g y (range 0 (Z.to_nat GRID_SIZE_0)).

(** [self.grid[x][move_y][z] = self.grid[x][move_y + 1][z]] *)
Definition copy_cell_down (move_y x z : nat) (g : Grid) : result Grid :=
  v ← cell_get g (Z.of_nat x) (Z.of_nat move_y + 1) (Z.of_nat z);
  cell_set g (Z.of_nat x) (Z.of_nat move_y) (Z.of_nat z) v.

Definition shift_layer_down (move_y : nat) (g : Grid) : result Grid :=
  for_each (range 0 (Z.to_nat GRID_SIZE_0)) (fun x =>
    for_each (range 0 (Z.to_nat GRID_SIZE_2)) (fun z =>
      copy_cell_down move_y x z)) g.

(** "Move all layers above down by one" *)
Definition shift_layers_down (y : nat) (g : Grid) : result Grid :=
  for_each (range y (Z.to_nat (GRID_SIZE_1 - 1))) shift_layer_down g.

(** "Clear the top layer" *)
Definition clear_top_layer (g : Grid) : result Grid :=
  for_each (range 0 (Z.to_nat GRID_SIZE_0)) (fun x =>
    for_each (range 0 (Z.to_nat GRID_SIZE_2)) (fun z g' =>
      cell_set g' (Z.of_nat x) (GRID_SIZE_1 - 1) (Z.of_nat z) None)) g.

(** The [while y < GRID_SIZE[1]] loop, [fuel] bounding its iterations. *)
Fixpoint clear_loop (fuel : nat) (g : Grid) (y layers_cleared : nat)
  : result (Grid * nat) :=
  match fuel with
  | O => OutOfFuel
  | S fuel' =>
      if Z.of_nat y <? GRID_SIZE_1 then
        layer_full ← layer_is_full g y;
        if layer_full : bool then
          g1 ← shift_layers_down y g;
          g2 ← clear_top_layer g1;
          clear_loop fuel' g2 y (layers_cleared + 1)
        else clear_loop fuel' g (y + 1) layers_cleared
      else Ok (g, layers_cleared)
  end.

(** Every iteration either advances [y] or removes a full layer, so the loop
    body runs at most [2 * GRID_SIZE[1]] times (see
    [clear_full_layers_terminates]). *)
Definition clear_full_layers (g : Grid) : result (Grid * nat) :=
  clear_loop (2 * Z.to_nat GRID_SIZE_1 + 1) g 0 0.

(** *** Scoring (the end of [lock_piece_and_clear]) *)

Definition scores : gmap nat Z :=
  <[1%nat := 100]> (<[2%nat := 300]> (<[3%nat := 500]> (<[4%nat := 800]> ∅))).

Definition update_score (score : Z) (layers_cleared : nat) (cells : nat) : Z :=
  let score :=
    if (0 <? layers_cleared)%nat
    then score + default (Z.of_nat layers_cleared * 100) (scores !! layers_cleared)
    else score in
  score + Z.of_nat cells * 10.

(** ** Operations that use the random generator *)

(** The state of Python's module-level generator and the calls made to it:
    [random.shuffle(l)], which returns the list rearranged,
    [random.randrange(n)], and the test [random.random() < p].
    [random.choice(l)] is [l[random.randrange(len(l))]]. *)
Class Random (Rng : Type) : Type := {
  shuffle : Rng -> list nat -> list nat * Rng;
  randrange : Rng -> nat -> nat * Rng;
  random_lt : Rng -> Q -> bool * Rng
}.

(** What the Python documentation promises of [shuffle] and [randrange]. *)
Class RandomSpec (Rng : Type) `{Random Rng} : Prop := {
  shuffle_perm : forall r l, (shuffle r l).1 ≡ₚ l;
  randrange_lt : forall r n, (0 < n)%nat -> ((randrange r n).1 < n)%nat
}.

Section Engine.

Context `{Random Rng}.

(** [Tetromino.__init__] *)
Definition Tetromino_init (r : Rng) : result (Tetromino * Rng) :=
  let '(shape_index, r) := randrange r (length SHAPES_3D) in
  sh ← py_getitem SHAPES_3D (Z.of_nat shape_index);
  col ← py_getitem CYBER_COLORS (Z.of_nat shape_index);
  Ok (mkTetromino sh (GRID_SIZE_0 `div` 2, GRID_SIZE_1 - 3, GRID_SIZE_2 `div` 2) col, r).

(** [Tetromino.clone] *)
Definition clone (r : Rng) (t : Tetromino) : result (Tetromino * Rng) :=
  '(clone_piece, r) ← Tetromino_init r;
  Ok (mkTetromino (shape t) (position t) (color t), r).

(** A fresh [Tetromino()] whose shape and colour are then overwritten with
    the catalogue entry [shape_index]. *)
Definition new_piece (r : Rng) (shape_index : nat) : result (Tetromino * Rng) :=
  '(t, r) ← Tetromino_init r;
  sh ← py_getitem SHAPES_3D (Z.of_nat shape_index);
  col ← py_getitem CYBER_COLORS (Z.of_nat shape_index);
  Ok (mkTetromino sh (position t) col, r).

(** "Refill bag if empty" *)
Definition refill_bag (r : Rng) (bag : list nat) : list nat * Rng :=
  match bag with
  | [] => shuffle r (range 0 (length SHAPES_3D))
  | _ => (bag, r)
  end.

(** [GameState.spawn_new_piece] *)
Definition spawn_new_piece (r : Rng) (s : GameState) : result (GameState * Rng) :=
  let '(bag, r) := refill_bag r (piece_bag s) in
  '(s, r) ←
    match current_piece s with
    | None =>
        '(shape_index, bag) ← py_pop bag;
        '(cur, r) ← new_piece r shape_index;
        '(shape_index, bag) ← py_pop bag;
        '(nxt, r) ← new_piece r shape_index;
        Ok (set_next_piece (Some nxt)
              (set_current_piece (Some cur) (set_piece_bag bag s)), r)
    | Some _ =>
        let s := set_current_piece (next_piece s) s in
        '(shape_index, bag) ← py_pop bag;
        '(nxt, r) ← new_piece r shape_index;
        Ok (set_next_piece (Some nxt) (set_piece_bag bag s), r)
    end;
  cur ← the_current_piece s;
  collides ← check_collision s (position cur);
  Ok (if collides : bool then set_game_over true s else s, r).

(** [GameState.lock_piece_and_clear] *)
Definition lock_piece_and_clear (r : Rng) (s : GameState)
  : result (GameState * Rng) :=
  cur ← the_current_piece s;
  g ← lock_cells (grid s) cur;
  '(last, r) ← clone r cur;
  '(g, layers_cleared) ← clear_full_layers g;
  let s := set_last_piece (Some last) (set_grid g s) in
  let s := set_score (update_score (score s) layers_cleared (length (shape cur))) s in
  spawn_new_piece r s.

(** ** The module-level state and the callbacks *)

Record World : Type := mkWorld {
  game_state : GameState;
  current_mode : Mode;
  previous_time : Z;
  time_accumulator_fall : Z;
  random_state : Rng
}.

Definition set_game_state (gs : GameState) (w : World) : World :=
  mkWorld gs (current_mode w) (previous_time w) (time_accumulator_fall w)
    (random_state w).
Definition set_current_mode (m : Mode) (w : World) : World :=
  mkWorld (game_state w) m (previous_time w) (time_accumulator_fall w)
    (random_state w).
Definition set_previous_time (t : Z) (w : World) : World :=
  mkWorld (game_state w) (current_mode w) t (time_accumulator_fall w)
    (random_state w).
Definition set_time_accumulator_fall (t : Z) (w : World) : World :=
  mkWorld (game_state w) (current_mode w) (previous_time w) t (random_state w).
Definition set_random_state (r : Rng) (w : World) : World :=
  mkWorld (game_state w) (current_mode w) (previous_time w)
    (time_accumulator_fall w) r.

(** The module as loaded: [game_state = GameState()], loading screen. *)
Definition initial_world (r : Rng) : World :=
  mkWorld GameState_init STATE_LOADING 0 0 r.

(** [set_mode].  Entering the game-over mode submits the score to the
    high-score manager (not modelled); entering the loading mode assigns a
    local variable only. *)
Definition set_mode (new_mode : Mode) (w : World) : World :=
  let w := set_current_mode new_mode w in
  match new_mode with
  | STATE_MAIN_MENU =>
      let gs := reset_grid (game_state w) in
      let gs := set_score 0 gs in
      let gs := set_game_over false gs in
      let gs := set_last_piece None gs in
      let gs := set_current_piece None gs in
      let gs := set_next_piece None gs in
      set_game_state gs w
  | _ => w
  end.

Definition set_position (pos : Z * Z * Z) (t : Tetromino) : Tetromino :=
  mkTetromino (shape t) pos (color t).
Definition set_shape (sh : list Offset) (t : Tetromino) : Tetromino :=
  mkTetromino sh (position t) (color t).

(** "Move piece down" in [game_loop]: one cell down, and on collision back
    to the old position, lock, and game-over mode if the spawn collided. *)
Definition gravity_step (w : World) : result World :=
  match current_piece (game_state w) with
  | None => Ok w
  | Some p =>
      let old_pos := position p in
      let gs := set_current_piece (Some (move 0 (-1) 0 p)) (game_state w) in
      cur ← the_current_piece gs;
      collides ← check_collision gs (position cur);
      if collides : bool then
        let gs := set_current_piece (Some (set_position old_pos cur)) gs in
        '(gs, r) ← lock_piece_and_clear (random_state w) gs;
        let w := set_random_state r (set_game_state gs w) in
        Ok (if game_over gs then set_mode STATE_GAME_OVER w else w)
      else Ok (set_game_state gs w)
  end.

(** [game_loop]; [current_time] is what [glutGet(GLUT_ELAPSED_TIME)] returns. *)
Definition game_loop (current_time : Z) (w : World) : result World :=
  let delta_time := current_time - previous_time w in
  let w := set_previous_time current_time w in
  if bool_decide (current_mode w = STATE_PLAYING)
     && negb (game_over (game_state w))
  then
    let w := set_time_accumulator_fall (time_accumulator_fall w + delta_time) w in
    if time_accumulator_fall w >=? FALL_INTERVAL_MS then
      let w :=
        set_time_accumulator_fall (time_accumulator_fall w - FALL_INTERVAL_MS) w in
      gravity_step w
    else Ok w
  else Ok w.

(** What the handlers derive from the camera angle (floating point in the
    source): the signs and the dominant components of the forward and right
    vectors, and their components rounded to integers. *)
Record CameraView : Type := mkCameraView {
  forward_x_positive : bool;
  forward_z_positive : bool;
  right_x_positive : bool;
  right_z_positive : bool;
  forward_x_dominant : bool;
  right_x_dominant : bool;
  round_forward_x : Z;
  round_forward_z : Z;
  round_right_x : Z;
  round_right_z : Z
}.

(** [current_piece.move(dx, 0, dz)], and [current_piece.move(bx, 0, bz)] if
    the moved piece collides. *)
Definition move_or_revert (dx dz bx bz : Z) (gs : GameState) : result GameState :=
  p ← the_current_piece gs;
  let gs := set_current_piece (Some (move dx 0 dz p)) gs in
  cur ← the_current_piece gs;
  collides ← check_collision gs (position cur);
  if collides : bool
  then Ok (set_current_piece (Some (move bx 0 bz cur)) gs)
  else Ok gs.

Definition GLUT_KEY_F1 : Z := 1.
Definition GLUT_KEY_LEFT : Z := 100.
Definition GLUT_KEY_UP : Z := 101.
Definition GLUT_KEY_RIGHT : Z := 102.
Definition GLUT_KEY_DOWN : Z := 103.

Definition engine_accepts_input (w : World) : bool :=
  bool_decide (current_mode w = STATE_PLAYING)
  && negb (game_over (game_state w))
  && bool_decide (is_Some (current_piece (game_state w))).

(** [special_keys] *)
Definition special_keys (v : CameraView) (key : Z) (w : World) : result World :=
  if engine_accepts_input w then
    let fx := round_forward_x v in
    let fz := round_forward_z v in
    let rx := round_right_x v in
    let rz := round_right_z v in
    gs ←
      (if key =? GLUT_KEY_F1 then Ok (game_state w)
       else if key =? GLUT_KEY_UP then
         move_or_revert fx fz (- fx) (- fz) (game_state w)
       else if key =? GLUT_KEY_DOWN then
         move_or_revert (- fx) (- fz) fx fz (game_state w)
       else if key =? GLUT_KEY_LEFT then
         move_or_revert (- rx) (- rz) rx rz (game_state w)
       else if key =? GLUT_KEY_RIGHT then
         move_or_revert rx rz (- rx) (- rz) (game_state w)
       else Ok (game_state w));
    Ok (set_game_state gs w)
  else Ok w.

(** [bytes.lower] on a single byte. *)
Definition lower (key : ascii) : ascii :=
  let n := nat_of_ascii key in
  if ((65 <=? n) && (n <=? 90))%nat then ascii_of_nat (n + 32) else key.

Definition key_in (key : ascii) (keys : list ascii) : bool :=
  bool_decide (key ∈ keys).

(** [handle_wasd] *)
Definition handle_wasd (v : CameraView) (key : ascii) (w : World) : result World :=
  if negb (bool_decide (current_mode w = STATE_PLAYING))
     || game_over (game_state w)
     || negb (bool_decide (is_Some (current_piece (game_state w))))
  then Ok w
  else
    let fsign := fun (b : bool) => if b then 1 else -1 in
    let key := lower key in
    let '(move_x, move_z) :=
      if bool_decide (key = "w"%char) then
        if forward_x_dominant v then (fsign (forward_x_positive v), 0)
        else (0, fsign (forward_z_positive v))
      else if bool_decide (key = "s"%char) then
        if forward_x_dominant v then (- fsign (forward_x_positive v), 0)
        else (0, - fsign (forward_z_positive v))
      else if bool_decide (key = "a"%char) then
        if right_x_dominant v then (- fsign (right_x_positive v), 0)
        else (0, - fsign (right_z_positive v))
      else if bool_decide (key = "d"%char) then
        if right_x_dominant v then (fsign (right_x_positive v), 0)
        else (0, fsign (right_z_positive v))
      else (0, 0) in
    if negb (move_x =? 0) || negb (move_z =? 0) then
      p ← the_current_piece (game_state w);
      let gs := set_current_piece (Some (move move_x 0 move_z p)) (game_state w) in
      cur ← the_current_piece gs;
      collides ← check_collision gs (position cur);
      if collides : bool then
        let gs := set_current_piece (Some (move (- move_x) 0 (- move_z) cur)) gs in
        let alt_move_x :=
          if negb (move_x =? 0) then 0 else fsign (forward_x_positive v) in
        let alt_move_z :=
          if negb (move_z =? 0) then 0 else fsign (forward_z_positive v) in
        gs ← move_or_revert alt_move_x alt_move_z (- alt_move_x) (- alt_move_z) gs;
        Ok (set_game_state gs w)
      else Ok (set_game_state gs w)
    else Ok w.

(** The hard drop of [keyboard]: [while True], [fuel] bounding the loop. *)
Fixpoint hard_drop (fuel : nat) (r : Rng) (gs : GameState)
  : result (GameState * Rng) :=
  match fuel with
  | O => OutOfFuel
  | S fuel' =>
      p ← the_current_piece gs;
      let old_pos := position p in
      let gs := set_current_piece (Some (move 0 (-1) 0 p)) gs in
      cur ← the_current_piece gs;
      collides ← check_collision gs (position cur);
      if collides : bool then
        lock_piece_and_clear r (set_current_piece (Some (set_position old_pos cur)) gs)
      else hard_drop fuel' r gs
  end.

(** [list(block)] and [tuple(block)] *)
Definition list_of_block (b : Offset) : list Z :=
  let '(x, y, z) := b in [x; y; z].
Definition tuple_of_list (l : list Z) : Offset :=
  match l with
  | [x; y; z] => (x, y, z)
  | _ => (0, 0, 0)
  end.

Fixpoint rotate_times (n : nat) (axis : Z) (t : Tetromino) : result Tetromino :=
  match n with
  | O => Ok t
  | S n' => t' ← rotate axis t; rotate_times n' axis t'
  end.

(** A rotation branch of [keyboard]: [n] quarter turns about [axis], and the
    saved position and shape put back if the turned piece collides. *)
Definition rotate_or_restore (n : nat) (axis : Z) (gs : GameState)
  : result GameState :=
  p ← the_current_piece gs;
  let original_position := position p in
  let original_shape := list_of_block <$> shape p in
  t ← rotate_times n axis p;
  let gs := set_current_piece (Some t) gs in
  cur ← the_current_piece gs;
  collides ← check_collision gs (position cur);
  if collides : bool then
    Ok (set_current_piece
          (Some (set_shape (tuple_of_list <$> original_shape)
                   (set_position original_position cur))) gs)
  else Ok gs.

(** The reset-and-spawn shared by "start" in the menu and "restart" after a
    game over. *)
Definition start_game (w : World) : result World :=
  let gs := reset_grid (game_state w) in
  let gs := set_score 0 gs in
  let gs := set_game_over false gs in
  let gs := set_current_piece None gs in
  let gs := set_next_piece None gs in
  '(gs, r) ← spawn_new_piece (random_state w) gs;
  Ok (set_mode STATE_PLAYING (set_random_state r (set_game_state gs w))).

Definition ESC : ascii := ascii_of_nat 27.
Definition ENTER : ascii := ascii_of_nat 13.

(** [keyboard]; the music keys change nothing that is modelled here. *)
Definition keyboard (fuel : nat) (v : CameraView) (key : ascii) (w : World)
  : result World :=
  if key_in key ["p"; "P"]%char && bool_decide (current_mode w = STATE_PLAYING)
  then Ok (set_current_mode STATE_PAUSED w)
  else if key_in key ["p"; "P"]%char && bool_decide (current_mode w = STATE_PAUSED)
  then Ok (set_current_mode STATE_PLAYING w)
  else if bool_decide (current_mode w = STATE_PLAYING)
          && negb (game_over (game_state w))
          && bool_decide (key = " "%char)
          && bool_decide (is_Some (current_piece (game_state w)))
  then
    '(gs, r) ← hard_drop fuel (random_state w) (game_state w);
    Ok (set_random_state r (set_game_state gs w))
  else if engine_accepts_input w then
    if key_in key ["w"; "W"; "a"; "A"; "s"; "S"; "d"; "D"]%char
    then handle_wasd v key w
    else
      gs ←
        (if key_in key ["q"; "Q"]%char then rotate_or_restore 1 1 (game_state w)
         else if key_in key ["e"; "E"]%char then rotate_or_restore 3 1 (game_state w)
         else if key_in key ["r"; "R"]%char then rotate_or_restore 1 2 (game_state w)
         else Ok (game_state w));
      Ok (set_game_state gs w)
  else if bool_decide (key = ESC) then
    match current_mode w with
    | STATE_PLAYING | STATE_PAUSED | STATE_GAME_OVER => Ok (set_mode STATE_MAIN_MENU w)
    | _ => Raise SystemExit
    end
  else
    match current_mode w with
    | STATE_LOADING =>
        if bool_decide (key = ENTER) then Ok (set_mode STATE_MAIN_MENU w) else Ok w
    | STATE_MAIN_MENU =>
        if key_in key ["s"; "S"]%char then start_game w else Ok w
    | STATE_PLAYING =>
        if game_over (game_state w) then Ok (set_mode STATE_GAME_OVER w) else Ok w
    | STATE_GAME_OVER =>
        if key_in key ["r"; "R"]%char then start_game w else Ok w
    | STATE_PAUSED => Ok w
    end.

(** *** The demo that [display] plays in the main menu *)

(** "Setup demo game" and "Reset if game over". *)
Definition demo_reset (r : Rng) (gs : GameState) : result (GameState * Rng) :=
  let gs := reset_grid gs in
  let '(bag, r) := shuffle r (range 0 (length SHAPES_3D)) in
  '(gs, r) ← spawn_new_piece r (set_piece_bag bag gs);
  Ok (set_game_over false gs, r).

(** [while not check_collision(position): move(0, -1, 0)] *)
Fixpoint demo_drop (fuel : nat) (gs : GameState) : result GameState :=
  match fuel with
  | O => OutOfFuel
  | S fuel' =>
      cur ← the_current_piece gs;
      collides ← check_collision gs (position cur);
      if collides : bool then Ok gs
      else demo_drop fuel' (set_current_piece (Some (move 0 (-1) 0 cur)) gs)
  end.

(** "Make random moves" *)
Definition demo_random_move (fuel : nat) (r : Rng) (gs : GameState)
  : result (GameState * Rng) :=
  let '(act, r) := random_lt r (Qmake 2 100) in
  if act : bool then
    let '(choice, r) := randrange r 3 in
    match choice with
    | 0%nat =>
        let '(i, r) := randrange r 4 in
        direction ← py_getitem [(1, 0, 0); (-1, 0, 0); (0, 0, 1); (0, 0, -1)]
                      (Z.of_nat i);
        let '(dx, dy, dz) := direction : Offset in
        cur ← the_current_piece gs;
        let gs := set_current_piece (Some (move dx dy dz cur)) gs in
        cur ← the_current_piece gs;
        collides ← check_collision gs (position cur);
        if collides : bool
        then Ok (set_current_piece (Some (move (- dx) 0 (- dz) cur)) gs, r)
        else Ok (gs, r)
    | 1%nat =>
        let '(i, r) := randrange r 3 in
        axis ← py_getitem [0; 1; 2] (Z.of_nat i);
        cur ← the_current_piece gs;
        t ← rotate axis cur;
        Ok (set_current_piece (Some t) gs, r)
    | 2%nat =>
        gs ← demo_drop fuel gs;
        cur ← the_current_piece gs;
        lock_piece_and_clear r (set_current_piece (Some (move 0 1 0 cur)) gs)
    | _ => Raise IndexError
    end
  else Ok (gs, r).

(** "Normal falling"; [elapsed] is [glutGet(GLUT_ELAPSED_TIME)]. *)
Definition demo_fall (elapsed : Z) (r : Rng) (gs : GameState)
  : result (GameState * Rng) :=
  if elapsed `mod` 500 <? 16 then
    p ← the_current_piece gs;
    let old_pos := position p in
    let gs := set_current_piece (Some (move 0 (-1) 0 p)) gs in
    cur ← the_current_piece gs;
    collides ← check_collision gs (position cur);
    if collides : bool then
      lock_piece_and_clear r (set_current_piece (Some (set_position old_pos cur)) gs)
    else Ok (gs, r)
  else Ok (gs, r).

(** The part of [display] that changes the game state: the branch for the
    main menu. *)
Definition display_main_menu (fuel : nat) (elapsed : Z) (w : World) : result World :=
  if bool_decide (current_mode w = STATE_MAIN_MENU) then
    '(gs, r) ←
      (match current_piece (game_state w) with
       | None => demo_reset (random_state w) (game_state w)
       | Some _ => Ok (game_state w, random_state w)
       end);
    '(gs, r) ←
      (match current_piece gs with
       | None => Ok (gs, r)
       | Some _ =>
           '(gs, r) ← demo_random_move fuel r gs;
           '(gs, r) ← demo_fall elapsed r gs;
           if game_over gs then demo_reset r gs else Ok (gs, r)
       end);
    Ok (set_random_state r (set_game_state gs w))
  else Ok w.

End Engine.

(** ** Definitions used to state the properties *)

(** The grid has the dimensions of [GRID_SIZE]. *)
Definition grid_wf (g : Grid) : Prop :=
  length g = Z.to_nat GRID_SIZE_0 /\
  Forall (fun plane : list (list Cell) =>
            length plane = Z.to_nat GRID_SIZE_1 /\
            Forall (fun row : list Cell => length row = Z.to_nat GRID_SIZE_2) plane) g.

#[global] Instance grid_wf_dec (g : Grid) : Decision (grid_wf g).
Proof. unfold grid_wf. apply _. Defined.

(** The content of a cell, [None] also where the grid has no such cell. *)
Definition cell_at (g : Grid) (x y z : nat) : Cell :=
  match g !! x with
  | Some plane =>
      match plane !! y with
      | Some row => default None (row !! z)
      | None => None
      end
  | None => None
  end.

Definition grid_cell (g : Grid) (c : Z * Z * Z) : Cell :=
  let '(x, y, z) := c in
  if bool_decide (0 <= x /\ 0 <= y /\ 0 <= z)
  then cell_at g (Z.to_nat x) (Z.to_nat y) (Z.to_nat z)
  else None.

Definition in_bounds (c : Z * Z * Z) : Prop :=
  let '(x, y, z) := c in
  (0 <= x < GRID_SIZE_0) /\ (0 <= y < GRID_SIZE_1) /\ (0 <= z < GRID_SIZE_2).

#[global] Instance in_bounds_dec c : Decision (in_bounds c).
Proof. destruct c as [[x y] z]. unfold in_bounds. apply _. Defined.

(** The absolute cell of an offset of a piece anchored at [pos]. *)
Definition absolute_cell (pos : Z * Z * Z) (o : Offset) : Z * Z * Z :=
  (pos.1.1 + o.1.1, pos.1.2 + o.1.2, pos.2 + o.2).

Definition piece_cells (p : Tetromino) : list (Z * Z * Z) :=
  absolute_cell (position p) <$> shape p.

(** The horizontal layer at height [y]: its rows run over [x], the cells of
    a row over [z]. *)
Definition layer (g : Grid) (y : nat) : list (list Cell) :=
  (fun x => (fun z => cell_at g x y z) <$> seq 0 8) <$> seq 0 8.

(** The twenty layers of the playfield, bottom first. *)
Definition layers (g : Grid) : list (list (list Cell)) :=
  layer g <$> seq 0 20.

Definition occupied (c : Cell) : bool :=
  match c with
  | Some _ => true
  | None => false
  end.

(** A layer is full when every one of its cells is occupied. *)
Definition layer_full (l : list (list Cell)) : bool :=
  forallb (forallb occupied) l.

Definition empty_layer : list (list Cell) :=
  replicate 8 (replicate 8 None).

(** The heights of the full layers, in increasing order. *)
Definition full_layers (g : Grid) : list nat :=
  filter (fun y => layer_full (layer g y)) (seq 0 20).

Definition count_full (ls : list (list (list Cell))) : nat :=
  length (filter (fun l => layer_full l) ls).

(** The quarter turn about Y as the specification writes it. *)
Definition quarter_turn_y (o : Offset) : Offset :=
  let '(x, y, z) := o in (- z, y, x).

(** The layer-clear bonus as the specification tabulates it. *)
Definition layer_bonus (n : nat) : Z :=
  match n with
  | 0%nat => 0
  | 1%nat => 100
  | 2%nat => 300
  | 3%nat => 500
  | 4%nat => 800
  | _ => 100 * Z.of_nat n
  end.

(** Every index in the bag names a catalogue shape. *)
Definition bag_valid (bag : list nat) : Prop :=
  Forall (fun k => k < length SHAPES_3D)%nat bag.

(** The fixed spawn anchor: X centre, Y = height - 3, Z centre. *)
Definition spawn_anchor : Z * Z * Z :=
  (GRID_SIZE_0 `div` 2, GRID_SIZE_1 - 3, GRID_SIZE_2 `div` 2).

(** A deterministic generator for the examples: its state counts the calls
    made to it, [shuffle] rotates the list by that count. *)
Definition counter_random : Random nat := {|
  shuffle r l :=
    (drop (r `mod` length l)%nat l ++ take (r `mod` length l)%nat l, S r);
  randrange r n := ((r `mod` n)%nat, S r);
  random_lt r p := (false, S r)
|}.

Section Observations.

Context `{Random Rng}.

(** What the GLUT main loop delivers to the callbacks. *)
Inductive Event : Type :=
| Key (key : ascii)
| SpecialKey (key : Z)
| Tick (current_time : Z)
| Redraw (elapsed : Z).

Definition dispatch (fuel : nat) (v : CameraView) (e : Event) (w : World)
  : result World :=
  match e with
  | Key key => keyboard fuel v key w
  | SpecialKey key => special_keys v key w
  | Tick current_time => game_loop current_time w
  | Redraw elapsed => display_main_menu fuel elapsed w
  end.

Definition run_events (fuel : nat) (v : CameraView) (es : list Event) (w : World)
  : result World :=
  for_each es (dispatch fuel v) w.

(** A game in progress: a grid of the right dimensions, shape indices in
    the bag, a current piece, and a queued piece that still sits where its
    constructor put it. *)
Definition mid_game (s : GameState) : Prop :=
  grid_wf (grid s) /\ bag_valid (piece_bag s) /\
  is_Some (current_piece s) /\
  exists q, next_piece s = Some q /\ position q = spawn_anchor.

(** The current piece exists and does not collide where it is. *)
Definition piece_valid (s : GameState) : Prop :=
  exists p, current_piece s = Some p /\ check_collision s (position p) = Ok false.

(** The queued piece, if there is one, still sits at the spawn anchor (no
    operation moves it before it becomes the current piece). *)
Definition queued_at_anchor (s : GameState) : Prop :=
  forall q, next_piece s = Some q -> position q = spawn_anchor.




(** What holds of the game state in every world a session can reach. *)
Definition engine_inv (s : GameState) : Prop :=
  grid_wf (grid s) /\ bag_valid (piece_bag s) /\ queued_at_anchor s /\
  (is_Some (current_piece s) -> is_Some (next_piece s)).

(** After a spawn there is a current piece, and it is free unless the flag
    is up. *)
Definition spawned (s' : GameState) : Prop :=
  engine_inv s' /\ is_Some (current_piece s') /\
  (game_over s' = false -> piece_valid s').

(** ... and of the world: while a game is played or paused there is a
    current piece, and unless the game is over it does not collide. *)
Definition session_inv (w : @World Rng) : Prop :=
  engine_inv (game_state w) /\
  (current_mode w = STATE_PLAYING \/ current_mode w = STATE_PAUSED ->
   is_Some (current_piece (game_state w)) /\
   (game_over (game_state w) = false -> piece_valid (game_state w))).

(** The outcome of a speculative change of the current piece into [t]: the
    world is as before if [t] collides, and has [t] as its current piece
    (and nothing else changed) if it does not. *)
Definition reverted_or_applied (w w' : @World Rng) (t : Tetromino) : Prop :=
  exists b,
    check_collision (set_current_piece (Some t) (game_state w)) (position t) = Ok b /\
    w' = if b : bool then w
         else set_game_state (set_current_piece (Some t) (game_state w)) w.

(** The pieces a call of [spawn_new_piece] has drawn, in the order of the
    draws: the current and the queued piece on a first spawn, the queued
    piece otherwise. *)
Definition drawn_pieces (s s' : GameState) : list Tetromino :=
  match current_piece s with
  | None => option_list (current_piece s') ++ option_list (next_piece s')
  | Some _ => option_list (next_piece s')
  end.

(** Piece [t] is the catalogue entry [k]. *)
Definition catalogue_entry (t : Tetromino) (k : nat) : Prop :=
  SHAPES_3D !! k = Some (shape t) /\ CYBER_COLORS !! k = Some (color t).

(** A run of spawns.  Between two spawns anything may happen to the game
    state and to the generator, except that the bag is not touched (only
    [spawn_new_piece] and the demo of the menu write it). *)
Inductive spawn_run : Rng -> GameState -> list Tetromino -> Rng -> GameState -> Prop :=
| spawn_run_nil r s : spawn_run r s [] r s
| spawn_run_step r s r1 s1 r2 s2 r3 s3 ds :
    piece_bag s1 = piece_bag s ->
    spawn_new_piece r1 s1 = Ok (s2, r2) ->
    spawn_run r2 s2 ds r3 s3 ->
    spawn_run r s (drawn_pieces s1 s2 ++ ds) r3 s3.

(** [n] spawns in a row, with the pieces they draw. *)
Fixpoint spawn_times (n : nat) (r : Rng) (s : GameState)
  : result (list Tetromino * GameState * Rng) :=
  match n with
  | O => Ok ([], s, r)
  | S n' =>
      '(s1, r1) ← spawn_new_piece r s;
      '(ds, s2, r2) ← spawn_times n' r1 s1;
      Ok (drawn_pieces s s1 ++ ds, s2, r2)
  end.

(** The tick as the specification words it: a gravity step for every
    threshold the accumulator has crossed, all of them within the tick. *)
Fixpoint gravity_steps_specified (n : nat) (w : World) : result World :=
  match n with
  | O => Ok w
  | S n' =>
      if bool_decide (current_mode w = STATE_PLAYING)
         && negb (game_over (game_state w))
         && (time_accumulator_fall w >=? FALL_INTERVAL_MS)
      then
        w' ← gravity_step
               (set_time_accumulator_fall
                  (time_accumulator_fall w - FALL_INTERVAL_MS) w);
        gravity_steps_specified n' w'
      else Ok w
  end.

Definition game_loop_specified (current_time : Z) (w : World) : result World :=
  let delta_time := current_time - previous_time w in
  let w := set_previous_time current_time w in
  if bool_decide (current_mode w = STATE_PLAYING)
     && negb (game_over (game_state w))
  then
    let w := set_time_accumulator_fall (time_accumulator_fall w + delta_time) w in
    gravity_steps_specified
      (Z.to_nat (time_accumulator_fall w `div` FALL_INTERVAL_MS)) w
  else Ok w.

End Observations.

(** *** Concrete inputs for the examples *)

(** What the handlers see with the camera near its initial yaw of -45
    degrees: forward is (-0.7, -0.7), right is (0.7, -0.7). *)
Definition example_view : CameraView :=
  mkCameraView false false true false false true (-1) (-1) 1 (-1).

(** The game right after "start" in a freshly loaded program (no redraw in
    between): the Z piece is current, the S piece is queued, five indices
    are left in the bag. *)
Definition example_game : @World nat :=
  match @run_events nat counter_random 0 example_view [Key ENTER; Key "s"%char]
          (initial_world 0%nat) with
  | Ok w => w
  | _ => initial_world 0%nat
  end.

(** Ticks half a second apart. *)
Definition ticks (n : Z) : list Event :=
  (fun i => Tick (500 * i)) <$> seqZ 1 n.

(** Two sessions that end with "start" while one index is left in the bag:
    in the first the demo of the menu has locked four pieces before the
    player starts; in the second the player starts at once, lets four
    pieces lock, pauses, goes back to the menu and starts again before the
    menu is redrawn. *)
Definition session_after_demo : list Event :=
  Key ENTER :: replicate 60 (Redraw 0) ++ [Key "s"%char].

Definition session_after_pause : list Event :=
  [Key ENTER; Key "s"%char] ++ ticks 62 ++ [Key "p"%char; Key ESC; Key "s"%char].

(** The catalogue piece [k] anchored at [pos]. *)
Definition piece_of (k : nat) (pos : Z * Z * Z) : Tetromino :=
  mkTetromino (nth k SHAPES_3D []) pos
    (nth k CYBER_COLORS (Qmake 0 1, Qmake 0 1, Qmake 0 1)).

Definition with_cell (c : Cell) (x y z : nat) (g : Grid) : Grid :=
  alter (alter (fun row => <[z := c]> row) y) x g.

Definition with_full_layer (col : Color) (y : nat) (g : Grid) : Grid :=
  (fun plane => <[y := replicate 8 (Some col)]> plane) <$> g.

Definition red : Color := (Qmake 1 1, Qmake 0 1, Qmake 0 1).

(** Layers 3 and 5 full, single blocks in layers 4, 6 and 19. *)
Definition example_grid_3_5 : Grid :=
  with_cell (Some red) 7 19 7
    (with_cell (Some red) 2 6 3
       (with_cell (Some red) 0 4 0
          (with_full_layer red 3 (with_full_layer red 5 empty_grid)))).

(** The bottom layer lacks the four cells that the I piece lying in the
    corner occupies; the S piece is queued. *)
Definition example_lock_state : GameState :=
  mkGameState
    (with_cell None 3 0 0 (with_cell None 2 0 0 (with_cell None 1 0 0
       (with_cell None 0 0 0 (with_full_layer red 0 empty_grid)))))
    0 false None (Some (piece_of 0 (0, 0, 0))) (Some (piece_of 5 spawn_anchor))
    [0; 1; 2; 3; 4]%nat.

(** The I piece lying on the floor with two of its cells beyond X = 7. *)
Definition example_edge_piece : Tetromino := piece_of 0 (6, 0, 0).

(** A game in which the I piece lies on the floor and a block sits where
    the queued S piece will spawn. *)
Definition example_blocked_game : @World nat :=
  mkWorld
    (mkGameState (with_cell (Some red) 5 17 4 empty_grid)
       0 false None (Some (piece_of 0 (0, 0, 0))) (Some (piece_of 5 spawn_anchor))
       [0; 1; 2; 3; 4]%nat)
    STATE_PLAYING 0 0 0%nat.


(** *** Definitions for the further properties *)

(** The quarter turns about X and about Z, as [Tetromino.rotate] writes
    them. *)
Definition quarter_turn_x (o : Offset) : Offset :=
  let '(x, y, z) := o in (x, - z, y).

Definition quarter_turn_z (o : Offset) : Offset :=
  let '(x, y, z) := o in (- y, x, z).

(** The squared distance between two cells. *)
Definition dist2 (a b : Offset) : Z :=
  (a.1.1 - b.1.1) * (a.1.1 - b.1.1) + (a.1.2 - b.1.2) * (a.1.2 - b.1.2)
  + (a.2 - b.2) * (a.2 - b.2).

(** The cells of the playfield, layer by layer from the bottom. *)
Definition all_cells : list (Z * Z * Z) :=
  y ← seqZ 0 GRID_SIZE_1; x ← seqZ 0 GRID_SIZE_0; z ← seqZ 0 GRID_SIZE_2; [(x, y, z)].

(** The number of blocks that lie in the playfield. *)
Definition blocks (g : Grid) : nat :=
  length (filter (fun c => occupied (grid_cell g c)) all_cells).

(** The number of blocks in a list of layers. *)
Definition blocks_in (ls : list (list (list Cell))) : nat :=
  length (filter (fun c => occupied c) (mjoin (mjoin ls))).


(** ** The landing indicator *)

(** The [while test_pos[1] > 0] loop of [find_landing_position].  Every
    iteration puts the current piece at the test position, asks
    [check_collision], and puts it back; [fuel] bounds the iterations. *)
Fixpoint landing_loop (fuel : nat) (gs : GameState) (test_pos : Z * Z * Z)
  : result (GameState * Z) :=
  match fuel with
  | O => OutOfFuel
  | S fuel' =>
      if test_pos.1.2 >? 0 then
        let test_pos := (test_pos.1.1, test_pos.1.2 - 1, test_pos.2) in
        p ← the_current_piece gs;
        let current_pos := position p in
        let gs := set_current_piece (Some (set_position test_pos p)) gs in
        collides ← check_collision gs test_pos;
        cur ← the_current_piece gs;
        let gs := set_current_piece (Some (set_position current_pos cur)) gs in
        if collides : bool then Ok (gs, test_pos.1.2 + 1)
        else landing_loop fuel' gs test_pos
      else Ok (gs, 0)
  end.

(** [find_landing_position]: the loop counts [test_pos[1]] down to 0, so it
    runs at most that many times. *)
Definition find_landing_position (gs : GameState) : result (GameState * Z) :=
  match current_piece gs with
  | None => Ok (gs, 0)
  | Some p => landing_loop (Z.to_nat (position p).1.2 + 1) gs (position p)
  end.

(** The current piece of [s] put at height [y]. *)
Definition at_height (y : Z) (s : GameState) : GameState :=
  match current_piece s with
  | Some p =>
      set_current_piece
        (Some (set_position ((position p).1.1, y, (position p).2) p)) s
  | None => s
  end.

(** Whether the current piece of [s] would collide at height [y]. *)
Definition collides_at (y : Z) (s : GameState) : result bool :=
  p ← the_current_piece s;
  check_collision s ((position p).1.1, y, (position p).2).

(** Where the hard drop stops: the height [h] at or below the piece such
    that the piece is free from [h] up to (but excluding) where it is, and
    collides at [h - 1]. *)
Definition rests_at (h : Z) (s : GameState) : Prop :=
  exists p, current_piece s = Some p /\
    h <= (position p).1.2 /\
    (forall t, h <= t < (position p).1.2 -> collides_at t s = Ok false) /\
    collides_at (h - 1) s = Ok true.


(** What a session keeps true of the playfield and the score: no layer is
    full, and the score is a non-negative multiple of 10. *)
Definition board_inv (s : GameState) : Prop :=
  full_layers (grid s) = [] /\ exists k, 0 <= k /\ score s = 10 * k.

(** The step touches neither the playfield nor the score. *)
Definition board_kept (s s' : GameState) : Prop :=
  grid s' = grid s /\ score s' = score s.

(** ** The high-score table ([HighScoreManager]) *)

Definition MAX_HIGHSCORES : nat := 10.

(** An entry [{"score": score, "date": date_str}]. *)
Record ScoreEntry : Type := mkScoreEntry {
  entry_score : Z;
  entry_date : String.string
}.

(** [highscores.sort(key=lambda x: x["score"], reverse=True)].  Python's
    sort is stable, also with [reverse=True]: the result is in descending
    order of the scores and entries with equal scores keep the order they
    had.  There is one such list; it is computed here by insertion, each
    entry going in front of the first entry whose score is not higher than
    its own. *)
Fixpoint insert_by_score (e : ScoreEntry) (l : list ScoreEntry) : list ScoreEntry :=
  match l with
  | [] => [e]
  | e' :: l' =>
      if entry_score e <? entry_score e' then e' :: insert_by_score e l'
      else e :: l
  end.

Definition sort_by_score_desc (l : list ScoreEntry) : list ScoreEntry :=
  foldr insert_by_score [] l.

(** [min(entry["score"] for entry in highscores)]; [None] for the empty
    table, where the source does not evaluate it. *)
Definition min_score (l : list ScoreEntry) : option Z :=
  match l with
  | [] => None
  | e :: l' => Some (foldl (fun m e' => Z.min m (entry_score e')) (entry_score e) l')
  end.

(** [HighScoreManager.add_score]: returns whether the score is a high score
    and the table afterwards.  [date_str] is what
    [datetime.now().strftime(...)] returns.  The table is then written to
    the high-score file, which is not part of this model. *)
Definition add_score (date_str : String.string) (score : Z)
    (highscores : list ScoreEntry) : bool * list ScoreEntry :=
  let score_entry := mkScoreEntry score date_str in
  let is_high_score :=
    if (length highscores <? MAX_HIGHSCORES)%nat then true
    else match min_score highscores with
         | Some m => m <? score
         | None => false
         end in
  if is_high_score : bool then
    let highscores := highscores ++ [score_entry] in
    let highscores := sort_by_score_desc highscores in
    let highscores := take MAX_HIGHSCORES highscores in
    (true, highscores)
  else (false, highscores).

(** Descending order of the scores. *)
Definition by_score_desc (a b : ScoreEntry) : Prop := entry_score b <= entry_score a.

(** ** The camera ([mouse_click], [mouse_motion], [mouse_wheel]) *)

(** Python floats are IEEE 754 binary64 numbers, as are the primitive
    floats of Rocq; a decimal literal denotes the nearest such number in
    both. *)


Definition CAMERA_DIST_MIN : float := 15.0%float.
Definition CAMERA_DIST_MAX : float := 80.0%float.

(** [max(a, b)] and [min(a, b)] of Python: the first argument, unless the
    second is greater (smaller). *)
Definition py_max (a b : float) : float := if PrimFloat.ltb a b then b else a.
Definition py_min (a b : float) : float := if PrimFloat.ltb b a then b else a.

(** [float(n)] for an integer of the size of a window coordinate. *)
Definition float_of_Z (n : Z) : float :=
  if n <? 0 then PrimFloat.opp (PrimFloat.of_uint63 (Uint63.of_Z (- n)))
  else PrimFloat.of_uint63 (Uint63.of_Z n).

(** The module-level camera variables. *)
Record Camera : Type := mkCamera {
  mouse_down : bool;
  mouse_last_x : Z;
  mouse_last_y : Z;
  camera_rot_x : float;
  camera_rot_y : float;
  camera_dist : float
}.

(** The camera as the module is loaded. *)
Definition initial_camera : Camera :=
  mkCamera false 0 0 25.0%float (-45.0)%float 30.0%float.

Definition GLUT_LEFT_BUTTON : Z := 0.
Definition GLUT_DOWN : Z := 0.

Definition set_camera_dist (d : float) (c : Camera) : Camera :=
  mkCamera (mouse_down c) (mouse_last_x c) (mouse_last_y c) (camera_rot_x c)
    (camera_rot_y c) d.

(** [mouse_click] *)
Definition mouse_click (button state x y : Z) (c : Camera) : Camera :=
  if button =? GLUT_LEFT_BUTTON then
    if state =? GLUT_DOWN
    then mkCamera true x y (camera_rot_x c) (camera_rot_y c) (camera_dist c)
    else mkCamera false (mouse_last_x c) (mouse_last_y c) (camera_rot_x c)
           (camera_rot_y c) (camera_dist c)
  else if (button =? 3) && (state =? GLUT_DOWN) then
    set_camera_dist (py_max CAMERA_DIST_MIN (camera_dist c - 2.0)%float) c
  else if (button =? 4) && (state =? GLUT_DOWN) then
    set_camera_dist (py_min CAMERA_DIST_MAX (camera_dist c + 2.0)%float) c
  else c.

(** [mouse_motion].  The clamps assign the integers 90 and -90, which
    compare and add as the floats 90.0 and -90.0 do. *)
Definition mouse_motion (x y : Z) (c : Camera) : Camera :=
  if mouse_down c then
    let dx := x - mouse_last_x c in
    let dy := y - mouse_last_y c in
    let rot_y := (camera_rot_y c + float_of_Z dx * 0.3)%float in
    let rot_x := (camera_rot_x c + float_of_Z dy * 0.3)%float in
    let rot_x := if PrimFloat.ltb 90.0%float rot_x then 90.0%float else rot_x in
    let rot_x := if PrimFloat.ltb rot_x (-90.0)%float then (-90.0)%float else rot_x in
    mkCamera (mouse_down c) x y rot_x rot_y (camera_dist c)
  else c.

(** [mouse_wheel] *)
Definition mouse_wheel (button direction x y : Z) (c : Camera) : Camera :=
  if direction >? 0 then
    let d := (camera_dist c - 2.0)%float in
    set_camera_dist (if PrimFloat.ltb d CAMERA_DIST_MIN then CAMERA_DIST_MIN else d) c
  else
    let d := (camera_dist c + 2.0)%float in
    set_camera_dist (if PrimFloat.ltb CAMERA_DIST_MAX d then CAMERA_DIST_MAX else d) c.

(** What GLUT delivers to the mouse callbacks. *)
Inductive MouseEvent : Type :=
| Click (button state x y : Z)
| Motion (x y : Z)
| Wheel (button direction x y : Z).

Definition mouse_dispatch (e : MouseEvent) (c : Camera) : Camera :=
  match e with
  | Click button state x y => mouse_click button state x y c
  | Motion x y => mouse_motion x y c
  | Wheel button direction x y => mouse_wheel button direction x y c
  end.

Definition run_mouse (es : list MouseEvent) (c : Camera) : Camera :=
  foldl (fun c e => mouse_dispatch e c) c es.

(** The distances the zoom can reach: the whole numbers from 15 to 80. *)
Definition zoom_level (d : float) : Prop :=
  exists n, 15 <= n <= 80 /\ d = float_of_Z n.

(** The vertical camera angle is neither above 90 nor below -90. *)
Definition tilt_clamped (a : float) : Prop :=
  PrimFloat.ltb 90.0%float a = false /\ PrimFloat.ltb a (-90.0)%float = false.

(** ** The music manager ([MusicManager]) *)

Definition MUSIC_VOLUME_DEFAULT : float := 0.2%float.
Definition MUSIC_VOLUME_STEP : float := 0.1%float.

Section Music.

Context `{Random Rng}.

(** A song is a path in the directory of songs. *)
Context {Song : Type} `{EqDecision Song}.

(** The fields of [MusicManager], and what the mixer of pygame has been
    told: the volume of the last [set_volume] call ([None] before the
    first) and the song it holds, which is the song of the last successful
    [load] unless an [unload] has followed it ([None] then, as before the
    first load). *)
Record MusicManager : Type := mkMusicManager {
  volume : float;
  is_muted : bool;
  played_songs : list Song;
  mixer_volume : option float;
  mixer_song : option Song
}.

(** The fields as [__init__] sets them, before it loads the first song. *)
Definition MusicManager_fields : MusicManager :=
  mkMusicManager MUSIC_VOLUME_DEFAULT false [] None None.

(** [_load_and_play_music].  [music_files] is what the directory holds at
    the call; [loaded] tells whether [pygame.mixer.music.load] succeeds (its
    exception is caught and printed).  [random.choice(l)] is
    [l[random.randrange(len(l))]]. *)
Definition load_and_play_music (music_files : list Song) (loaded : bool)
    (r : Rng) (m : MusicManager) : MusicManager * Rng :=
  match music_files with
  | [] => (m, r)
  | _ =>
      let available_songs := filter (fun s => s ∉ played_songs m) music_files in
      let '(played, available_songs) :=
        match available_songs with
        | [] => ([], music_files)
        | _ => (played_songs m, available_songs)
        end in
      let '(i, r) := randrange r (length available_songs) in
      match available_songs !! i with
      | Some next_song =>
          let played := played ++ [next_song] in
          if loaded then
            (mkMusicManager (volume m) (is_muted m) played
               (Some (if is_muted m then 0%float else volume m)) (Some next_song), r)
          else
            (mkMusicManager (volume m) (is_muted m) played (mixer_volume m)
               (mixer_song m), r)
      | None => (m, r)
      end
  end.

(** [pygame.mixer.music.stop()] and [pygame.mixer.music.unload()]: the
    mixer holds no song any more. *)
Definition stop_and_unload (m : MusicManager) : MusicManager :=
  mkMusicManager (volume m) (is_muted m) (played_songs m) (mixer_volume m) None.

(** [next_song]: the two calls above are outside the [try] of
    [_load_and_play_music], which follows them. *)
Definition next_song (music_files : list Song) (loaded : bool) (r : Rng)
    (m : MusicManager) : MusicManager * Rng :=
  load_and_play_music music_files loaded r (stop_and_unload m).

(** [toggle_mute] *)
Definition toggle_mute (m : MusicManager) : MusicManager :=
  let muted := negb (is_muted m) in
  mkMusicManager (volume m) muted (played_songs m)
    (Some (if muted then 0.0%float else volume m)) (mixer_song m).

(** [adjust_volume] *)
Definition adjust_volume (increase : bool) (m : MusicManager) : MusicManager :=
  let v :=
    if increase then py_min 1.0%float (volume m + MUSIC_VOLUME_STEP)%float
    else py_max 0.0%float (volume m - MUSIC_VOLUME_STEP)%float in
  mkMusicManager v (is_muted m) (played_songs m)
    (if negb (is_muted m) then Some v else mixer_volume m) (mixer_song m).

(** The mixer, once it has been told a volume, plays at 0 while muted and
    at the volume of the manager otherwise. *)
Definition mixer_follows (m : MusicManager) : Prop :=
  mixer_volume m = None \/
  mixer_volume m = Some (if is_muted m then 0.0%float else volume m).

End Music.

(** The volumes that steps of 0.1 up and down from 0.2 can reach, with the
    clamps at 0.0 and 1.0. *)
Definition volume_levels : list float :=
  [ 0.0; 2.7755575615628914e-17; 1.3877787807814457e-16; 0.1;
    0.10000000000000003; 0.10000000000000014; 0.2; 0.20000000000000004;
    0.20000000000000015; 0.30000000000000004; 0.30000000000000016; 0.4;
    0.40000000000000013; 0.5; 0.5000000000000001; 0.6; 0.6000000000000001;
    0.7; 0.7000000000000001; 0.7999999999999999; 0.8; 0.8999999999999999;
    0.9; 0.9999999999999999; 1.0 ]%float.

(** ** The program as a whole *)

Section WholeProgram.

Context `{Random Rng} {Song : Type} `{EqDecision Song}.

(** The module-level state of the engine together with the music manager
    that [game_state] holds.  The engine and [random.choice] of the music
    manager draw from the same module-level generator, [random_state]. *)
Record Program : Type := mkProgram {
  world : @World Rng;
  music_manager : @MusicManager Song
}.

(** What a song change meets: the songs that the directory holds and
    whether the mixer loads the one that is chosen. *)
Record Songs : Type := mkSongs {
  songs_found : list Song;
  song_loads : bool
}.

(** The music keys of [keyboard]: [m], [6], [7] and [8]. *)
Definition music_keys (key : ascii) (d : Songs) (r : Rng) (m : @MusicManager Song)
  : @MusicManager Song * Rng :=
  if bool_decide (key = "m"%char) then (toggle_mute m, r)
  else if bool_decide (key = "6"%char) then (adjust_volume false m, r)
  else if bool_decide (key = "7"%char) then (adjust_volume true m, r)
  else if bool_decide (key = "8"%char) then next_song (songs_found d) (song_loads d) r m
  else (m, r).

(** [keyboard] with its music keys.  The pause branch returns before them;
    every other key passes them on its way to the rest of the handler. *)
Definition keyboard_with_music (fuel : nat) (v : CameraView) (key : ascii) (d : Songs)
    (p : Program) : result Program :=
  if key_in key ["p"; "P"]%char
     && (bool_decide (current_mode (world p) = STATE_PLAYING)
         || bool_decide (current_mode (world p) = STATE_PAUSED))
  then
    w ← keyboard fuel v key (world p);
    Ok (mkProgram w (music_manager p))
  else
    let '(m, r) := music_keys key d (random_state (world p)) (music_manager p) in
    w ← keyboard fuel v key (set_random_state r (world p));
    Ok (mkProgram w m).

(** The event loop of [game_loop]: a song change for every [USEREVENT] in
    the queue of pygame. *)
Fixpoint music_events (ended : list Songs) (r : Rng) (m : @MusicManager Song)
  : @MusicManager Song * Rng :=
  match ended with
  | [] => (m, r)
  | d :: ended' =>
      let '(m, r) := next_song (songs_found d) (song_loads d) r m in
      music_events ended' r m
  end.

(** [game_loop] with its event loop, which neither reads nor writes the
    time stamp that the function sets before it. *)
Definition game_loop_with_music (current_time : Z) (ended : list Songs) (p : Program)
  : result Program :=
  let '(m, r) := music_events ended (random_state (world p)) (music_manager p) in
  w ← game_loop current_time (set_random_state r (world p));
  Ok (mkProgram w m).

(** What the GLUT main loop delivers, with what the callback meets: the
    view of the camera at a key press, the directory of songs at a song
    change, the events in the queue of pygame at a tick. *)
Inductive Input : Type :=
| KeyPressed (v : CameraView) (key : ascii) (d : Songs)
| SpecialKeyPressed (v : CameraView) (key : Z)
| TimerFired (current_time : Z) (ended : list Songs)
| Redisplay (elapsed : Z).

Definition handle (fuel : nat) (i : Input) (p : Program) : result Program :=
  match i with
  | KeyPressed v key d => keyboard_with_music fuel v key d p
  | SpecialKeyPressed v key =>
      w ← special_keys v key (world p);
      Ok (mkProgram w (music_manager p))
  | TimerFired current_time ended => game_loop_with_music current_time ended p
  | Redisplay elapsed =>
      w ← display_main_menu fuel elapsed (world p);
      Ok (mkProgram w (music_manager p))
  end.

Definition run_program (fuel : nat) (inputs : list Input) (p : Program)
  : result Program :=
  for_each inputs (handle fuel) p.

(** The program as loaded: [GameState()] constructs the music manager,
    which loads its first song. *)
Definition initial_program (d : Songs) (r : Rng) : Program :=
  let '(m, r) :=
    load_and_play_music (songs_found d) (song_loads d) r MusicManager_fields in
  mkProgram (initial_world r) m.

(** *** What the properties of the program speak of *)

(** The event of the engine in an input, the view it comes with ([v0] where
    the callback does not look at the camera), and the calls of the music
    manager it leads to. *)
Definition event_of (i : Input) : Event :=
  match i with
  | KeyPressed _ key _ => Key key
  | SpecialKeyPressed _ key => SpecialKey key
  | TimerFired current_time _ => Tick current_time
  | Redisplay elapsed => Redraw elapsed
  end.

Definition view_of (v0 : CameraView) (i : Input) : CameraView :=
  match i with
  | KeyPressed v _ _ | SpecialKeyPressed v _ => v
  | _ => v0
  end.

Definition music_of (i : Input) (r : Rng) (m : @MusicManager Song)
  : @MusicManager Song * Rng :=
  match i with
  | KeyPressed _ key d => music_keys key d r m
  | TimerFired _ ended => music_events ended r m
  | _ => (m, r)
  end.

(** The same game: game state, mode and fall timer are equal.  The time
    stamp of the last tick and the generator may differ. *)
Definition same_game (w w' : @World Rng) : Prop :=
  game_state w' = game_state w /\
  current_mode w' = current_mode w /\
  time_accumulator_fall w' = time_accumulator_fall w.


(** An input that is not a key press: a special key, a tick or a redraw. *)
Definition not_key (i : Input) : Prop :=
  forall v key d, i <> KeyPressed v key d.

(** The number of song changes that an input leads to. *)
Definition song_changes (i : Input) : nat :=
  match i with
  | KeyPressed _ key _ => if bool_decide (key = "8"%char) then 1%nat else 0%nat
  | TimerFired _ ended => length ended
  | _ => 0%nat
  end.

Definition song_changes_in (inputs : list Input) : nat :=
  sum_list (song_changes <$> inputs).

(** Whatever song change the input leads to finds [files] in the
    directory. *)
Definition in_directory (files : list Song) (i : Input) : Prop :=
  match i with
  | KeyPressed _ _ d => songs_found d = files
  | TimerFired _ ended => Forall (fun d => songs_found d = files) ended
  | _ => True
  end.

End WholeProgram.

(** ** What [draw_scene_3d] draws *)

(** A call [draw_block(pos, color)]. *)
Abbreviation Block := ((Z * Z * Z) * Color)%type.

(** The body of the loops over the settled blocks: [draw_block] if the cell
    holds a colour.  [drawn] collects the calls made so far. *)
Definition draw_cell (g : Grid) (x y z : nat) (drawn : list Block)
  : result (list Block) :=
  cell_color ← cell_get g (Z.of_nat x) (Z.of_nat y) (Z.of_nat z);
  match cell_color with
  | Some col => Ok (drawn ++ [((Z.of_nat x, Z.of_nat y, Z.of_nat z), col)])
  | None => Ok drawn
  end.

(** "Draw settled blocks" *)
Definition draw_settled_blocks (g : Grid) : result (list Block) :=
  for_each (range 0 (Z.to_nat GRID_SIZE_0)) (fun x =>
    for_each (range 0 (Z.to_nat GRID_SIZE_1)) (fun y =>
      for_each (range 0 (Z.to_nat GRID_SIZE_2)) (fun z =>
        draw_cell g x y z))) [].

(** The calls of [draw_block] that [draw_scene_3d] makes, in order: the
    settled blocks, then the cells of the current piece if there is one and
    the game is not over. *)
Definition draw_scene_3d (gs : GameState) : result (list Block) :=
  drawn ← draw_settled_blocks (grid gs);
  match current_piece gs with
  | Some p =>
      if negb (game_over gs)
      then Ok (drawn ++ ((fun o => (absolute_cell (position p) o, color p)) <$> shape p))
      else Ok drawn
  | None => Ok drawn
  end.

(** The cells of the playfield in the order of the drawing loops. *)
Definition cells_in_drawing_order : list (Z * Z * Z) :=
  x ← seq 0 8; y ← seq 0 20; z ← seq 0 8; [(Z.of_nat x, Z.of_nat y, Z.of_nat z)].

(** *** Concrete inputs for the further properties *)

(** No piece yet and one index left in the bag. *)
Definition example_one_left : GameState :=
  mkGameState empty_grid 0 false None None None [0%nat].

(** The menu of a freshly loaded program, before its first redraw. *)
Definition example_menu : @World nat :=
  mkWorld GameState_init STATE_MAIN_MENU 0 0 0%nat.

(** The example game after the key [w]. *)
Definition example_moved : @World nat :=
  match @keyboard nat counter_random 0 example_view "w"%char example_game with
  | Ok w => w
  | _ => example_game
  end.

(** A full table in order, the lowest score twice. *)
Definition example_table : list ScoreEntry :=
  (fun n => mkScoreEntry n "2024-01-01 12:00"%string)
    <$> [900; 800; 700; 600; 500; 400; 300; 200; 100; 100].

(** A directory of three songs, all of which load. *)
Definition example_songs : list nat := [1; 2; 3]%nat.

Definition example_directory : @Songs nat := mkSongs example_songs true.

(** The program after its start in the example: the keys ENTER and [s], a
    skip to the next song, a volume step, and a tick in which a song has
    ended. *)
Definition example_inputs : list (@Input nat) :=
  [KeyPressed example_view ENTER example_directory;
   KeyPressed example_view "s"%char example_directory;
   KeyPressed example_view "8"%char example_directory;
   KeyPressed example_view "7"%char example_directory;
   TimerFired 100 [example_directory]].

Definition example_program : @Program nat nat :=
  match @run_program nat counter_random nat _ 0 example_inputs
          (@initial_program nat counter_random nat _ example_directory 0%nat) with
  | Ok p => p
  | _ => @initial_program nat counter_random nat _ example_directory 0%nat
  end.



(** The blocked game with a music manager, and that game after a hard
    drop: the I piece locks where it lies and the S piece collides as it
    spawns. *)
Definition example_blocked : @Program nat nat :=
  mkProgram example_blocked_game MusicManager_fields.

Definition example_dropped : @Program nat nat :=
  match @handle nat counter_random nat _ 5
          (KeyPressed example_view " "%char example_directory) example_blocked with
  | Ok p => p
  | _ => example_blocked
  end.

(** A manager that has played all three songs. *)
Definition example_played_all : @MusicManager nat :=
  mkMusicManager MUSIC_VOLUME_DEFAULT false [2; 3; 1]%nat
    (Some MUSIC_VOLUME_DEFAULT) (Some 1%nat).

(** A block at (4,3,4) under the Z piece that has just spawned. *)
Definition example_landing_state : GameState :=
  mkGameState (with_cell (Some red) 4 3 4 empty_grid) 0 false None
    (Some (piece_of 6 spawn_anchor)) (Some (piece_of 5 spawn_anchor))
    [0; 1; 2; 3; 4]%nat.

(** A generator that replays a script: every call takes the next number
    [h] of the list.  [shuffle] rotates the list by [h], [randrange n]
    returns [h mod n], and [random.random()] returns [h / 100]. *)
Definition scripted_random : Random (list nat) := {|
  shuffle r l :=
    (drop (hd 0 r `mod` length l)%nat l ++ take (hd 0 r `mod` length l)%nat l, tl r);
  randrange r n := ((hd 0 r `mod` n)%nat, tl r);
  random_lt r p := (negb (Qle_bool p (Qmake (Z.of_nat (hd 0%nat r)) 100)), tl r)
|}.

(** What the generator returns while the menu is drawn for the first time:
    the shuffle of the demo leaves the I piece at the end of the bag, the
    two [Tetromino()] constructors draw an index each, [random.random()]
    returns 0.01, and the two [random.choice] calls pick ['rotate'] and the
    axis 2. *)
Definition demo_rotation_script : list nat := [1; 0; 0; 1; 1; 2]%nat.

Definition demo_rotation_session : list Event := [Key ENTER; Redraw 100].

(** The I piece at the spawn anchor after a quarter turn about Z: it stands
    upright and its top cell (4,20,4) is above the playfield. *)
Definition example_upright_piece : Tetromino :=
  mkTetromino [(0, 0, 0); (0, 1, 0); (0, 2, 0); (0, 3, 0)] spawn_anchor
    (color (piece_of 0 spawn_anchor)).

(** A game that is left for the menu and started again: start, pause,
    ESC, a redraw of the menu, start, and a hard drop. *)
Definition menu_detour_session : list Event :=
  [Key ENTER; Key "s"%char; Key "p"%char; Key ESC; Redraw 100; Key "s"%char;
   Key " "%char].

(** ** Subscripting a well-formed grid *)

Lemma py_getitem_ok {A} (l : list A) (i : Z) (a : A) :
  0 <= i -> l !! Z.to_nat i = Some a -> py_getitem l i = Ok a.
Proof.
  intros Hi Hl. unfold py_getitem.
  pose proof (lookup_lt_Some _ _ _ Hl) as Hlen.
  destruct (Z.ltb_spec i 0) as [|_]; [lia|].
  destruct (Z.ltb_spec i 0) as [|_]; [lia|].
  destruct (Z.leb_spec (Z.of_nat (length l)) i) as [|_]; [lia|].
  simpl. by rewrite Hl.
Qed.

Lemma py_setitem_ok {A} (l : list A) (i : Z) (v : A) :
  0 <= i < Z.of_nat (length l) -> py_setitem l i v = Ok (<[Z.to_nat i := v]> l).
Proof.
  intros Hi. unfold py_setitem.
  destruct (Z.ltb_spec i 0) as [|_]; [lia|].
  destruct (Z.ltb_spec i 0) as [|_]; [lia|].
  destruct (Z.leb_spec (Z.of_nat (length l)) i) as [|_]; [lia|].
  done.
Qed.

Lemma grid_wf_plane g x plane :
  grid_wf g -> g !! x = Some plane ->
  length plane = 20%nat /\ Forall (fun row : list Cell => length row = 8%nat) plane.
Proof.
  intros [_ Hg] Hx. rewrite Forall_lookup in Hg. exact (Hg _ _ Hx).
Qed.

Lemma grid_wf_row g x y plane (row : list Cell) :
  grid_wf g -> g !! x = Some plane -> plane !! y = Some row -> length row = 8%nat.
Proof.
  intros Hg Hx Hy. destruct (grid_wf_plane _ _ _ Hg Hx) as [_ Hp].
  rewrite Forall_lookup in Hp. exact (Hp _ _ Hy).
Qed.

Lemma grid_wf_lookup g x y z :
  grid_wf g -> (x < 8)%nat -> (y < 20)%nat -> (z < 8)%nat ->
  exists plane row c,
    g !! x = Some plane /\ plane !! y = Some row /\ row !! z = Some c /\
    length plane = 20%nat /\ length row = 8%nat /\ cell_at g x y z = c.
Proof.
  intros Hg Hx Hy Hz.
  destruct (lookup_lt_is_Some_2 g x) as [plane Hplane].
  { destruct Hg as [-> _]. exact Hx. }
  destruct (grid_wf_plane _ _ _ Hg Hplane) as [Hlen _].
  destruct (lookup_lt_is_Some_2 plane y) as [row Hrow]; [lia|].
  pose proof (grid_wf_row _ _ _ _ _ Hg Hplane Hrow) as Hlenr.
  destruct (lookup_lt_is_Some_2 row z) as [c Hc]; [lia|].
  exists plane, row, c. unfold cell_at. rewrite Hplane, Hrow, Hc. done.
Qed.

Lemma cell_get_ok g x y z :
  grid_wf g -> 0 <= x < 8 -> 0 <= y < 20 -> 0 <= z < 8 ->
  cell_get g x y z = Ok (cell_at g (Z.to_nat x) (Z.to_nat y) (Z.to_nat z)).
Proof.
  intros Hg Hx Hy Hz.
  destruct (grid_wf_lookup g (Z.to_nat x) (Z.to_nat y) (Z.to_nat z))
    as (plane & row & c & Hp & Hr & Hc & _ & _ & <-); [done|lia..|].
  unfold cell_get.
  rewrite (py_getitem_ok _ _ _ (proj1 Hx) Hp). simpl.
  rewrite (py_getitem_ok _ _ _ (proj1 Hy) Hr). simpl.
  by rewrite (py_getitem_ok _ _ _ (proj1 Hz) Hc).
Qed.

Lemma cell_set_ok g x y z v :
  grid_wf g -> 0 <= x < 8 -> 0 <= y < 20 -> 0 <= z < 8 ->
  exists g',
    cell_set g x y z v = Ok g' /\ grid_wf g' /\
    forall x' y' z',
      cell_at g' x' y' z' =
      if bool_decide (x' = Z.to_nat x /\ y' = Z.to_nat y /\ z' = Z.to_nat z)
      then v else cell_at g x' y' z'.
Proof.
  intros Hg Hx Hy Hz.
  destruct (grid_wf_lookup g (Z.to_nat x) (Z.to_nat y) (Z.to_nat z))
    as (plane & row & c & Hp & Hr & Hc & Hlp & Hlr & _); [done|lia..|].
  pose proof Hg as [Hlg Hall].
  exists (<[Z.to_nat x := <[Z.to_nat y := <[Z.to_nat z := v]> row]> plane]> g).
  split; [|split].
  - unfold cell_set.
    rewrite (py_getitem_ok _ _ _ (proj1 Hx) Hp). simpl.
    rewrite (py_getitem_ok _ _ _ (proj1 Hy) Hr). simpl.
    rewrite py_setitem_ok by lia. simpl.
    rewrite py_setitem_ok by lia. simpl.
    rewrite py_setitem_ok; [done|]. rewrite Hlg. change (Z.to_nat GRID_SIZE_0) with 8%nat. lia.
  - split; [by rewrite length_insert|].
    apply Forall_insert; [done|].
    split; [by rewrite length_insert|].
    destruct (grid_wf_plane _ _ _ Hg Hp) as [_ Hrows].
    apply Forall_insert; [done|]. by rewrite length_insert.
  - intros x' y' z'. unfold cell_at.
    destruct (decide (x' = Z.to_nat x)) as [->|Hnx].
    + rewrite list_lookup_insert_eq by (rewrite Hlg; change (Z.to_nat GRID_SIZE_0) with 8%nat; lia).
      rewrite Hp.
      destruct (decide (y' = Z.to_nat y)) as [->|Hny].
      * rewrite list_lookup_insert_eq by lia. rewrite Hr.
        destruct (decide (z' = Z.to_nat z)) as [->|Hnz].
        -- rewrite list_lookup_insert_eq by lia. by rewrite bool_decide_eq_true_2.
        -- rewrite list_lookup_insert_ne by done.
           rewrite bool_decide_eq_false_2; [done|]. intros (_ & _ & ?); done.
      * rewrite list_lookup_insert_ne by done.
        rewrite bool_decide_eq_false_2; [done|]. intros (_ & ? & _); done.
    + rewrite list_lookup_insert_ne by done.
      rewrite bool_decide_eq_false_2; [done|]. intros (? & _ & _); done.
Qed.

Lemma empty_grid_wf : grid_wf empty_grid.
Proof.
  unfold empty_grid. split; [by rewrite length_replicate|].
  apply Forall_replicate. split; [by rewrite length_replicate|].
  apply Forall_replicate. by rewrite length_replicate.
Qed.

Lemma cell_at_empty_grid x y z : cell_at empty_grid x y z = None.
Proof.
  unfold cell_at, empty_grid.
  destruct (replicate _ _ !! x) as [plane|] eqn:Hx; [|done].
  apply lookup_replicate in Hx as [-> _].
  destruct (replicate _ _ !! y) as [row|] eqn:Hy; [|done].
  apply lookup_replicate in Hy as [-> _].
  destruct (replicate _ _ !! z) as [c|] eqn:Hz; [|done].
  by apply lookup_replicate in Hz as [-> _].
Qed.

(** ** Rotation *)

Lemma rotate_shape_y (sh : list Offset) :
  rotate_shape 1 sh = Ok (quarter_turn_y <$> sh).
Proof.
  induction sh as [|[[x y] z] sh IH]; [done|].
  simpl. by rewrite IH.
Qed.

Lemma rotate_y sh pos col :
  rotate 1 (mkTetromino sh pos col) = Ok (mkTetromino (quarter_turn_y <$> sh) pos col).
Proof. unfold rotate. simpl. by rewrite rotate_shape_y. Qed.

Lemma quarter_turn_y_four (sh : list Offset) :
  quarter_turn_y <$> (quarter_turn_y <$> (quarter_turn_y <$> (quarter_turn_y <$> sh)))
  = sh.
Proof.
  rewrite <- !list_fmap_compose.
  rewrite <- (list_fmap_id sh) at 2. apply list_fmap_ext.
  intros _ [[x y] z] _. simpl. f_equal; [f_equal|]; lia.
Qed.

(** C9: four successive Y-axis rotations, each replacing every offset
    (x,y,z) by (-z,y,x), give back exactly the original piece (same offset
    list, in the same order); hence three rotations undo one rotation, on
    either side. *)
Theorem rotate_y_four_times (t : Tetromino) :
  exists t1 t2 t3,
    rotate 1 t = Ok t1 /\ rotate 1 t1 = Ok t2 /\ rotate 1 t2 = Ok t3 /\
    rotate 1 t3 = Ok t /\
    shape t1 = quarter_turn_y <$> shape t /\
    rotate_times 4 1 t = Ok t /\
    rotate_times 3 1 t1 = Ok t /\
    rotate_times 3 1 t = Ok t3.
Proof.
  destruct t as [sh pos col].
  pose proof (quarter_turn_y_four sh) as H4.
  exists (mkTetromino (quarter_turn_y <$> sh) pos col),
         (mkTetromino (quarter_turn_y <$> (quarter_turn_y <$> sh)) pos col),
         (mkTetromino
            (quarter_turn_y <$> (quarter_turn_y <$> (quarter_turn_y <$> sh))) pos col).
  cbn [rotate_times]. rewrite !rotate_y. cbn [mbind result_bind].
  rewrite !rotate_y. cbn [mbind result_bind]. rewrite !rotate_y.
  cbn [mbind result_bind]. rewrite !rotate_y. rewrite H4. done.
Qed.

(** ** Collision *)

Ltac grid_size :=
  change GRID_SIZE_0 with 8 in *; change GRID_SIZE_1 with 20 in *;
  change GRID_SIZE_2 with 8 in *.

Lemma grid_cell_in_bounds g x y z :
  in_bounds (x, y, z) ->
  grid_cell g (x, y, z) = cell_at g (Z.to_nat x) (Z.to_nat y) (Z.to_nat z).
Proof.
  intros (Hx & Hy & Hz). unfold grid_cell.
  rewrite bool_decide_eq_true_2; [done|lia].
Qed.

Lemma in_bounds_unfold x y z :
  in_bounds (x, y, z) <-> 0 <= x < 8 /\ 0 <= y < 20 /\ 0 <= z < 8.
Proof. done. Qed.

Lemma collision_scan_cons g pos o sh :
  grid_wf g ->
  collision_scan g pos (o :: sh) =
  if decide (in_bounds (absolute_cell pos o)) then
    match grid_cell g (absolute_cell pos o) with
    | Some _ => Ok true
    | None => collision_scan g pos sh
    end
  else Ok true.
Proof.
  intros Hg. destruct pos as [[px py] pz], o as [[ox oy] oz].
  unfold absolute_cell. cbn [collision_scan fst snd]. grid_size.
  destruct (decide _) as [Hin|Hout].
  - rewrite grid_cell_in_bounds by done.
    apply in_bounds_unfold in Hin as (Hx & Hy & Hz). grid_size.
    destruct (Z.ltb_spec (px + ox) 0); [lia|].
    destruct (Z.geb_spec (px + ox) 8); [lia|].
    destruct (Z.ltb_spec (py + oy) 0); [lia|].
    destruct (Z.geb_spec (py + oy) 20); [lia|].
    destruct (Z.ltb_spec (pz + oz) 0); [lia|].
    destruct (Z.geb_spec (pz + oz) 8); [lia|].
    cbn [orb]. by rewrite cell_get_ok.
  - rewrite in_bounds_unfold in Hout.
    destruct (Z.ltb_spec (px + ox) 0); [done|].
    destruct (Z.geb_spec (px + ox) 8); [done|].
    destruct (Z.ltb_spec (py + oy) 0); [done|].
    destruct (Z.geb_spec (py + oy) 20); [done|].
    destruct (Z.ltb_spec (pz + oz) 0); [done|].
    destruct (Z.geb_spec (pz + oz) 8); [done|].
    lia.
Qed.

Lemma collision_scan_spec g pos sh :
  grid_wf g ->
  exists b,
    collision_scan g pos sh = Ok b /\
    (b = true <->
     exists o, o ∈ sh /\
       (~ in_bounds (absolute_cell pos o) \/ grid_cell g (absolute_cell pos o) <> None)).
Proof.
  intros Hg. induction sh as [|o sh IH].
  - exists false. split; [done|]. split; [done|].
    intros (o & Ho & _). by apply elem_of_nil in Ho.
  - destruct IH as (b & Hb & Hiff). rewrite collision_scan_cons by done.
    destruct (decide _) as [Hin|Hout].
    + destruct (grid_cell g (absolute_cell pos o)) as [col|] eqn:Hc.
      * exists true. split; [done|]. split; [|done]. intros _.
        exists o. split; [apply list_elem_of_here|]. right. by rewrite Hc.
      * exists b. split; [done|]. rewrite Hiff. split.
        -- intros (o' & Ho & H'). exists o'. split; [by apply list_elem_of_further|done].
        -- intros (o' & Ho & H'). apply elem_of_cons in Ho as [->|Ho].
           ++ destruct H' as [H'|H']; done.
           ++ by exists o'.
    + exists true. split; [done|]. split; [|done]. intros _.
      exists o. split; [apply list_elem_of_here|]. by left.
Qed.

(** C1: for every piece and every anchor position, on a grid of the
    playfield's dimensions, [check_collision] returns true iff some absolute
    cell (anchor + offset) of the current piece lies outside
    [0,8) x [0,20) x [0,8) or holds a colour already, and false exactly when
    every such cell is in bounds and empty. *)
Theorem check_collision_iff (s : GameState) (p : Tetromino) (pos : Z * Z * Z) :
  grid_wf (grid s) ->
  current_piece s = Some p ->
  exists b,
    check_collision s pos = Ok b /\
    (b = true <->
     exists o, o ∈ shape p /\
       (~ in_bounds (absolute_cell pos o) \/
        grid_cell (grid s) (absolute_cell pos o) <> None)) /\
    (b = false <->
     forall o, o ∈ shape p ->
       in_bounds (absolute_cell pos o) /\
       grid_cell (grid s) (absolute_cell pos o) = None).
Proof.
  intros Hg Hp.
  destruct (collision_scan_spec (grid s) pos (shape p) Hg) as (b & Hb & Hiff).
  exists b. split; [|split; [done|]].
  - unfold check_collision, the_current_piece. rewrite Hp. done.
  - split.
    + intros -> o Ho.
      destruct (decide (in_bounds (absolute_cell pos o))) as [Hin|Hout].
      * split; [done|].
        destruct (grid_cell (grid s) (absolute_cell pos o)) eqn:Hc; [|done].
        assert (false = true); [|done].
        apply Hiff. exists o. split; [done|]. right. by rewrite Hc.
      * assert (false = true); [|done].
        apply Hiff. exists o. split; [done|]. by left.
    + intros Hall. destruct b; [|done].
      destruct (proj1 Hiff eq_refl) as (o & Ho & H').
      destruct (Hall o Ho) as [Hin Hc]. destruct H' as [H'|H']; done.
Qed.

(** ** Locking *)

Lemma cell_set_grid_cell g x y z v :
  grid_wf g -> in_bounds (x, y, z) ->
  exists g',
    cell_set g x y z v = Ok g' /\ grid_wf g' /\
    forall c, grid_cell g' c = if bool_decide (c = (x, y, z)) then v else grid_cell g c.
Proof.
  intros Hg Hin. pose proof Hin as (Hx & Hy & Hz). grid_size.
  destruct (cell_set_ok g x y z v Hg Hx Hy Hz) as (g' & Hset & Hwf & Hat).
  exists g'. split; [done|]. split; [done|].
  intros [[x' y'] z']. unfold grid_cell.
  destruct (bool_decide (0 <= x' /\ 0 <= y' /\ 0 <= z')) eqn:Hnn.
  - apply bool_decide_eq_true_1 in Hnn. rewrite Hat.
    destruct (decide ((x', y', z') = (x, y, z))) as [Heq|Hne].
    + injection Heq as -> -> ->.
      rewrite !bool_decide_eq_true_2; done.
    + rewrite (bool_decide_eq_false_2 _ Hne).
      rewrite bool_decide_eq_false_2; [done|].
      intros (H1 & H2 & H3). apply Hne. f_equal; [f_equal|]; lia.
  - apply bool_decide_eq_false_1 in Hnn.
    rewrite bool_decide_eq_false_2; [done|].
    intros [= -> -> ->]. apply Hnn. lia.
Qed.

Lemma lock_cell_spec pos col o g :
  grid_wf g ->
  exists g',
    lock_cell pos col o g = Ok g' /\ grid_wf g' /\
    forall c,
      grid_cell g' c =
      if bool_decide (c = absolute_cell pos o /\ in_bounds c)
      then Some col else grid_cell g c.
Proof.
  intros Hg. destruct pos as [[px py] pz], o as [[ox oy] oz].
  unfold lock_cell, absolute_cell. cbn [fst snd].
  destruct (decide (in_bounds (px + ox, py + oy, pz + oz))) as [Hin|Hout].
  - pose proof Hin as (Hx & Hy & Hz). grid_size.
    destruct (cell_set_grid_cell g _ _ _ (Some col) Hg Hin) as (g' & Hset & Hwf & Hc).
    exists g'. split; [|split; [done|]].
    + rewrite <- Hset.
      destruct (Z.leb_spec 0 (px + ox)); [|lia].
      destruct (Z.ltb_spec (px + ox) 8); [|lia].
      destruct (Z.leb_spec 0 (py + oy)); [|lia].
      destruct (Z.ltb_spec (py + oy) 20); [|lia].
      destruct (Z.leb_spec 0 (pz + oz)); [|lia].
      destruct (Z.ltb_spec (pz + oz) 8); [|lia]. done.
    + intros c. rewrite Hc.
      destruct (decide (c = (px + ox, py + oy, pz + oz))) as [->|Hne].
      * rewrite !bool_decide_eq_true_2; done.
      * rewrite !bool_decide_eq_false_2; [done| |done]. by intros [? _].
  - exists g. split; [|split; [done|]].
    + rewrite in_bounds_unfold in Hout. grid_size.
      destruct (Z.leb_spec 0 (px + ox)); [|by cbn].
      destruct (Z.ltb_spec (px + ox) 8); [|by cbn].
      destruct (Z.leb_spec 0 (py + oy)); [|by cbn].
      destruct (Z.ltb_spec (py + oy) 20); [|by cbn].
      destruct (Z.leb_spec 0 (pz + oz)); [|by cbn].
      destruct (Z.ltb_spec (pz + oz) 8); [|by cbn]. lia.
    + intros c. rewrite bool_decide_eq_false_2; [done|].
      intros [-> Hin]. done.
Qed.

Lemma lock_loop_spec pos col sh g :
  grid_wf g ->
  exists g',
    for_each sh (lock_cell pos col) g = Ok g' /\ grid_wf g' /\
    forall c,
      grid_cell g' c =
      if bool_decide (c ∈ (absolute_cell pos <$> sh) /\ in_bounds c)
      then Some col else grid_cell g c.
Proof.
  revert g. induction sh as [|o sh IH]; intros g Hg.
  - exists g. split; [done|]. split; [done|]. intros c.
    rewrite bool_decide_eq_false_2; [done|]. intros [Hc _]. by apply elem_of_nil in Hc.
  - destruct (lock_cell_spec pos col o g Hg) as (g1 & H1 & Hwf1 & Hc1).
    destruct (IH g1 Hwf1) as (g' & H' & Hwf' & Hc').
    exists g'. split; [|split; [done|]].
    + cbn [for_each]. rewrite H1. done.
    + intros c. rewrite Hc', Hc1. rewrite fmap_cons.
      destruct (decide (c ∈ (absolute_cell pos <$> sh) /\ in_bounds c)) as [[Hc Hin]|Hn].
      * rewrite !bool_decide_eq_true_2; [done| |done].
        split; [by apply list_elem_of_further|done].
      * rewrite (bool_decide_eq_false_2 _ Hn).
        destruct (decide (c = absolute_cell pos o /\ in_bounds c)) as [[-> Hin]|Hn'].
        -- rewrite !bool_decide_eq_true_2; [done| |done].
           split; [apply list_elem_of_here|done].
        -- rewrite !bool_decide_eq_false_2; [done| |done].
           intros [Hc Hin]. apply elem_of_cons in Hc as [->|Hc]; [by apply Hn'|by apply Hn].
Qed.

Lemma grid_cell_out_of_bounds g c :
  grid_wf g -> ~ in_bounds c -> grid_cell g c = None.
Proof.
  intros Hg Hout. destruct c as [[x y] z]. unfold grid_cell.
  destruct (bool_decide (0 <= x /\ 0 <= y /\ 0 <= z)) eqn:Hnn; [|done].
  apply bool_decide_eq_true_1 in Hnn. rewrite in_bounds_unfold in Hout.
  unfold cell_at.
  destruct (g !! Z.to_nat x) as [plane|] eqn:Hp; [|done].
  destruct (plane !! Z.to_nat y) as [row|] eqn:Hr; [|done].
  destruct (row !! Z.to_nat z) as [cell|] eqn:Hc; [|done].
  exfalso. apply Hout.
  pose proof (lookup_lt_Some _ _ _ Hp) as Lx.
  pose proof (lookup_lt_Some _ _ _ Hr) as Ly.
  pose proof (lookup_lt_Some _ _ _ Hc) as Lz.
  destruct (grid_wf_plane _ _ _ Hg Hp) as [Lp _].
  pose proof (grid_wf_row _ _ _ _ _ Hg Hp Hr) as Lr.
  destruct Hg as [Lg _]. change (Z.to_nat GRID_SIZE_0) with 8%nat in Lg. lia.
Qed.

(** C10: on a grid of the playfield's dimensions, locking never raises,
    whatever the piece's position; afterwards (before layer clearing) a grid
    cell holds the piece's colour if it is one of the piece's cells and in
    bounds, and holds what it held before otherwise; cells of the piece
    outside the grid are skipped. *)
Theorem lock_cells_frame (g : Grid) (p : Tetromino) :
  grid_wf g ->
  exists g',
    lock_cells g p = Ok g' /\ grid_wf g' /\
    (forall c,
       grid_cell g' c =
       if bool_decide (c ∈ piece_cells p /\ in_bounds c)
       then Some (color p) else grid_cell g c) /\
    (forall c, c ∈ piece_cells p -> in_bounds c -> grid_cell g' c = Some (color p)) /\
    (forall c, c ∉ piece_cells p -> grid_cell g' c = grid_cell g c) /\
    (forall c, ~ in_bounds c -> grid_cell g' c = None).
Proof.
  intros Hg.
  destruct (lock_loop_spec (position p) (color p) (shape p) g Hg) as (g' & H' & Hwf & Hc).
  exists g'. split; [done|]. split; [done|]. split; [done|]. split; [|split].
  - intros c Hin Hb. rewrite Hc. rewrite bool_decide_eq_true_2; done.
  - intros c Hn. rewrite Hc. rewrite bool_decide_eq_false_2; [done|]. by intros [? _].
  - intros c Hout. by apply grid_cell_out_of_bounds.
Qed.

(** ** Layer clearing *)

Lemma cell_at_outside g x y z :
  grid_wf g -> ~ (x < 8 /\ y < 20 /\ z < 8)%nat -> cell_at g x y z = None.
Proof.
  intros Hg Hout. unfold cell_at.
  destruct (g !! x) as [plane|] eqn:Hp; [|done].
  destruct (plane !! y) as [row|] eqn:Hr; [|done].
  destruct (row !! z) as [cell|] eqn:Hc; [|done].
  exfalso. apply Hout.
  pose proof (lookup_lt_Some _ _ _ Hp) as Lx.
  pose proof (lookup_lt_Some _ _ _ Hr) as Ly.
  pose proof (lookup_lt_Some _ _ _ Hc) as Lz.
  destruct (grid_wf_plane _ _ _ Hg Hp) as [Lp _].
  pose proof (grid_wf_row _ _ _ _ _ Hg Hp Hr) as Lr.
  destruct Hg as [Lg _]. change (Z.to_nat GRID_SIZE_0) with 8%nat in Lg. lia.
Qed.

(** A loop invariant indexed by the iterations done so far. *)
Lemma for_each_invariant {A S} (I : list A -> S -> Prop) (body : A -> S -> result S)
    (l : list A) (s : S) :
  I [] s ->
  (forall done i rest s', l = done ++ i :: rest -> I done s' ->
     exists s'', body i s' = Ok s'' /\ I (done ++ [i]) s'') ->
  exists s', for_each l body s = Ok s' /\ I l s'.
Proof.
  intros H0 Hstep.
  assert (Hgen : forall rest done s0, l = done ++ rest -> I done s0 ->
            exists s', for_each rest body s0 = Ok s' /\ I l s').
  { induction rest as [|i rest IH]; intros done s0 Hl HI.
    - exists s0. split; [done|]. by rewrite Hl, app_nil_r.
    - destruct (Hstep done i rest s0 Hl HI) as (s1 & Hb & HI1).
      destruct (IH (done ++ [i]) s1) as (s' & Hf & HI'); [by rewrite <- app_assoc|done|].
      exists s'. split; [|done]. cbn [for_each]. rewrite Hb. done. }
  exact (Hgen l [] s eq_refl H0).
Qed.

Lemma copy_cell_down_spec move_y x z g :
  grid_wf g -> (move_y < 19)%nat -> (x < 8)%nat -> (z < 8)%nat ->
  exists g',
    copy_cell_down move_y x z g = Ok g' /\ grid_wf g' /\
    forall x' y' z',
      cell_at g' x' y' z' =
      if bool_decide (x' = x /\ y' = move_y /\ z' = z)
      then cell_at g x (move_y + 1) z else cell_at g x' y' z'.
Proof.
  intros Hg Hy Hx Hz. unfold copy_cell_down.
  rewrite cell_get_ok by (done || lia). cbn [mbind result_bind].
  destruct (cell_set_ok g (Z.of_nat x) (Z.of_nat move_y) (Z.of_nat z)
              (cell_at g (Z.to_nat (Z.of_nat x)) (Z.to_nat (Z.of_nat move_y + 1))
                 (Z.to_nat (Z.of_nat z))) Hg)
    as (g' & Hset & Hwf & Hat); [lia..|].
  exists g'. split; [done|]. split; [done|].
  intros x' y' z'. rewrite Hat. rewrite !Nat2Z.id.
  replace (Z.to_nat (Z.of_nat move_y + 1)) with (move_y + 1)%nat by lia. done.
Qed.

Lemma shift_layer_down_spec move_y g :
  grid_wf g -> (move_y < 19)%nat ->
  exists g',
    shift_layer_down move_y g = Ok g' /\ grid_wf g' /\
    forall x' y' z',
      cell_at g' x' y' z' =
      if bool_decide (y' = move_y) then cell_at g x' (move_y + 1) z'
      else cell_at g x' y' z'.
Proof.
  intros Hg Hy. unfold shift_layer_down.
  change (Z.to_nat GRID_SIZE_0) with 8%nat. change (Z.to_nat GRID_SIZE_2) with 8%nat.
  destruct (for_each_invariant
    (fun done g' => grid_wf g' /\ forall x' y' z',
       cell_at g' x' y' z' =
       if bool_decide (x' ∈ done /\ y' = move_y /\ (z' < 8)%nat)
       then cell_at g x' (move_y + 1) z' else cell_at g x' y' z')
    (fun x => for_each (range 0 8) (fun z => copy_cell_down move_y x z))
    (range 0 8) g) as (g' & Hloop & Hwf & Hat).
  - split; [done|]. intros x' y' z'.
    rewrite bool_decide_eq_false_2; [done|]. intros (Hx & _). by apply elem_of_nil in Hx.
  - intros done x rest g1 Hl (Hwf1 & Hat1).
    assert (Hx : (x < 8)%nat).
    { assert (Hin : x ∈ range 0 8) by (rewrite Hl; set_solver).
      apply elem_of_seq in Hin. lia. }
    assert (Hnd : x ∉ done).
    { pose proof (NoDup_seq 0 (8 - 0)) as Hnd. fold (range 0 8) in Hnd.
      rewrite Hl in Hnd. apply NoDup_app in Hnd as (_ & Hnd & _).
      intros Hd. apply (Hnd x Hd). apply list_elem_of_here. }
    destruct (for_each_invariant
      (fun dz g' => grid_wf g' /\ forall x' y' z',
         cell_at g' x' y' z' =
         if bool_decide (x' = x /\ y' = move_y /\ z' ∈ dz)
         then cell_at g1 x' (move_y + 1) z' else cell_at g1 x' y' z')
      (fun z => copy_cell_down move_y x z) (range 0 8) g1)
      as (g2 & Hloop2 & Hwf2 & Hat2).
    + split; [done|]. intros x' y' z'.
      rewrite bool_decide_eq_false_2; [done|]. intros (_ & _ & Hz). by apply elem_of_nil in Hz.
    + intros dz z restz g3 Hlz (Hwf3 & Hat3).
      assert (Hz : (z < 8)%nat).
      { assert (Hin : z ∈ range 0 8) by (rewrite Hlz; set_solver).
        apply elem_of_seq in Hin. lia. }
      destruct (copy_cell_down_spec move_y x z g3 Hwf3 Hy Hx Hz) as (g4 & Hc & Hwf4 & Hat4).
      exists g4. split; [done|]. split; [done|].
      intros x' y' z'. rewrite Hat4, !Hat3.
      destruct (decide (x' = x /\ y' = move_y /\ z' = z)) as [(-> & -> & ->)|Hne].
      * rewrite (bool_decide_eq_true_2 (x = x /\ move_y = move_y /\ z = z)) by done.
        rewrite (bool_decide_eq_false_2 (x = x /\ (move_y + 1)%nat = move_y /\ _)) by lia.
        rewrite bool_decide_eq_true_2; [done|]. split; [done|]. split; [done|]. set_solver.
      * rewrite (bool_decide_eq_false_2 _ Hne).
        destruct (decide (x' = x /\ y' = move_y /\ z' ∈ dz)) as [Hd|Hd].
        -- rewrite !bool_decide_eq_true_2; [done| |done].
           destruct Hd as (? & ? & ?). repeat split; [done..|]. set_solver.
        -- rewrite !bool_decide_eq_false_2; [done| |done].
           intros (? & ? & Hz'). apply elem_of_app in Hz' as [Hz'|Hz']; [by apply Hd|].
           apply list_elem_of_singleton in Hz'. by apply Hne.
    + exists g2. split; [done|]. split; [done|].
      intros x' y' z'. rewrite Hat2, !Hat1.
      destruct (decide (x' = x /\ y' = move_y /\ z' ∈ range 0 8)) as [(-> & -> & Hz)|Hne].
      * rewrite (bool_decide_eq_true_2 (x = x /\ move_y = move_y /\ _)) by done.
        rewrite (bool_decide_eq_false_2 (x ∈ done /\ _)) by (by intros [? _]).
        apply elem_of_seq in Hz.
        rewrite bool_decide_eq_true_2; [done|]. split; [set_solver|]. split; [done|lia].
      * rewrite (bool_decide_eq_false_2 _ Hne).
        destruct (decide (x' ∈ done /\ y' = move_y /\ (z' < 8)%nat)) as [Hd|Hd].
        -- rewrite !bool_decide_eq_true_2; [done| |done].
           destruct Hd as (? & ? & ?). repeat split; [set_solver|done..].
        -- rewrite !bool_decide_eq_false_2; [done| |done].
           intros (Hx' & ? & Hz'). apply elem_of_app in Hx' as [Hx'|Hx']; [by apply Hd|].
           apply list_elem_of_singleton in Hx'. apply Hne. split; [done|]. split; [done|].
           apply elem_of_seq. lia.
  - exists g'. split; [done|]. split; [done|].
    intros x' y' z'. rewrite Hat.
    destruct (decide (y' = move_y)) as [->|Hne].
    + rewrite (bool_decide_eq_true_2 (move_y = move_y)) by done.
      destruct (decide (x' < 8 /\ z' < 8)%nat) as [[Hx Hz]|Hout].
      * rewrite bool_decide_eq_true_2; [done|]. split; [|done]. apply elem_of_seq. lia.
      * rewrite bool_decide_eq_false_2.
        -- rewrite !cell_at_outside; [done|done|lia|done|lia].
        -- intros (Hx & _ & Hz). apply elem_of_seq in Hx. lia.
    + rewrite !bool_decide_eq_false_2; [done|done|]. by intros (_ & ? & _).
Qed.

Lemma shift_layers_down_spec y g :
  grid_wf g -> (y < 20)%nat ->
  exists g',
    shift_layers_down y g = Ok g' /\ grid_wf g' /\
    forall x' y' z',
      cell_at g' x' y' z' =
      if bool_decide (y <= y' < 19)%nat then cell_at g x' (y' + 1) z'
      else cell_at g x' y' z'.
Proof.
  intros Hg Hy. unfold shift_layers_down.
  change (Z.to_nat (GRID_SIZE_1 - 1)) with 19%nat.
  destruct (for_each_invariant
    (fun done g' => grid_wf g' /\ forall x' y' z',
       cell_at g' x' y' z' =
       if bool_decide (y' ∈ done) then cell_at g x' (y' + 1) z'
       else cell_at g x' y' z')
    shift_layer_down (range y 19) g) as (g' & Hloop & Hwf & Hat).
  - split; [done|]. intros x' y' z'.
    rewrite bool_decide_eq_false_2; [done|]. apply not_elem_of_nil.
  - intros done my rest g1 Hl (Hwf1 & Hat1).
    assert (Hmy : (y <= my < 19)%nat).
    { assert (Hin : my ∈ range y 19) by (rewrite Hl; set_solver).
      apply elem_of_seq in Hin. lia. }
    assert (Hnext : (my + 1)%nat ∉ done).
    { intros Hd. apply list_elem_of_lookup in Hd as [i Hi].
      assert (Hi' : range y 19 !! i = Some (my + 1)%nat).
      { rewrite Hl. by apply lookup_app_l_Some. }
      assert (Hm : range y 19 !! length done = Some my).
      { rewrite Hl. by rewrite list_lookup_middle. }
      unfold range in Hi', Hm.
      apply lookup_seq in Hi' as [Hi' _]. apply lookup_seq in Hm as [Hm _].
      apply lookup_lt_Some in Hi. lia. }
    destruct (shift_layer_down_spec my g1 Hwf1) as (g2 & Hs & Hwf2 & Hat2); [lia|].
    exists g2. split; [done|]. split; [done|].
    intros x' y' z'. rewrite Hat2, !Hat1.
    destruct (decide (y' = my)) as [->|Hne].
    + rewrite (bool_decide_eq_true_2 (my = my)) by done.
      rewrite (bool_decide_eq_false_2 _ Hnext).
      rewrite bool_decide_eq_true_2; [done|]. set_solver.
    + rewrite (bool_decide_eq_false_2 _ Hne).
      destruct (decide (y' ∈ done)) as [Hd|Hd].
      * rewrite !bool_decide_eq_true_2; [done| |done]. set_solver.
      * rewrite !bool_decide_eq_false_2; [done| |done]. set_solver.
  - exists g'. split; [done|]. split; [done|].
    intros x' y' z'. rewrite Hat. unfold range.
    destruct (decide (y <= y' < 19)%nat) as [Hin|Hout].
    + rewrite !bool_decide_eq_true_2; [done|done|]. apply elem_of_seq. lia.
    + rewrite !bool_decide_eq_false_2; [done|done|]. rewrite elem_of_seq. lia.
Qed.

Lemma clear_top_layer_spec g :
  grid_wf g ->
  exists g',
    clear_top_layer g = Ok g' /\ grid_wf g' /\
    forall x' y' z',
      cell_at g' x' y' z' =
      if bool_decide (y' = 19%nat) then None else cell_at g x' y' z'.
Proof.
  intros Hg. unfold clear_top_layer.
  change (Z.to_nat GRID_SIZE_0) with 8%nat. change (Z.to_nat GRID_SIZE_2) with 8%nat.
  change (GRID_SIZE_1 - 1) with 19.
  destruct (for_each_invariant
    (fun done g' => grid_wf g' /\ forall x' y' z',
       cell_at g' x' y' z' =
       if bool_decide (x' ∈ done /\ y' = 19%nat /\ (z' < 8)%nat)
       then None else cell_at g x' y' z')
    (fun x => for_each (range 0 8) (fun z g' =>
       cell_set g' (Z.of_nat x) 19 (Z.of_nat z) None))
    (range 0 8) g) as (g' & Hloop & Hwf & Hat).
  - split; [done|]. intros x' y' z'.
    rewrite bool_decide_eq_false_2; [done|]. intros (Hx & _). by apply elem_of_nil in Hx.
  - intros done x rest g1 Hl (Hwf1 & Hat1).
    assert (Hx : (x < 8)%nat).
    { assert (Hin : x ∈ range 0 8) by (rewrite Hl; set_solver).
      apply elem_of_seq in Hin. lia. }
    destruct (for_each_invariant
      (fun dz g' => grid_wf g' /\ forall x' y' z',
         cell_at g' x' y' z' =
         if bool_decide (x' = x /\ y' = 19%nat /\ z' ∈ dz)
         then None else cell_at g1 x' y' z')
      (fun z g' => cell_set g' (Z.of_nat x) 19 (Z.of_nat z) None) (range 0 8) g1)
      as (g2 & Hloop2 & Hwf2 & Hat2).
    + split; [done|]. intros x' y' z'.
      rewrite bool_decide_eq_false_2; [done|]. intros (_ & _ & Hz). by apply elem_of_nil in Hz.
    + intros dz z restz g3 Hlz (Hwf3 & Hat3).
      assert (Hz : (z < 8)%nat).
      { assert (Hin : z ∈ range 0 8) by (rewrite Hlz; set_solver).
        apply elem_of_seq in Hin. lia. }
      destruct (cell_set_ok g3 (Z.of_nat x) 19 (Z.of_nat z) None Hwf3)
        as (g4 & Hc & Hwf4 & Hat4); [lia..|].
      exists g4. split; [done|]. split; [done|].
      intros x' y' z'. rewrite Hat4, !Hat3. rewrite !Nat2Z.id.
      change (Z.to_nat 19) with 19%nat.
      destruct (decide (x' = x /\ y' = 19%nat /\ z' = z)) as [(-> & -> & ->)|Hne].
      * rewrite (bool_decide_eq_true_2 (x = x /\ 19%nat = 19%nat /\ z = z)) by done.
        rewrite bool_decide_eq_true_2; [done|]. split; [done|]. split; [done|]. set_solver.
      * rewrite (bool_decide_eq_false_2 _ Hne).
        destruct (decide (x' = x /\ y' = 19%nat /\ z' ∈ dz)) as [Hd|Hd].
        -- rewrite !bool_decide_eq_true_2; [done| |done].
           destruct Hd as (? & ? & ?). repeat split; [done..|]. set_solver.
        -- rewrite !bool_decide_eq_false_2; [done| |done].
           intros (? & ? & Hz'). apply elem_of_app in Hz' as [Hz'|Hz']; [by apply Hd|].
           apply list_elem_of_singleton in Hz'. by apply Hne.
    + exists g2. split; [done|]. split; [done|].
      intros x' y' z'. rewrite Hat2, !Hat1.
      destruct (decide (x' = x /\ y' = 19%nat /\ z' ∈ range 0 8)) as [(-> & -> & Hz)|Hne].
      * rewrite (bool_decide_eq_true_2 (x = x /\ 19%nat = 19%nat /\ _)) by done.
        apply elem_of_seq in Hz.
        rewrite bool_decide_eq_true_2; [done|]. split; [set_solver|]. split; [done|lia].
      * rewrite (bool_decide_eq_false_2 _ Hne).
        destruct (decide (x' ∈ done /\ y' = 19%nat /\ (z' < 8)%nat)) as [Hd|Hd].
        -- rewrite !bool_decide_eq_true_2; [done| |done].
           destruct Hd as (? & ? & ?). repeat split; [set_solver|done..].
        -- rewrite !bool_decide_eq_false_2; [done| |done].
           intros (Hx' & ? & Hz'). apply elem_of_app in Hx' as [Hx'|Hx']; [by apply Hd|].
           apply list_elem_of_singleton in Hx'. apply Hne. split; [done|]. split; [done|].
           apply elem_of_seq. lia.
  - exists g'. split; [done|]. split; [done|].
    intros x' y' z'. rewrite Hat.
    destruct (decide (y' = 19%nat)) as [->|Hne].
    + rewrite (bool_decide_eq_true_2 (19%nat = 19%nat)) by done.
      destruct (decide (x' < 8 /\ z' < 8)%nat) as [[Hx Hz]|Hout].
      * rewrite bool_decide_eq_true_2; [done|]. split; [|done]. apply elem_of_seq. lia.
      * rewrite bool_decide_eq_false_2.
        -- rewrite cell_at_outside; [done|done|lia].
        -- intros (Hx & _ & Hz). apply elem_of_seq in Hx. lia.
    + rewrite !bool_decide_eq_false_2; [done|done|]. by intros (_ & ? & _).
Qed.

(** Removing layer [y]: what the body of the [if layer_full] does. *)
Lemma remove_layer_spec y g :
  grid_wf g -> (y < 20)%nat ->
  exists g1 g2,
    shift_layers_down y g = Ok g1 /\ clear_top_layer g1 = Ok g2 /\ grid_wf g2 /\
    forall x' y' z',
      cell_at g2 x' y' z' =
      if bool_decide (y' < y)%nat then cell_at g x' y' z'
      else if bool_decide (y' < 19)%nat then cell_at g x' (y' + 1) z'
      else None.
Proof.
  intros Hg Hy.
  destruct (shift_layers_down_spec y g Hg Hy) as (g1 & H1 & Hwf1 & Hat1).
  destruct (clear_top_layer_spec g1 Hwf1) as (g2 & H2 & Hwf2 & Hat2).
  exists g1, g2. split; [done|]. split; [done|]. split; [done|].
  intros x' y' z'. rewrite Hat2, Hat1.
  repeat case_bool_decide; try done; try lia.
  apply cell_at_outside; [done|lia].
Qed.

Lemma forallb_fmap {A B} (f : A -> B) (p : B -> bool) (l : list A) :
  forallb p (f <$> l) = forallb (fun a => p (f a)) l.
Proof. induction l as [|a l IH]; [done|]. cbn. by rewrite IH. Qed.

Lemma row_full_spec g x y zs :
  grid_wf g -> (x < 8)%nat -> (y < 20)%nat -> Forall (fun z => z < 8)%nat zs ->
  row_full g x y zs = Ok (forallb (fun z => occupied (cell_at g x y z)) zs).
Proof.
  intros Hg Hx Hy Hzs. induction Hzs as [|z zs Hz _ IH]; [done|].
  cbn [row_full forallb]. rewrite cell_get_ok by (done || lia).
  rewrite !Nat2Z.id. cbn [mbind result_bind].
  destruct (cell_at g x y z); [|done]. by rewrite IH.
Qed.

Lemma seq_Forall_lt n : Forall (fun i => i < n)%nat (seq 0 n).
Proof. apply Forall_forall. intros i Hi. apply elem_of_seq in Hi. lia. Qed.

Lemma layer_full_from_spec g y xs :
  grid_wf g -> (y < 20)%nat -> Forall (fun x => x < 8)%nat xs ->
  layer_full_from g y xs =
  Ok (forallb (fun x => forallb (fun z => occupied (cell_at g x y z)) (seq 0 8)) xs).
Proof.
  intros Hg Hy Hxs. induction Hxs as [|x xs Hx _ IH]; [done|].
  cbn [layer_full_from forallb].
  change (range 0 (Z.to_nat GRID_SIZE_2)) with (seq 0 8).
  rewrite row_full_spec by (done || apply seq_Forall_lt).
  cbn [mbind result_bind].
  destruct (forallb _ (seq 0 8)); [|done]. by rewrite IH.
Qed.

Lemma layer_is_full_spec g y :
  grid_wf g -> (y < 20)%nat -> layer_is_full g y = Ok (layer_full (layer g y)).
Proof.
  intros Hg Hy. unfold layer_is_full.
  change (range 0 (Z.to_nat GRID_SIZE_0)) with (seq 0 8).
  rewrite layer_full_from_spec by (done || apply seq_Forall_lt).
  unfold layer_full, layer. rewrite forallb_fmap.
  f_equal; apply forallb_ext; intros x; by rewrite forallb_fmap.
Qed.

Lemma layer_full_iff g y :
  layer_full (layer g y) = true <->
  forall x z, (x < 8)%nat -> (z < 8)%nat -> cell_at g x y z <> None.
Proof.
  unfold layer_full, layer. rewrite forallb_fmap, forallb_forall. split.
  - intros Hall x z Hx Hz.
    assert (Hxin : In x (seq 0 8)) by (apply in_seq; lia).
    specialize (Hall x Hxin). rewrite forallb_fmap, forallb_forall in Hall.
    assert (Hzin : In z (seq 0 8)) by (apply in_seq; lia).
    specialize (Hall z Hzin). by destruct (cell_at g x y z).
  - intros Hall x Hx. rewrite forallb_fmap, forallb_forall. intros z Hz.
    apply in_seq in Hx, Hz. specialize (Hall x z). 
    destruct (cell_at g x y z); [done|]. exfalso. apply Hall; [lia..|done].
Qed.

Lemma layer_ext g1 y1 g2 y2 :
  (forall x z, cell_at g1 x y1 z = cell_at g2 x y2 z) -> layer g1 y1 = layer g2 y2.
Proof.
  intros Heq. unfold layer. apply list_fmap_ext. intros _ x _.
  apply list_fmap_ext. intros _ z _. apply Heq.
Qed.

Lemma layer_empty g y :
  (forall x z, cell_at g x y z = None) -> layer g y = empty_layer.
Proof.
  intros Heq. unfold layer, empty_layer.
  change (replicate 8 (replicate 8 (@None Color)))
    with ((fun _ : nat => (fun _ : nat => @None Color) <$> seq 0 8) <$> seq 0 8).
  apply list_fmap_ext. intros _ x _. apply list_fmap_ext. intros _ z _. apply Heq.
Qed.

Lemma empty_layer_not_full : layer_full empty_layer = false.
Proof. done. Qed.

Lemma filter_full_empty_layer :
  filter (fun l : list (list Cell) => layer_full l) [empty_layer] = [].
Proof. reflexivity. Qed.

Lemma filter_not_full_empty_layer :
  filter (fun l : list (list Cell) => ~ layer_full l) [empty_layer] = [empty_layer].
Proof. reflexivity. Qed.

Lemma length_layers g : length (layers g) = 20%nat.
Proof. unfold layers. by rewrite length_fmap, length_seq. Qed.

Lemma lookup_layers g y : (y < 20)%nat -> layers g !! y = Some (layer g y).
Proof.
  intros Hy. unfold layers. rewrite list_lookup_fmap, lookup_seq_lt by done. done.
Qed.

(** On the layers, removing layer [y] deletes the [y]-th layer and appends
    an empty one at the top. *)
Lemma remove_layer_layers y g :
  grid_wf g -> (y < 20)%nat ->
  exists g1 g2,
    shift_layers_down y g = Ok g1 /\ clear_top_layer g1 = Ok g2 /\ grid_wf g2 /\
    layers g2 = take y (layers g) ++ drop (S y) (layers g) ++ [empty_layer].
Proof.
  intros Hg Hy.
  destruct (remove_layer_spec y g Hg Hy) as (g1 & g2 & H1 & H2 & Hwf & Hat).
  exists g1, g2. split; [done|]. split; [done|]. split; [done|].
  apply list_eq. intros i.
  destruct (decide (i < 20)%nat) as [Hi|Hi].
  - rewrite lookup_layers by done.
    destruct (decide (i < y)%nat) as [Hlt|Hge].
    + rewrite lookup_app_l by (rewrite length_take, length_layers; lia).
      rewrite lookup_take_lt by done. rewrite lookup_layers by done.
      f_equal. apply layer_ext. intros x z. rewrite Hat.
      by rewrite bool_decide_eq_true_2.
    + rewrite lookup_app_r by (rewrite length_take, length_layers; lia).
      rewrite length_take, length_layers. replace (y `min` 20)%nat with y by lia.
      destruct (decide (i < 19)%nat) as [Hlt|Hge'].
      * rewrite lookup_app_l by (rewrite length_drop, length_layers; lia).
        rewrite lookup_drop. rewrite lookup_layers by lia.
        f_equal. apply layer_ext. intros x z. rewrite Hat.
        rewrite bool_decide_eq_false_2 by done.
        rewrite bool_decide_eq_true_2 by done. f_equal. lia.
      * rewrite lookup_app_r by (rewrite length_drop, length_layers; lia).
        rewrite length_drop, length_layers.
        replace (i - y - (20 - S y))%nat with 0%nat by lia. cbn.
        f_equal. apply layer_empty. intros x z. rewrite Hat.
        rewrite !bool_decide_eq_false_2; [done|lia..].
  - rewrite lookup_ge_None_2 by (rewrite length_layers; lia).
    symmetry. apply lookup_ge_None_2.
    rewrite !length_app, length_take, length_drop, length_layers. cbn. lia.
Qed.

Lemma count_full_le ls : (count_full ls <= length ls)%nat.
Proof. apply length_filter. Qed.

(** The [while] loop from height [y] on: the layers below [y] stay, the full
    ones among the others go, and as many empty layers arrive at the top;
    the counter grows by the number of layers removed. *)
Lemma clear_loop_spec fuel g y n :
  grid_wf g -> (y <= 20)%nat ->
  (20 - y + count_full (drop y (layers g)) < fuel)%nat ->
  exists g',
    clear_loop fuel g y n = Ok (g', (n + count_full (drop y (layers g)))%nat) /\
    grid_wf g' /\
    layers g' =
      take y (layers g)
      ++ filter (fun l => ~ layer_full l) (drop y (layers g))
      ++ replicate (count_full (drop y (layers g))) empty_layer.
Proof.
  revert g y n. induction fuel as [|fuel IH]; intros g y n Hg Hy Hfuel; [lia|].
  cbn [clear_loop]. change GRID_SIZE_1 with 20.
  destruct (Z.ltb_spec (Z.of_nat y) 20) as [Hlt|Hge].
  - assert (Hy' : (y < 20)%nat) by lia.
    rewrite layer_is_full_spec by done. cbn [mbind result_bind].
    pose proof (lookup_layers g y Hy') as Hl.
    rewrite (drop_S _ _ _ Hl) in Hfuel |- *.
    destruct (layer_full (layer g y)) eqn:Hfull.
    + destruct (remove_layer_layers y g Hg Hy') as (g1 & g2 & H1 & H2 & Hwf2 & Hls).
      rewrite H1. cbn [mbind result_bind]. rewrite H2. cbn [mbind result_bind].
      assert (Hdrop : drop y (layers g2) = drop (S y) (layers g) ++ [empty_layer]).
      { rewrite Hls. rewrite drop_app_length'; [done|].
        rewrite length_take, length_layers. lia. }
      assert (Htake : take y (layers g2) = take y (layers g)).
      { rewrite Hls. rewrite take_app_length'; [done|].
        rewrite length_take, length_layers. lia. }
      assert (Hcount : count_full (drop y (layers g2)) =
                       count_full (drop (S y) (layers g))).
      { rewrite Hdrop. unfold count_full.
        rewrite filter_app, length_app, filter_full_empty_layer. cbn. lia. }
      unfold count_full in Hfuel |- *.
      rewrite filter_cons_True in Hfuel |- * by (cbv beta; rewrite Hfull; naive_solver).
      rewrite filter_cons_False by (cbv beta; rewrite Hfull; naive_solver).
      cbn [length] in Hfuel |- *.
      destruct (IH g2 y (n + 1)%nat Hwf2 Hy) as (g' & Hloop & Hwf' & Hls').
      { rewrite Hcount. unfold count_full. lia. }
      exists g'. split; [|split; [done|]].
      * rewrite Hloop, Hcount. unfold count_full. do 2 f_equal. lia.
      * rewrite Hls', Htake, Hcount, Hdrop. unfold count_full.
        rewrite filter_app, filter_not_full_empty_layer.
        rewrite <- !app_assoc. done.
    + destruct (IH g (y + 1)%nat n Hg) as (g' & Hloop & Hwf' & Hls'); [lia| |].
      { replace (y + 1)%nat with (S y) by lia. unfold count_full in Hfuel |- *.
        rewrite filter_cons_False in Hfuel by (cbv beta; rewrite Hfull; naive_solver). lia. }
      replace (y + 1)%nat with (S y) in * by lia.
      unfold count_full in Hloop, Hls' |- *.
      rewrite filter_cons_False by (cbv beta; rewrite Hfull; naive_solver).
      rewrite filter_cons_True by (cbv beta; rewrite Hfull; naive_solver).
      exists g'. split; [done|]. split; [done|].
      rewrite Hls'. rewrite (take_S_r _ _ _ Hl). by rewrite <- app_assoc.
  - assert (y = 20)%nat as -> by lia.
    rewrite drop_ge by (rewrite length_layers; lia).
    exists g. split; [|split; [done|]].
    + unfold count_full. rewrite filter_nil. cbn. do 2 f_equal. lia.
    + rewrite take_ge by (rewrite length_layers; lia).
      unfold count_full. rewrite !filter_nil. cbn. by rewrite ?app_nil_r.
Qed.

(** The loop always finishes within its bound, and what it computes. *)
Lemma clear_full_layers_terminates g :
  grid_wf g ->
  exists g',
    clear_full_layers g = Ok (g', count_full (layers g)) /\
    grid_wf g' /\
    layers g' =
      filter (fun l => ~ layer_full l) (layers g)
      ++ replicate (count_full (layers g)) empty_layer.
Proof.
  intros Hg. unfold clear_full_layers.
  change (2 * Z.to_nat GRID_SIZE_1 + 1)%nat with 41%nat.
  destruct (clear_loop_spec 41 g 0 0 Hg) as (g' & Hloop & Hwf & Hls); [lia| |].
  { rewrite drop_0. pose proof (count_full_le (layers g)) as Hc.
    rewrite length_layers in Hc. lia. }
  rewrite drop_0 in Hloop, Hls. exists g'. done.
Qed.

Lemma filter_fmap_comm {A B} (f : A -> B) (P : B -> Prop) `{!forall b, Decision (P b)}
    (l : list A) :
  filter P (f <$> l) = f <$> filter (fun a => P (f a)) l.
Proof.
  induction l as [|a l IH]; [done|].
  rewrite fmap_cons, !filter_cons. destruct (decide (P (f a))); by rewrite IH.
Qed.

Lemma filter_ext_elem {A} (P Q : A -> Prop) `{!forall a, Decision (P a)}
    `{!forall a, Decision (Q a)} (l : list A) :
  (forall a, a ∈ l -> P a <-> Q a) -> filter P l = filter Q l.
Proof.
  induction l as [|a l IH]; intros Heq; [done|].
  rewrite !filter_cons.
  assert (Ha : P a <-> Q a) by (apply Heq, list_elem_of_here).
  rewrite IH by (intros b Hb; apply Heq; by apply list_elem_of_further).
  destruct (decide (P a)), (decide (Q a)); tauto || done.
Qed.

Lemma count_full_layers g : count_full (layers g) = length (full_layers g).
Proof.
  unfold count_full, layers, full_layers.
  by rewrite filter_fmap_comm, length_fmap.
Qed.

Lemma not_full_layers g :
  filter (fun l => ~ layer_full l) (layers g) =
  layer g <$> filter (fun y => y ∉ full_layers g) (seq 0 20).
Proof.
  unfold layers. rewrite filter_fmap_comm. f_equal.
  apply filter_ext_elem. intros y Hy. unfold full_layers.
  rewrite list_elem_of_filter. tauto.
Qed.

(** C2: the clearing loop scans the layers from the bottom; it finds a layer
    full exactly when all its 8 x 8 cells are occupied; removing a full
    layer moves every layer above it down by one and leaves the top layer
    empty, and the loop then looks at the same height again, otherwise it
    goes one layer up; it ends with the count of the layers that were full.
    On a grid whose full layers are exactly 3 and 5 the count is 2; the
    layers below 3 stay, layer 4 arrives at 3, the layers above 5 arrive two
    lower, and the top two layers are empty. *)
Theorem clear_full_layers_3_5 (g : Grid) :
  grid_wf g ->
  full_layers g = [3; 5]%nat ->
  exists g',
    clear_full_layers g = Ok (g', 2%nat) /\ grid_wf g' /\
    (forall y, (y < 3)%nat -> layer g' y = layer g y) /\
    layer g' 3 = layer g 4 /\
    (forall y, (4 <= y < 18)%nat -> layer g' y = layer g (y + 2)) /\
    layer g' 18 = empty_layer /\ layer g' 19 = empty_layer /\
    layers g' =
      filter (fun l => ~ layer_full l) (layers g) ++ [empty_layer; empty_layer] /\
    (forall y, (y < 20)%nat ->
       exists b, layer_is_full g y = Ok b /\
         (b = true <->
          forall x z, (x < 8)%nat -> (z < 8)%nat -> cell_at g x y z <> None)) /\
    (forall fuel y n, (y < 20)%nat -> layer_full (layer g y) = true ->
       exists g1 g2,
         shift_layers_down y g = Ok g1 /\ clear_top_layer g1 = Ok g2 /\
         clear_loop (S fuel) g y n = clear_loop fuel g2 y (n + 1) /\
         layers g2 = take y (layers g) ++ drop (S y) (layers g) ++ [empty_layer]) /\
    (forall fuel y n, (y < 20)%nat -> layer_full (layer g y) = false ->
       clear_loop (S fuel) g y n = clear_loop fuel g (y + 1) n).
Proof.
  intros Hg Hfull.
  destruct (clear_full_layers_terminates g Hg) as (g' & Hrun & Hwf & Hls).
  rewrite count_full_layers, Hfull in Hrun, Hls. cbn [length replicate] in Hrun, Hls.
  assert (Hexp : layers g' =
    (layer g <$> (seq 0 3 ++ [4%nat] ++ seq 6 14)) ++ [empty_layer; empty_layer]).
  { rewrite Hls, not_full_layers, Hfull. done. }
  assert (Hlook : forall y l, (y < 20)%nat -> layers g' !! y = Some l -> layer g' y = l).
  { intros y l Hy Hl. rewrite lookup_layers in Hl by done. congruence. }
  exists g'. split; [done|]. split; [done|].
  split; [|split; [|split; [|split; [|split; [|split; [done|split; [|split]]]]]]].
  - intros y Hy. apply Hlook; [lia|]. rewrite Hexp.
    rewrite lookup_app_l by (cbn; lia). rewrite list_lookup_fmap.
    rewrite lookup_app_l by (cbn; lia). by rewrite lookup_seq_lt.
  - apply Hlook; [lia|]. by rewrite Hexp.
  - intros y Hy. apply Hlook; [lia|]. rewrite Hexp.
    rewrite lookup_app_l by (cbn; lia). rewrite list_lookup_fmap.
    rewrite lookup_app_r by (cbn; lia). rewrite lookup_app_r by (cbn; lia).
    rewrite length_seq. cbn [length]. rewrite lookup_seq_lt by lia.
    by replace (6 + (y - 3 - 1))%nat with (y + 2)%nat by lia.
  - apply Hlook; [lia|]. by rewrite Hexp.
  - apply Hlook; [lia|]. by rewrite Hexp.
  - intros y Hy. exists (layer_full (layer g y)).
    split; [by apply layer_is_full_spec|]. apply layer_full_iff.
  - intros fuel y n Hy Hf.
    destruct (remove_layer_layers y g Hg Hy) as (g1 & g2 & H1 & H2 & _ & Hls2).
    exists g1, g2. split; [done|]. split; [done|]. split; [|done].
    cbn [clear_loop]. change GRID_SIZE_1 with 20.
    destruct (Z.ltb_spec (Z.of_nat y) 20); [|lia].
    rewrite layer_is_full_spec by done. cbn [mbind result_bind].
    rewrite Hf, H1. cbn [mbind result_bind]. by rewrite H2.
  - intros fuel y n Hy Hf. cbn [clear_loop]. change GRID_SIZE_1 with 20.
    destruct (Z.ltb_spec (Z.of_nat y) 20); [|lia].
    rewrite layer_is_full_spec by done. cbn [mbind result_bind]. by rewrite Hf.
Qed.

(** ** The randomizer and spawning *)

Lemma counter_random_spec : @RandomSpec nat counter_random.
Proof.
  split.
  - intros r l. cbn.
    rewrite Permutation_app_comm. by rewrite take_drop.
  - intros r n Hn. cbn. apply Nat.mod_upper_bound. lia.
Qed.

Lemma py_getitem_nat {A} (l : list A) (i : nat) (a : A) :
  l !! i = Some a -> py_getitem l (Z.of_nat i) = Ok a.
Proof. intros Hl. apply py_getitem_ok; [lia|]. by rewrite Nat2Z.id. Qed.

Lemma py_pop_snoc {A} (l : list A) (a : A) : py_pop (l ++ [a]) = Ok (a, l).
Proof. unfold py_pop. by rewrite last_snoc, removelast_last. Qed.

Lemma py_pop_nil {A} : py_pop (@nil A) = Raise IndexError.
Proof. done. Qed.

Lemma list_snoc_inv {A} (l : list A) : l <> [] -> exists l' a, l = l' ++ [a].
Proof.
  intros Hl. destruct (exists_last Hl) as (l' & a & ->). by exists l', a.
Qed.

Section Properties.

Context `{!Random Rng, !RandomSpec Rng}.

Lemma Tetromino_init_ok (r : Rng) :
  exists t, Tetromino_init r = Ok (t, (randrange r 7).2) /\ position t = spawn_anchor.
Proof.
  unfold Tetromino_init. change (length SHAPES_3D) with 7%nat.
  pose proof (randrange_lt r 7 ltac:(lia)) as Hlt.
  destruct (randrange r 7) as [k r'] eqn:Hk. cbn [fst snd] in *.
  destruct (lookup_lt_is_Some_2 SHAPES_3D k) as [sh Hsh]; [done|].
  destruct (lookup_lt_is_Some_2 CYBER_COLORS k) as [col Hcol]; [done|].
  rewrite (py_getitem_nat _ _ _ Hsh). cbn [mbind result_bind].
  rewrite (py_getitem_nat _ _ _ Hcol). cbn [mbind result_bind].
  eexists. split; [done|]. done.
Qed.

Lemma clone_ok (r : Rng) (t : Tetromino) : clone r t = Ok (t, (randrange r 7).2).
Proof.
  unfold clone. destruct (Tetromino_init_ok r) as (t0 & -> & _).
  cbn. by destruct t.
Qed.

Lemma new_piece_ok (r : Rng) (k : nat) :
  (k < 7)%nat ->
  exists sh col,
    SHAPES_3D !! k = Some sh /\ CYBER_COLORS !! k = Some col /\
    new_piece r k = Ok (mkTetromino sh spawn_anchor col, (randrange r 7).2).
Proof.
  intros Hk. unfold new_piece.
  destruct (Tetromino_init_ok r) as (t0 & -> & Hpos). cbn [mbind result_bind].
  destruct (lookup_lt_is_Some_2 SHAPES_3D k) as [sh Hsh]; [done|].
  destruct (lookup_lt_is_Some_2 CYBER_COLORS k) as [col Hcol]; [done|].
  rewrite (py_getitem_nat _ _ _ Hsh). cbn [mbind result_bind].
  rewrite (py_getitem_nat _ _ _ Hcol). cbn [mbind result_bind].
  exists sh, col. by rewrite Hpos.
Qed.

Lemma refill_bag_nonempty (r : Rng) (bag : list nat) :
  bag <> [] -> refill_bag r bag = (bag, r).
Proof. by destruct bag. Qed.

Lemma refill_bag_empty (r : Rng) :
  refill_bag r [] = shuffle r (seq 0 7) /\ (refill_bag r []).1 ≡ₚ seq 0 7.
Proof. split; [done|]. apply shuffle_perm. Qed.

Lemma refill_bag_valid (r : Rng) (bag : list nat) :
  bag_valid bag ->
  bag_valid (refill_bag r bag).1 /\ (refill_bag r bag).1 <> [].
Proof.
  intros Hv. destruct bag as [|k bag].
  - destruct (refill_bag_empty r) as [_ Hp]. split.
    + unfold bag_valid. rewrite Hp. apply seq_Forall_lt.
    + intros Hnil. rewrite Hnil in Hp. by apply Permutation_nil_l in Hp.
  - by rewrite refill_bag_nonempty.
Qed.

(** Spawning in mid-game (a current and a queued piece exist): one index is
    popped, the queued piece becomes current, and the flag is raised iff it
    collides where it stands. *)
Lemma spawn_mid_game (r : Rng) (s : GameState) (c q : Tetromino) :
  grid_wf (grid s) -> bag_valid (piece_bag s) ->
  current_piece s = Some c -> next_piece s = Some q ->
  exists bag' k sh col b,
    (refill_bag r (piece_bag s)).1 = bag' ++ [k] /\
    SHAPES_3D !! k = Some sh /\ CYBER_COLORS !! k = Some col /\
    collision_scan (grid s) (position q) (shape q) = Ok b /\
    spawn_new_piece r s =
    Ok (mkGameState (grid s) (score s) (if b then true else game_over s)
          (last_piece s) (Some q) (Some (mkTetromino sh spawn_anchor col)) bag',
        (randrange (refill_bag r (piece_bag s)).2 7).2).
Proof.
  intros Hg Hbag Hc Hq. unfold spawn_new_piece.
  destruct (refill_bag_valid r _ Hbag) as [Hv Hne].
  destruct (refill_bag r (piece_bag s)) as [bag r1] eqn:Hrefill. cbn [fst snd] in *.
  destruct (list_snoc_inv bag Hne) as (bag' & k & ->).
  assert (Hk : (k < 7)%nat).
  { unfold bag_valid in Hv. rewrite Forall_app, Forall_singleton in Hv. apply Hv. }
  destruct (new_piece_ok r1 k Hk) as (sh & col & Hsh & Hcol & Hnew).
  destruct (collision_scan_spec (grid s) (position q) (shape q) Hg) as (b & Hb & _).
  exists bag', k, sh, col, b. split; [done|]. split; [done|]. split; [done|].
  split; [done|].
  rewrite Hc. rewrite py_pop_snoc. cbn [mbind result_bind].
  rewrite Hnew. cbn [mbind result_bind].
  unfold check_collision, the_current_piece. cbn. rewrite Hq. cbn. rewrite Hb. cbn.
  by destruct b.
Qed.

(** ** Scoring *)

Lemma scores_get (n : nat) :
  default (Z.of_nat n * 100) (scores !! n) =
  match n with
  | 1%nat => 100
  | 2%nat => 300
  | 3%nat => 500
  | 4%nat => 800
  | _ => Z.of_nat n * 100
  end.
Proof.
  destruct n as [|[|[|[|[|n]]]]]; try reflexivity.
  unfold scores. rewrite !lookup_insert_ne by lia. by rewrite lookup_empty.
Qed.

Lemma update_score_spec (sc : Z) (n cells : nat) :
  update_score sc n cells = sc + layer_bonus n + 10 * Z.of_nat cells.
Proof.
  unfold update_score. rewrite scores_get.
  destruct n as [|[|[|[|[|n]]]]]; cbn [Nat.ltb Nat.leb layer_bonus]; lia.
Qed.

(** Locking a piece in mid-game: every step succeeds, and the state that
    results. *)
Lemma lock_piece_and_clear_spec (r : Rng) (s : GameState) (p q : Tetromino) :
  grid_wf (grid s) -> bag_valid (piece_bag s) ->
  current_piece s = Some p -> next_piece s = Some q ->
  exists g1 g2 bag' k sh col b,
    lock_cells (grid s) p = Ok g1 /\ grid_wf g1 /\
    clear_full_layers g1 = Ok (g2, count_full (layers g1)) /\ grid_wf g2 /\
    (refill_bag (randrange r 7).2 (piece_bag s)).1 = bag' ++ [k] /\
    SHAPES_3D !! k = Some sh /\ CYBER_COLORS !! k = Some col /\
    collision_scan g2 (position q) (shape q) = Ok b /\
    lock_piece_and_clear r s =
    Ok (mkGameState g2
          (update_score (score s) (count_full (layers g1)) (length (shape p)))
          (if b then true else game_over s)
          (Some p) (Some q) (Some (mkTetromino sh spawn_anchor col)) bag',
        (randrange (refill_bag (randrange r 7).2 (piece_bag s)).2 7).2).
Proof.
  intros Hg Hbag Hp Hq.
  destruct (lock_loop_spec (position p) (color p) (shape p) (grid s) Hg)
    as (g1 & Hlock & Hwf1 & _).
  destruct (clear_full_layers_terminates g1 Hwf1) as (g2 & Hclear & Hwf2 & _).
  set (s1 := set_score
               (update_score (score s) (count_full (layers g1)) (length (shape p)))
               (set_last_piece (Some p) (set_grid g2 s))).
  destruct (spawn_mid_game (randrange r 7).2 s1 p q Hwf2 Hbag Hp Hq)
    as (bag' & k & sh & col & b & Hre & Hsh & Hcol & Hb & Hspawn).
  exists g1, g2, bag', k, sh, col, b.
  split; [done|]. split; [done|]. split; [done|]. split; [done|].
  split; [done|]. split; [done|]. split; [done|]. split; [done|].
  unfold lock_piece_and_clear, the_current_piece. rewrite Hp. cbn [mbind result_bind].
  fold (lock_cells (grid s) p). unfold lock_cells at 1. rewrite Hlock.
  cbn [mbind result_bind]. rewrite clone_ok. cbn [mbind result_bind].
  rewrite Hclear. cbn [mbind result_bind]. exact Hspawn.
Qed.

(** C3: a locking event in mid-game adds to the score exactly 10 points per
    cell of the locked piece plus the layer bonus for the number of layers
    cleared: 100, 300, 500, 800 for 1 to 4 layers, 100 per layer above 4 and
    nothing for none.  A 4-cell piece thus adds 40, 140, 840 or 540 points
    when 0, 1, 4 or 5 layers are cleared. *)
Theorem score_law (r : Rng) (s : GameState) (p q : Tetromino) :
  grid_wf (grid s) -> bag_valid (piece_bag s) ->
  current_piece s = Some p -> next_piece s = Some q ->
  exists g1 g2 n s' r',
    lock_cells (grid s) p = Ok g1 /\
    clear_full_layers g1 = Ok (g2, n) /\
    lock_piece_and_clear r s = Ok (s', r') /\
    score s' = score s + 10 * Z.of_nat (length (shape p)) + layer_bonus n /\
    (layer_bonus 0 = 0 /\ layer_bonus 1 = 100 /\ layer_bonus 2 = 300 /\
     layer_bonus 3 = 500 /\ layer_bonus 4 = 800 /\
     forall m, (4 < m)%nat -> layer_bonus m = 100 * Z.of_nat m) /\
    (length (shape p) = 4%nat ->
       (n = 0%nat -> score s' = score s + 40) /\
       (n = 1%nat -> score s' = score s + 140) /\
       (n = 4%nat -> score s' = score s + 840) /\
       (n = 5%nat -> score s' = score s + 540)).
Proof.
  intros Hg Hbag Hp Hq.
  destruct (lock_piece_and_clear_spec r s p q Hg Hbag Hp Hq)
    as (g1 & g2 & bag' & k & sh & col & b & Hlock & _ & Hclear & _ & _ & _ & _ & _ & Hrun).
  eexists g1, g2, _, _, _. split; [done|]. split; [exact Hclear|]. split; [exact Hrun|].
  cbn [score]. rewrite update_score_spec.
  split; [lia|]. split.
  - repeat split. intros m Hm. by do 5 (destruct m as [|m]; [lia|]).
  - intros Hlen. rewrite Hlen. repeat split; intros ->; cbn; lia.
Qed.

(** The very first spawn (no current piece) pops two indices after at most
    one refill: it raises when a single index is left in the bag. *)
Lemma spawn_first_one_left (r : Rng) (s : GameState) (k : nat) :
  current_piece s = None -> piece_bag s = [k] -> (k < 7)%nat ->
  spawn_new_piece r s = Raise IndexError.
Proof.
  intros Hc Hbag Hk. unfold spawn_new_piece. rewrite Hbag, Hc. cbn [refill_bag].
  change [k] with ([] ++ [k]). rewrite py_pop_snoc. cbn [mbind result_bind].
  destruct (new_piece_ok r k Hk) as (sh & col & _ & _ & ->). done.
Qed.

Lemma spawn_first_two_left (r : Rng) (s : GameState) (bag' : list nat) (k2 k1 : nat) :
  grid_wf (grid s) -> current_piece s = None ->
  (refill_bag r (piece_bag s)).1 = bag' ++ [k2; k1] ->
  (k1 < 7)%nat -> (k2 < 7)%nat ->
  exists sh1 col1 sh2 col2 b r',
    SHAPES_3D !! k1 = Some sh1 /\ CYBER_COLORS !! k1 = Some col1 /\
    SHAPES_3D !! k2 = Some sh2 /\ CYBER_COLORS !! k2 = Some col2 /\
    collision_scan (grid s) spawn_anchor sh1 = Ok b /\
    spawn_new_piece r s =
    Ok (mkGameState (grid s) (score s) (if b then true else game_over s)
          (last_piece s) (Some (mkTetromino sh1 spawn_anchor col1))
          (Some (mkTetromino sh2 spawn_anchor col2)) bag', r').
Proof.
  intros Hg Hc Hbag Hk1 Hk2. unfold spawn_new_piece.
  destruct (refill_bag r (piece_bag s)) as [bag r1] eqn:Hrefill.
  cbn [fst snd] in Hbag. subst bag. rewrite Hc.
  change (bag' ++ [k2; k1]) with (bag' ++ [k2] ++ [k1]).
  rewrite app_assoc, py_pop_snoc. cbn [mbind result_bind].
  destruct (new_piece_ok r1 k1 Hk1) as (sh1 & col1 & Hsh1 & Hcol1 & ->).
  cbn [mbind result_bind]. rewrite py_pop_snoc. cbn [mbind result_bind].
  destruct (new_piece_ok (randrange r1 7).2 k2 Hk2) as (sh2 & col2 & Hsh2 & Hcol2 & ->).
  cbn [mbind result_bind].
  destruct (collision_scan_spec (grid s) spawn_anchor sh1 Hg) as (b & Hb & _).
  exists sh1, col1, sh2, col2, b. eexists.
  split; [done|]. split; [done|]. split; [done|]. split; [done|]. split; [done|].
  unfold check_collision, the_current_piece. cbn. rewrite Hb. cbn. by destruct b.
Qed.

(** ** The tick *)

Lemma restore_current (gs : GameState) (p : Tetromino) (dx dy dz : Z) (x : option Tetromino) :
  current_piece gs = Some p ->
  set_current_piece (Some (set_position (position p) (move dx dy dz p)))
    (set_current_piece x gs) = gs.
Proof.
  intros Hp. destruct gs, p as [sh [[px py] pz] col]. cbn in *. by subst.
Qed.

Lemma check_collision_moved (gs : GameState) (p t : Tetromino) (pos : Z * Z * Z) :
  shape t = shape p ->
  check_collision (set_current_piece (Some t) gs) pos =
  collision_scan (grid gs) pos (shape p).
Proof. intros Hs. unfold check_collision. cbn. by rewrite Hs. Qed.

Lemma shape_move dx dy dz t : shape (move dx dy dz t) = shape t.
Proof. by destruct t as [sh [[px py] pz] col]. Qed.

Lemma mid_game_inv (s : GameState) :
  mid_game s ->
  grid_wf (grid s) /\ bag_valid (piece_bag s) /\
  exists p q, current_piece s = Some p /\ next_piece s = Some q /\
              position q = spawn_anchor.
Proof.
  intros (Hg & Hb & [p Hp] & q & Hq & Hpos). split; [done|]. split; [done|].
  by exists p, q.
Qed.

(** The gravity step of a game in progress: the piece goes one cell down if
    it fits there, and is locked where it is otherwise. *)
Lemma gravity_step_spec (w : World) (p : Tetromino) :
  mid_game (game_state w) -> current_piece (game_state w) = Some p ->
  exists b,
    collision_scan (grid (game_state w)) (position (move 0 (-1) 0 p)) (shape p) = Ok b /\
    (b = false ->
     gravity_step w =
     Ok (set_game_state
           (set_current_piece (Some (move 0 (-1) 0 p)) (game_state w)) w)) /\
    (b = true ->
     exists gs' r',
       lock_piece_and_clear (random_state w) (game_state w) = Ok (gs', r') /\
       gravity_step w =
       Ok (let w' := set_random_state r' (set_game_state gs' w) in
           if game_over gs' then set_mode STATE_GAME_OVER w' else w')).
Proof.
  intros Hmid Hp. destruct (mid_game_inv _ Hmid) as (Hg & Hbag & p' & q & Hp' & Hq & _).
  rewrite Hp in Hp'. injection Hp' as <-.
  destruct (collision_scan_spec (grid (game_state w)) (position (move 0 (-1) 0 p))
              (shape p) Hg) as (b & Hb & _).
  exists b. split; [done|]. unfold gravity_step. rewrite Hp.
  cbn [the_current_piece set_current_piece current_piece mbind result_bind].
  rewrite (check_collision_moved _ p) by apply shape_move. rewrite Hb.
  cbn [mbind result_bind]. split.
  - by intros ->.
  - intros ->. rewrite (restore_current _ p) by done.
    destruct (lock_piece_and_clear_spec (random_state w) (game_state w) p q Hg Hbag Hp Hq)
      as (g1 & g2 & bag' & k & sh & col & b & _ & _ & _ & _ & _ & _ & _ & _ & Hrun).
    eexists _, _. split; [exact Hrun|]. rewrite Hrun. done.
Qed.

(** C4 (amended): in a game in progress every tick adds the elapsed
    milliseconds to the fall accumulator; if the accumulator then is at
    least 500 it is decremented by 500 once and exactly one gravity step is
    applied (one cell down, or lock on collision), whatever is left in the
    accumulator; below 500 nothing else changes.  The accumulator carries
    the surplus to the following ticks. *)
Theorem game_loop_one_step_per_tick (now : Z) (w : World) :
  current_mode w = STATE_PLAYING ->
  game_over (game_state w) = false ->
  mid_game (game_state w) ->
  exists w' p,
    game_loop now w = Ok w' /\ previous_time w' = now /\
    current_piece (game_state w) = Some p /\
    let acc := time_accumulator_fall w + (now - previous_time w) in
    (acc < 500 ->
     w' = set_time_accumulator_fall acc (set_previous_time now w)) /\
    (500 <= acc ->
     time_accumulator_fall w' = acc - 500 /\
     gravity_step (set_time_accumulator_fall (acc - 500) (set_previous_time now w))
       = Ok w' /\
     exists b,
       check_collision
         (set_current_piece (Some (move 0 (-1) 0 p)) (game_state w))
         (position (move 0 (-1) 0 p)) = Ok b /\
       (b = false ->
        game_state w' = set_current_piece (Some (move 0 (-1) 0 p)) (game_state w) /\
        random_state w' = random_state w /\ current_mode w' = STATE_PLAYING) /\
       (b = true ->
        lock_piece_and_clear (random_state w) (game_state w)
          = Ok (game_state w', random_state w') /\
        current_mode w' =
          if game_over (game_state w') then STATE_GAME_OVER else STATE_PLAYING)).
Proof.
  intros Hmode Hover Hmid.
  destruct (mid_game_inv _ Hmid) as (Hg & Hbag & p & q & Hp & Hq & _).
  set (acc := time_accumulator_fall w + (now - previous_time w)).
  set (w1 := set_time_accumulator_fall (acc - 500) (set_previous_time now w)).
  assert (Hloop : game_loop now w =
    if acc >=? 500 then gravity_step w1
    else Ok (set_time_accumulator_fall acc (set_previous_time now w))).
  { unfold game_loop. cbn. rewrite Hmode, Hover. cbn.
    fold acc. unfold FALL_INTERVAL_MS. by destruct (acc >=? 500). }
  destruct (gravity_step_spec w1 p) as (b & Hb & Hfalse & Htrue); [done..|].
  destruct (Z.geb_spec acc 500) as [Hge|Hlt].
  - destruct b.
    + destruct (Htrue eq_refl) as (gs' & r' & Hlock & Hstep).
      eexists _, p. split; [by rewrite Hloop, Hstep|].
      split; [by destruct (game_over gs')|]. split; [done|].
      cbv zeta. fold acc. split; [lia|]. intros _.
      split; [by destruct (game_over gs')|]. split; [done|].
      exists true. split; [by rewrite (check_collision_moved _ p) by apply shape_move|].
      split; [done|]. intros _. split.
      * cbn in Hlock. rewrite Hlock. by destruct (game_over gs').
      * destruct (game_over gs') eqn:Hgo; cbn; by rewrite ?Hgo.
    + specialize (Hfalse eq_refl).
      eexists _, p. split; [by rewrite Hloop, Hfalse|].
      split; [done|]. split; [done|]. cbv zeta. fold acc. split; [lia|]. intros _.
      split; [done|]. split; [done|].
      exists false. split; [by rewrite (check_collision_moved _ p) by apply shape_move|].
      split; [|done]. intros _. done.
  - eexists _, p. split; [by rewrite Hloop|]. split; [done|]. split; [done|].
    cbv zeta. fold acc. split; [done|]. lia.
Qed.

(** ** Speculative moves and rotations *)

Lemma move_inverse dx dy dz (t : Tetromino) :
  move (- dx) (- dy) (- dz) (move dx dy dz t) = t.
Proof.
  destruct t as [sh [[px py] pz] col]. unfold move. cbn. do 2 f_equal; [f_equal|]; lia.
Qed.

Lemma set_current_piece_same (gs : GameState) (p : Tetromino) (x : option Tetromino) :
  current_piece gs = Some p ->
  set_current_piece (Some p) (set_current_piece x gs) = gs.
Proof. intros Hp. destruct gs. cbn in *. by subst. Qed.

Lemma set_game_state_same (w : @World Rng) : set_game_state (game_state w) w = w.
Proof. by destruct w. Qed.

Lemma move_or_revert_spec dx dz bx bz (gs : GameState) (p : Tetromino) :
  bx = - dx -> bz = - dz ->
  grid_wf (grid gs) -> current_piece gs = Some p ->
  exists b,
    check_collision (set_current_piece (Some (move dx 0 dz p)) gs)
      (position (move dx 0 dz p)) = Ok b /\
    move_or_revert dx dz bx bz gs =
    Ok (if b : bool then gs else set_current_piece (Some (move dx 0 dz p)) gs).
Proof.
  intros -> -> Hg Hp.
  destruct (collision_scan_spec (grid gs) (position (move dx 0 dz p)) (shape p) Hg)
    as (b & Hb & _).
  exists b. rewrite (check_collision_moved _ p) by apply shape_move.
  split; [done|]. unfold move_or_revert, the_current_piece. rewrite Hp.
  cbn [mbind result_bind set_current_piece current_piece].
  rewrite (check_collision_moved _ p) by apply shape_move. rewrite Hb.
  cbn [mbind result_bind]. destruct b; [|done].
  change 0 with (- 0) at 1. rewrite move_inverse.
  by rewrite set_current_piece_same.
Qed.

Lemma rotate_shape_total axis (sh : list Offset) :
  axis = 0 \/ axis = 1 \/ axis = 2 -> exists sh', rotate_shape axis sh = Ok sh'.
Proof.
  intros Hax. induction sh as [|[[x y] z] sh IH]; [by exists []|].
  destruct IH as [sh' IH]. cbn [rotate_shape]. rewrite IH.
  destruct Hax as [-> | [-> | ->]]; cbn; by eexists.
Qed.

Lemma rotate_times_total n axis (t : Tetromino) :
  axis = 0 \/ axis = 1 \/ axis = 2 ->
  exists sh', rotate_times n axis t = Ok (mkTetromino sh' (position t) (color t)).
Proof.
  intros Hax. revert t. induction n as [|n IH]; intros t.
  - exists (shape t). by destruct t.
  - cbn [rotate_times]. unfold rotate.
    destruct (rotate_shape_total axis (shape t) Hax) as [sh1 ->].
    cbn [mbind result_bind]. destruct (IH (mkTetromino sh1 (position t) (color t))) as [sh' ->].
    by exists sh'.
Qed.

Lemma tuple_of_list_of_block (sh : list Offset) :
  tuple_of_list <$> (list_of_block <$> sh) = sh.
Proof.
  rewrite <- list_fmap_compose. rewrite <- (list_fmap_id sh) at 2.
  apply list_fmap_ext. by intros _ [[x y] z] _.
Qed.

Lemma rotate_or_restore_spec n axis (gs : GameState) (p : Tetromino) :
  axis = 0 \/ axis = 1 \/ axis = 2 ->
  grid_wf (grid gs) -> current_piece gs = Some p ->
  exists t b,
    rotate_times n axis p = Ok t /\
    position t = position p /\ color t = color p /\
    check_collision (set_current_piece (Some t) gs) (position t) = Ok b /\
    rotate_or_restore n axis gs =
    Ok (if b : bool then gs else set_current_piece (Some t) gs).
Proof.
  intros Hax Hg Hp.
  destruct (rotate_times_total n axis p Hax) as [sh' Hrot].
  set (t := mkTetromino sh' (position p) (color p)) in *.
  destruct (collision_scan_spec (grid gs) (position p) sh' Hg) as (b & Hb & _).
  exists t, b. split; [done|]. split; [done|]. split; [done|].
  assert (Hcheck : check_collision (set_current_piece (Some t) gs) (position t) = Ok b).
  { unfold check_collision. cbn. done. }
  split; [done|].
  unfold rotate_or_restore, the_current_piece. rewrite Hp. cbn [mbind result_bind].
  rewrite Hrot. cbn [mbind result_bind set_current_piece current_piece].
  rewrite Hcheck. cbn [mbind result_bind]. destruct b; [|done].
  rewrite tuple_of_list_of_block. unfold set_shape, set_position. cbn.
  replace (mkTetromino (shape p) (position p) (color p)) with p by (by destruct p).
  by rewrite set_current_piece_same.
Qed.

Lemma reverted_or_applied_valid (w w' : @World Rng) (t : Tetromino) :
  piece_valid (game_state w) -> reverted_or_applied w w' t ->
  piece_valid (game_state w').
Proof.
  intros Hvalid (b & Hb & ->). destruct b; [done|].
  exists t. split; [done|]. done.
Qed.

Lemma reverted_or_applied_intro (w : @World Rng) (t : Tetromino) (b : bool)
    (gs' : GameState) :
  check_collision (set_current_piece (Some t) (game_state w)) (position t) = Ok b ->
  gs' = (if b then game_state w else set_current_piece (Some t) (game_state w)) ->
  reverted_or_applied w (set_game_state gs' w) t.
Proof.
  intros Hb ->. exists b. split; [done|]. destruct b; [|done].
  by rewrite set_game_state_same.
Qed.

Lemma handle_wasd_valid (v : CameraView) (key : ascii) (w : @World Rng) :
  grid_wf (grid (game_state w)) -> piece_valid (game_state w) ->
  exists w', handle_wasd v key w = Ok w' /\ piece_valid (game_state w').
Proof.
  intros Hg Hvalid. pose proof Hvalid as (p & Hp & Hfree).
  unfold handle_wasd.
  destruct (negb _ || _ || _); [by exists w|].
  match goal with |- context [let '(_, _) := ?e in _] => destruct e as [mx mz] end.
  destruct (negb (mx =? 0) || negb (mz =? 0)); [|by exists w].
  assert (Hcur : the_current_piece (game_state w) = Ok p).
  { unfold the_current_piece. by rewrite Hp. }
  rewrite Hcur.
  cbn [mbind result_bind the_current_piece set_current_piece current_piece].
  rewrite (check_collision_moved _ p) by apply shape_move.
  destruct (collision_scan_spec (grid (game_state w)) (position (move mx 0 mz p))
              (shape p) Hg) as (b & Hb & _).
  rewrite Hb. cbn [mbind result_bind]. destruct b.
  - replace (move (- mx) 0 (- mz) (move mx 0 mz p)) with p
      by (symmetry; apply (move_inverse mx 0 mz)).
    rewrite set_current_piece_same by done.
    match goal with |- context [move_or_revert ?dx ?dz _ _ _] =>
      destruct (move_or_revert_spec dx dz (- dx) (- dz) (game_state w) p
                  eq_refl eq_refl Hg Hp) as (b2 & Hb2 & ->)
    end.
    cbn [mbind result_bind]. eexists. split; [done|].
    destruct b2; [done|]. by eexists.
  - eexists. split; [done|]. exists (move mx 0 mz p). split; [done|].
    cbn [game_state set_game_state].
    by rewrite (check_collision_moved _ p) by apply shape_move.
Qed.

Ltac key_cases H :=
  repeat (apply elem_of_cons in H as [-> | H]); [..|by apply elem_of_nil in H].

(** X26: what the handlers of the player do to the piece.  In a running
    game (playing mode, flag down) whose current piece does not collide,
    every arrow key and every rotation key (Q, E, R) is speculative: if the
    moved or rotated piece collides, the world is exactly as before (anchor
    and offset list included); if not, only the piece has changed.  The
    keys W/A/S/D try a second direction when the first collides, so that a
    colliding first move does not leave the world as it was; they too
    return with a piece that does not collide.  Moving by a delta and then
    by its negation restores the piece exactly. *)
Theorem speculative_changes_revert (fuel : nat) (v : CameraView) (w : @World Rng)
    (p : Tetromino) :
  current_mode w = STATE_PLAYING ->
  game_over (game_state w) = false ->
  grid_wf (grid (game_state w)) ->
  current_piece (game_state w) = Some p ->
  check_collision (game_state w) (position p) = Ok false ->
  (forall dx dy dz t, move (- dx) (- dy) (- dz) (move dx dy dz t) = t) /\
  (exists w', special_keys v GLUT_KEY_UP w = Ok w' /\
     reverted_or_applied w w' (move (round_forward_x v) 0 (round_forward_z v) p)) /\
  (exists w', special_keys v GLUT_KEY_DOWN w = Ok w' /\
     reverted_or_applied w w' (move (- round_forward_x v) 0 (- round_forward_z v) p)) /\
  (exists w', special_keys v GLUT_KEY_LEFT w = Ok w' /\
     reverted_or_applied w w' (move (- round_right_x v) 0 (- round_right_z v) p)) /\
  (exists w', special_keys v GLUT_KEY_RIGHT w = Ok w' /\
     reverted_or_applied w w' (move (round_right_x v) 0 (round_right_z v) p)) /\
  (forall key, key ∈ ["q"; "Q"]%char ->
     exists w' t, rotate_times 1 1 p = Ok t /\
       keyboard fuel v key w = Ok w' /\ reverted_or_applied w w' t) /\
  (forall key, key ∈ ["e"; "E"]%char ->
     exists w' t, rotate_times 3 1 p = Ok t /\
       keyboard fuel v key w = Ok w' /\ reverted_or_applied w w' t) /\
  (forall key, key ∈ ["r"; "R"]%char ->
     exists w' t, rotate_times 1 2 p = Ok t /\
       keyboard fuel v key w = Ok w' /\ reverted_or_applied w w' t) /\
  (forall key, key ∈ ["w"; "W"; "a"; "A"; "s"; "S"; "d"; "D"]%char ->
     exists w', keyboard fuel v key w = Ok w' /\ piece_valid (game_state w')) /\
  (forall w' t, reverted_or_applied w w' t ->
     piece_valid (game_state w') /\
     (check_collision (set_current_piece (Some t) (game_state w)) (position t) = Ok true ->
      w' = w)).
Proof.
  intros Hmode Hover Hg Hp Hfree.
  assert (Hvalid : piece_valid (game_state w)) by (by exists p).
  assert (Hacc : engine_accepts_input w = true).
  { unfold engine_accepts_input. rewrite Hmode, Hover, Hp. done. }
  assert (Hspecial : forall key dx dz bx bz,
    bx = - dx -> bz = - dz ->
    (gs ← move_or_revert dx dz bx bz (game_state w); Ok (set_game_state gs w))
      = special_keys v key w ->
    exists w', special_keys v key w = Ok w' /\ reverted_or_applied w w' (move dx 0 dz p)).
  { intros key dx dz bx bz Hbx Hbz <-.
    destruct (move_or_revert_spec dx dz bx bz (game_state w) p Hbx Hbz Hg Hp)
      as (b & Hb & ->).
    cbn [mbind result_bind]. eexists. split; [done|].
    by eapply reverted_or_applied_intro. }
  assert (Hrot : forall n axis key,
    axis = 0 \/ axis = 1 \/ axis = 2 ->
    (gs ← rotate_or_restore n axis (game_state w); Ok (set_game_state gs w))
      = keyboard fuel v key w ->
    exists w' t, rotate_times n axis p = Ok t /\
      keyboard fuel v key w = Ok w' /\ reverted_or_applied w w' t).
  { intros n axis key Hax <-.
    destruct (rotate_or_restore_spec n axis (game_state w) p Hax Hg Hp)
      as (t & b & Ht & _ & _ & Hb & ->).
    cbn [mbind result_bind]. eexists _, t. split; [done|]. split; [done|].
    by eapply reverted_or_applied_intro. }
  split; [apply move_inverse|].
  split.
  { eapply Hspecial; cycle 2; [unfold special_keys; rewrite Hacc; reflexivity|lia..]. }
  split.
  { eapply Hspecial; cycle 2; [unfold special_keys; rewrite Hacc; reflexivity|lia..]. }
  split.
  { eapply Hspecial; cycle 2; [unfold special_keys; rewrite Hacc; reflexivity|lia..]. }
  split.
  { eapply Hspecial; cycle 2; [unfold special_keys; rewrite Hacc; reflexivity|lia..]. }
  split.
  { intros key Hkey. apply Hrot; [tauto|].
    unfold keyboard. rewrite Hacc, Hmode, Hover. key_cases Hkey; done. }
  split.
  { intros key Hkey. apply Hrot; [tauto|].
    unfold keyboard. rewrite Hacc, Hmode, Hover. key_cases Hkey; done. }
  split.
  { intros key Hkey. apply Hrot; [tauto|].
    unfold keyboard. rewrite Hacc, Hmode, Hover. key_cases Hkey; done. }
  split.
  { intros key Hkey.
    destruct (handle_wasd_valid v key w Hg Hvalid) as (w' & Hw' & Hv').
    exists w'. split; [|done]. rewrite <- Hw'.
    unfold keyboard. rewrite Hacc, Hmode, Hover. key_cases Hkey; done. }
  intros w' t Hra. split; [by eapply reverted_or_applied_valid|].
  intros Hcol. destruct Hra as (b & Hb & ->). rewrite Hcol in Hb. by injection Hb as <-.
Qed.

(** ** What a successful call has done *)

Ltac bind_inv H :=
  match type of H with
  | mbind _ ?m = Ok _ =>
      let E := fresh "E" in
      destruct m eqn:E; cbn [mbind result_bind] in H; [|discriminate H..]
  end.

Lemma py_pop_inv {A} (l l' : list A) (a : A) :
  py_pop l = Ok (a, l') -> l = l' ++ [a].
Proof.
  intros Hpop. destruct (decide (l = [])) as [->|Hne]; [done|].
  destruct (list_snoc_inv l Hne) as (l0 & a0 & ->).
  rewrite py_pop_snoc in Hpop. by injection Hpop as -> ->.
Qed.

Lemma py_getitem_nat_inv {A} (l : list A) (k : nat) (a : A) :
  py_getitem l (Z.of_nat k) = Ok a -> l !! k = Some a.
Proof.
  unfold py_getitem. destruct (Z.ltb_spec (Z.of_nat k) 0); [lia|].
  destruct (_ || _); [done|]. rewrite Nat2Z.id.
  destruct (l !! k); [|done]. by intros [= ->].
Qed.

Lemma Tetromino_init_inv (r r' : Rng) (t : Tetromino) :
  Tetromino_init r = Ok (t, r') -> position t = spawn_anchor.
Proof.
  unfold Tetromino_init. destruct (randrange r _) as [k r1].
  intros Hrun. bind_inv Hrun. bind_inv Hrun. by injection Hrun as <- _.
Qed.

Lemma new_piece_inv (r r' : Rng) (k : nat) (t : Tetromino) :
  new_piece r k = Ok (t, r') -> position t = spawn_anchor /\ catalogue_entry t k.
Proof.
  unfold new_piece. intros Hrun. bind_inv Hrun. destruct a as [t0 r0].
  apply Tetromino_init_inv in E. bind_inv Hrun. bind_inv Hrun.
  injection Hrun as <- _. split; [done|]. split; cbn; by apply py_getitem_nat_inv.
Qed.

Lemma check_collision_set_game_over (b : bool) (s : GameState) pos :
  check_collision (set_game_over b s) pos = check_collision s pos.
Proof. done. Qed.

(** What a spawn that returned has done: the indices it popped, the pieces
    it made of them, and the flag. *)
Lemma spawn_inv (r r' : Rng) (s s' : GameState) :
  spawn_new_piece r s = Ok (s', r') ->
  exists ks cur b,
    (refill_bag r (piece_bag s)).1 = piece_bag s' ++ reverse ks /\
    Forall2 catalogue_entry (drawn_pieces s s') ks /\
    ks <> [] /\
    current_piece s' = Some cur /\
    check_collision s' (position cur) = Ok b /\
    game_over s' = (if b : bool then true else game_over s) /\
    (current_piece s = None -> position cur = spawn_anchor) /\
    (forall c, current_piece s = Some c -> next_piece s = Some cur) /\
    (exists nxt, next_piece s' = Some nxt /\ position nxt = spawn_anchor) /\
    grid s' = grid s /\ score s' = score s /\ last_piece s' = last_piece s.
Proof.
  unfold spawn_new_piece, drawn_pieces.
  destruct (refill_bag r (piece_bag s)) as [bag r0]. cbn [fst].
  intros Hrun. bind_inv Hrun. destruct a as [s1 r1].
  bind_inv Hrun. rename a into cur. bind_inv Hrun. rename a into b.
  injection Hrun as <- <-.
  unfold the_current_piece in E0. destruct (current_piece s1) as [cur'|] eqn:Hcur; [|done].
  injection E0 as ->.
  destruct (current_piece s) as [c|] eqn:Hc.
  - bind_inv E. destruct a as [k bag']. apply py_pop_inv in E0 as ->.
    bind_inv E. destruct a as [nxt r2]. apply new_piece_inv in E0 as [Hpos Hcat].
    injection E as <- <-. cbn in Hcur.
    exists [k], cur, b.
    split; [by destruct b|].
    split; [destruct b; cbn; (constructor; [done|constructor])|].
    split; [done|]. split; [by destruct b|].
    split; [by destruct b|]. split; [by destruct b|]. split; [done|].
    split; [by intros _ _|]. split; [exists nxt; by destruct b|].
    by destruct b.
  - bind_inv E. destruct a as [k1 bag1]. apply py_pop_inv in E0 as ->.
    bind_inv E. destruct a as [cur0 r2]. apply new_piece_inv in E0 as [Hpos1 Hcat1].
    bind_inv E. destruct a as [k2 bag2]. apply py_pop_inv in E0 as ->.
    bind_inv E. destruct a as [nxt r3]. apply new_piece_inv in E0 as [Hpos2 Hcat2].
    injection E as <- <-. cbn in Hcur. injection Hcur as <-.
    exists [k1; k2], cur0, b.
    split; [destruct b; cbn; by rewrite <- app_assoc|].
    split; [destruct b; cbn;
            (constructor; [done|constructor; [done|constructor]])|].
    split; [done|]. split; [by destruct b|].
    split; [by destruct b|]. split; [by destruct b|]. split; [done|].
    split; [done|]. split; [exists nxt; by destruct b|].
    by destruct b.
Qed.

(** ** Fairness of the bag *)

Lemma drawn_pieces_length (r r' : Rng) (s s' : GameState) ks :
  Forall2 catalogue_entry (drawn_pieces s s') ks -> ks <> [] ->
  (0 < length (drawn_pieces s s'))%nat /\ length (drawn_pieces s s') = length ks.
Proof.
  intros Hf Hne. apply Forall2_length in Hf. rewrite Hf.
  split; [|done]. destruct ks; [done|cbn; lia].
Qed.

(** As long as the draws of a run fit in the bag, no refill happens and the
    run pops its indices off the end of the bag. *)
Lemma spawn_run_within_bag (r r' : Rng) (s s' : GameState) (ds : list Tetromino) :
  spawn_run r s ds r' s' ->
  (length ds <= length (piece_bag s))%nat ->
  exists ks, Forall2 catalogue_entry ds ks /\ piece_bag s = piece_bag s' ++ reverse ks.
Proof.
  induction 1 as [r s|r s r1 s1 r2 s2 r3 s3 ds Hbag Hspawn Hrun IH]; intros Hlen.
  - exists []. split; [constructor|]. by rewrite app_nil_r.
  - destruct (spawn_inv _ _ _ _ Hspawn) as (ks1 & _ & _ & Hre & Hcat & Hne & _).
    destruct (drawn_pieces_length r1 r2 _ _ _ Hcat Hne) as [Hpos Hlen1].
    rewrite length_app in Hlen.
    rewrite refill_bag_nonempty in Hre
      by (rewrite Hbag; intros Hnil; rewrite Hnil in Hlen; cbn in Hlen; lia).
    cbn [fst] in Hre. rewrite Hbag in Hre.
    destruct IH as (ks2 & Hcat2 & Hbag2).
    { rewrite Hre, length_app, length_reverse in Hlen. lia. }
    exists (ks1 ++ ks2). split; [by apply Forall2_app|].
    by rewrite Hre, Hbag2, reverse_app, app_assoc.
Qed.

Lemma catalogue_entry_color (ds : list Tetromino) (ks : list nat) :
  Forall2 catalogue_entry ds ks ->
  color <$> ds = (fun k => nth k CYBER_COLORS (Qmake 0 1, Qmake 0 1, Qmake 0 1)) <$> ks.
Proof.
  induction 1 as [|t k ds ks [_ Hcol] _ IH]; [done|].
  rewrite !fmap_cons. f_equal; [|done]. symmetry. by apply nth_lookup_Some.
Qed.

Lemma catalogue_entry_shape (ds : list Tetromino) (ks : list nat) :
  Forall2 catalogue_entry ds ks ->
  shape <$> ds = (fun k => nth k SHAPES_3D []) <$> ks.
Proof.
  induction 1 as [|t k ds ks [Hsh _] _ IH]; [done|].
  rewrite !fmap_cons. f_equal; [|done]. symmetry. by apply nth_lookup_Some.
Qed.

(** C6 (amended): in any run of spawns that starts with the bag empty (a
    refill boundary) and draws seven pieces, during which nothing but
    [spawn_new_piece] writes the bag (whatever happens to the rest of the
    game between the spawns), the seven pieces drawn are the seven catalogue
    entries, each exactly once: their indices are a permutation of 0..6
    without repetition, their colours a permutation of the palette and
    their shapes a permutation of the catalogue; the bag is empty again
    afterwards, so the next draw starts a new permutation. *)
Theorem bag_fairness (r r' : Rng) (s s' : GameState) (ds : list Tetromino) :
  spawn_run r s ds r' s' ->
  piece_bag s = [] ->
  length ds = 7%nat ->
  exists ks,
    Forall2 catalogue_entry ds ks /\
    ks ≡ₚ seq 0 7 /\ NoDup ks /\
    color <$> ds ≡ₚ CYBER_COLORS /\
    shape <$> ds ≡ₚ SHAPES_3D /\
    piece_bag s' = [].
Proof.
  intros Hrun Hempty Hlen.
  destruct Hrun as [r s|r s r1 s1 r2 s2 r3 s3 ds Hbag Hspawn Hrun]; [done|].
  destruct (spawn_inv _ _ _ _ Hspawn) as (ks1 & _ & _ & Hre & Hcat & Hne & _).
  destruct (drawn_pieces_length r1 r2 _ _ _ Hcat Hne) as [Hpos Hlen1].
  rewrite Hbag, Hempty in Hre.
  destruct (refill_bag_empty r1) as [_ Hperm]. rewrite Hre in Hperm.
  pose proof (Permutation_length Hperm) as Hlen7.
  rewrite length_app, length_reverse in Hlen7. cbn in Hlen7.
  rewrite length_app in Hlen.
  destruct (spawn_run_within_bag _ _ _ _ _ Hrun) as (ks2 & Hcat2 & Hbag2); [lia|].
  pose proof (Forall2_length _ _ _ Hcat2) as Hlen2.
  assert (Hnil : piece_bag s3 = []).
  { apply nil_length_inv. apply (f_equal length) in Hbag2.
    rewrite length_app, length_reverse in Hbag2. lia. }
  rewrite Hnil in Hbag2. cbn in Hbag2.
  assert (Hks : ks1 ++ ks2 ≡ₚ seq 0 7).
  { rewrite <- Hperm, Hbag2, <- reverse_app. by rewrite reverse_Permutation. }
  exists (ks1 ++ ks2). split; [by apply Forall2_app|]. split; [done|].
  split; [rewrite Hks; apply NoDup_seq|].
  split; [|split; [|done]].
  - rewrite (catalogue_entry_color _ (ks1 ++ ks2)) by (by apply Forall2_app).
    by rewrite Hks.
  - rewrite (catalogue_entry_shape _ (ks1 ++ ks2)) by (by apply Forall2_app).
    by rewrite Hks.
Qed.

(** In mid-game any number of spawns in a row succeed, one piece each. *)
Lemma spawn_run_exists (n : nat) (r : Rng) (s : GameState) :
  grid_wf (grid s) -> bag_valid (piece_bag s) ->
  is_Some (current_piece s) -> is_Some (next_piece s) ->
  exists ds r' s', spawn_run r s ds r' s' /\ length ds = n.
Proof.
  revert r s. induction n as [|n IH]; intros r s Hg Hbag [c Hc] [q Hq].
  - exists [], r, s. split; [constructor|done].
  - destruct (spawn_mid_game r s c q Hg Hbag Hc Hq)
      as (bag' & k & sh & col & b & Hre & _ & _ & _ & Hspawn).
    destruct (refill_bag_valid r _ Hbag) as [Hv _]. rewrite Hre in Hv.
    apply Forall_app in Hv as [Hv _].
    match type of Hspawn with _ = Ok (?s2, ?r2) =>
      destruct (IH r2 s2) as (ds & r' & s' & Hrun & Hlen); [done|done|by eexists..|]
    end.
    eexists _, r', s'. split.
    + eapply spawn_run_step; [reflexivity|exact Hspawn|exact Hrun].
    + unfold drawn_pieces. rewrite Hc. cbn. by rewrite Hlen.
Qed.

(** ** The game-over flag *)













Tactic Notation "bind_inv_as" hyp(H) simple_intropattern(p) :=
  match type of H with
  | mbind _ ?m = Ok _ =>
      let E := fresh "E" in
      destruct m as [p| |] eqn:E; cbn [mbind result_bind] in H; [|discriminate H..]
  end.







(** ** The invariant of a session *)

Lemma the_current_piece_inv (s : GameState) (p : Tetromino) :
  the_current_piece s = Ok p -> current_piece s = Some p.
Proof. unfold the_current_piece. destruct (current_piece s); [|done]. by intros [= ->]. Qed.

Lemma lock_cells_wf (g g' : Grid) (p : Tetromino) :
  grid_wf g -> lock_cells g p = Ok g' -> grid_wf g'.
Proof.
  intros Hg Hrun.
  destruct (lock_loop_spec (position p) (color p) (shape p) g Hg) as (g0 & H0 & Hwf & _).
  unfold lock_cells in Hrun. rewrite H0 in Hrun. by injection Hrun as <-.
Qed.

Lemma clear_full_layers_wf (g g' : Grid) (n : nat) :
  grid_wf g -> clear_full_layers g = Ok (g', n) -> grid_wf g'.
Proof.
  intros Hg Hrun. destruct (clear_full_layers_terminates g Hg) as (g0 & H0 & Hwf & _).
  rewrite H0 in Hrun. by injection Hrun as <- _.
Qed.

Lemma engine_inv_set_current (s : GameState) (t : Tetromino) :
  engine_inv s -> is_Some (next_piece s) ->
  engine_inv (set_current_piece (Some t) s).
Proof.
  intros (Hg & Hb & Hq & _) Hn.
  split; [exact Hg|]. split; [exact Hb|]. split; [exact Hq|]. intros _. exact Hn.
Qed.

Lemma engine_inv_next (s : GameState) (p : Tetromino) :
  engine_inv s -> current_piece s = Some p -> is_Some (next_piece s).
Proof. intros (_ & _ & _ & Hn) Hp. apply Hn. by rewrite Hp. Qed.

Lemma spawn_engine_inv (r r' : Rng) (s s' : GameState) :
  engine_inv s -> spawn_new_piece r s = Ok (s', r') -> spawned s'.
Proof.
  intros (Hg & Hbag & Hq & Hn) Hspawn.
  destruct (spawn_inv _ _ _ _ Hspawn)
    as (ks & cur & b & Hre & _ & _ & Hcur & Hcol & Hgo & _ & _ & (nxt & Hnxt & Hpos)
        & Hgrid & _).
  split; [|split].
  - split; [by rewrite Hgrid|]. split.
    + destruct (refill_bag_valid r _ Hbag) as [Hv _]. rewrite Hre in Hv.
      by apply Forall_app in Hv as [Hv _].
    + split; [|intros _; by rewrite Hnxt].
      intros q Hq'. rewrite Hnxt in Hq'. by injection Hq' as <-.
  - by rewrite Hcur.
  - intros Hfalse. rewrite Hfalse in Hgo. destruct b; [done|]. by exists cur.
Qed.

Lemma lock_engine_inv (r r' : Rng) (s s' : GameState) :
  engine_inv s -> lock_piece_and_clear r s = Ok (s', r') -> spawned s'.
Proof.
  unfold lock_piece_and_clear. intros (Hg & Hbag & Hq & Hn) Hrun.
  bind_inv_as Hrun cur. bind_inv_as Hrun g1. bind_inv_as Hrun [last r1].
  bind_inv_as Hrun [g2 n].
  apply spawn_engine_inv in Hrun; [done|].
  split; [|split; [exact Hbag|split; [exact Hq|exact Hn]]].
  eapply clear_full_layers_wf; [|done]. by eapply lock_cells_wf.
Qed.

Lemma hard_drop_engine_inv (fuel : nat) (r r' : Rng) (s s' : GameState) :
  engine_inv s -> hard_drop fuel r s = Ok (s', r') -> spawned s'.
Proof.
  revert s. induction fuel as [|fuel IH]; intros s Hinv Hrun; [done|].
  cbn [hard_drop] in Hrun. bind_inv_as Hrun p. bind_inv_as Hrun cur.
  bind_inv_as Hrun collides. apply the_current_piece_inv in E.
  pose proof (engine_inv_next _ _ Hinv E) as Hn.
  destruct collides.
  - apply lock_engine_inv in Hrun; [done|].
    apply engine_inv_set_current; [by apply engine_inv_set_current|done].
  - apply IH in Hrun; [done|]. by apply engine_inv_set_current.
Qed.

Lemma move_or_revert_inv dx dz bx bz (s s' : GameState) :
  bx = - dx -> bz = - dz ->
  engine_inv s -> piece_valid s -> move_or_revert dx dz bx bz s = Ok s' ->
  engine_inv s' /\ piece_valid s'.
Proof.
  intros Hbx Hbz Hinv (p & Hp & Hfree) Hrun.
  destruct (move_or_revert_spec dx dz bx bz s p Hbx Hbz (proj1 Hinv) Hp) as (b & Hb & Hrun').
  rewrite Hrun' in Hrun. injection Hrun as <-. destruct b; [split; [done|by exists p]|].
  split; [apply engine_inv_set_current; [done|by eapply engine_inv_next]|].
  by eexists.
Qed.

Lemma rotate_or_restore_inv n axis (s s' : GameState) :
  axis = 0 \/ axis = 1 \/ axis = 2 ->
  engine_inv s -> piece_valid s -> rotate_or_restore n axis s = Ok s' ->
  engine_inv s' /\ piece_valid s'.
Proof.
  intros Hax Hinv (p & Hp & Hfree) Hrun.
  destruct (rotate_or_restore_spec n axis s p Hax (proj1 Hinv) Hp)
    as (t & b & _ & _ & _ & Hb & Hrun').
  rewrite Hrun' in Hrun. injection Hrun as <-. destruct b; [split; [done|by exists p]|].
  split; [apply engine_inv_set_current; [done|by eapply engine_inv_next]|].
  by eexists.
Qed.

Lemma handle_wasd_inv (v : CameraView) (key : ascii) (w w' : @World Rng) :
  engine_inv (game_state w) -> piece_valid (game_state w) ->
  handle_wasd v key w = Ok w' ->
  engine_inv (game_state w') /\ piece_valid (game_state w') /\
  current_mode w' = current_mode w.
Proof.
  intros Hinv Hvalid. pose proof Hvalid as (p & Hp & Hfree).
  unfold handle_wasd. intros Hrun.
  destruct (negb _ || _ || _); [by injection Hrun as <-|].
  match type of Hrun with context [let '(_, _) := ?e in _] => destruct e as [mx mz] end.
  destruct (negb (mx =? 0) || negb (mz =? 0)); [|by injection Hrun as <-].
  assert (Hcur : the_current_piece (game_state w) = Ok p).
  { unfold the_current_piece. by rewrite Hp. }
  rewrite Hcur in Hrun.
  cbn [mbind result_bind the_current_piece set_current_piece current_piece] in Hrun.
  rewrite (check_collision_moved _ p) in Hrun by apply shape_move.
  destruct (collision_scan_spec (grid (game_state w)) (position (move mx 0 mz p))
              (shape p) (proj1 Hinv)) as (b & Hb & _).
  rewrite Hb in Hrun. cbn [mbind result_bind] in Hrun. destruct b.
  - replace (move (- mx) 0 (- mz) (move mx 0 mz p)) with p in Hrun
      by (symmetry; apply (move_inverse mx 0 mz)).
    rewrite set_current_piece_same in Hrun by done.
    bind_inv_as Hrun gs. injection Hrun as <-.
    apply move_or_revert_inv in E as [? ?]; done.
  - injection Hrun as <-. cbn [game_state set_game_state current_mode].
    split; [apply engine_inv_set_current; [done|by eapply engine_inv_next]|].
    split; [|done]. exists (move mx 0 mz p). split; [done|].
    by rewrite (check_collision_moved _ p) by apply shape_move.
Qed.

Lemma special_keys_inv (v : CameraView) (key : Z) (w w' : @World Rng) :
  session_inv w -> special_keys v key w = Ok w' -> session_inv w'.
Proof.
  intros Hs. pose proof Hs as [Hinv Hplay].
  unfold special_keys, engine_accepts_input. intros Hrun.
  destruct (bool_decide (current_mode w = STATE_PLAYING)) eqn:Hmode;
    [|cbn in Hrun; by injection Hrun as <-].
  destruct (game_over (game_state w)) eqn:Hover; [cbn in Hrun; by injection Hrun as <-|].
  destruct (bool_decide (is_Some _)); [|cbn in Hrun; by injection Hrun as <-].
  cbn [andb negb] in Hrun. apply bool_decide_eq_true_1 in Hmode.
  destruct (Hplay (or_introl Hmode)) as [Hsome Hvalid]. specialize (Hvalid eq_refl).
  bind_inv_as Hrun gs. injection Hrun as <-.
  assert (Hgs : engine_inv gs /\ piece_valid gs).
  { repeat (destruct (key =? _);
      [(by injection E as <-) || (eapply move_or_revert_inv; [| | | |exact E]; done || lia)|]).
    by injection E as <-. }
  destruct Hgs as [Hinv' Hvalid']. split; [done|]. intros _.
  cbn [game_state set_game_state]. split; [|done].
  destruct Hvalid' as (p & -> & _). by eexists.
Qed.

Lemma session_inv_same (w w' : @World Rng) :
  game_state w' = game_state w -> current_mode w' = current_mode w ->
  session_inv w -> session_inv w'.
Proof. intros Hgs Hmode [Hinv Hplay]. unfold session_inv. by rewrite Hgs, Hmode. Qed.

Lemma session_inv_spawned (w : @World Rng) :
  spawned (game_state w) -> session_inv w.
Proof. intros (Hinv & Hsome & Hvalid). split; [done|]. by intros _. Qed.

Lemma session_inv_idle (w : @World Rng) :
  engine_inv (game_state w) ->
  current_mode w <> STATE_PLAYING -> current_mode w <> STATE_PAUSED ->
  session_inv w.
Proof. intros Hinv H1 H2. split; [done|]. by intros [?|?]. Qed.

Lemma engine_inv_fresh (s : GameState) :
  grid s = empty_grid -> bag_valid (piece_bag s) ->
  current_piece s = None -> next_piece s = None -> engine_inv s.
Proof.
  intros Hgrid Hbag Hcur Hnext. split; [rewrite Hgrid; apply empty_grid_wf|].
  split; [done|]. split; [intros q Hq; congruence|].
  rewrite Hcur. by intros [? ?].
Qed.

Lemma set_mode_main_menu_inv (w : @World Rng) :
  engine_inv (game_state w) -> session_inv (set_mode STATE_MAIN_MENU w).
Proof.
  intros (_ & Hbag & _). apply session_inv_idle; [|done..].
  by apply engine_inv_fresh.
Qed.

Lemma start_game_inv (w w' : @World Rng) :
  engine_inv (game_state w) -> start_game w = Ok w' -> session_inv w'.
Proof.
  intros (_ & Hbag & _). unfold start_game. intros Hrun. bind_inv_as Hrun [gs r].
  injection Hrun as <-. apply session_inv_spawned.
  apply spawn_engine_inv in E; [done|]. by apply engine_inv_fresh.
Qed.

Lemma gravity_step_inv (w w' : @World Rng) :
  session_inv w -> current_mode w = STATE_PLAYING ->
  game_over (game_state w) = false ->
  gravity_step w = Ok w' -> session_inv w'.
Proof.
  intros Hs Hmode Hover. pose proof Hs as [Hinv Hplay].
  destruct (Hplay (or_introl Hmode)) as [[p Hp] _].
  unfold gravity_step. rewrite Hp. intros Hrun.
  pose proof (engine_inv_next _ _ Hinv Hp) as Hn.
  bind_inv_as Hrun cur. bind_inv_as Hrun collides. destruct collides.
  - bind_inv_as Hrun [gs r]. apply lock_engine_inv in E1;
      [|apply engine_inv_set_current; [by apply engine_inv_set_current|done]].
    injection Hrun as <-. destruct (game_over gs) eqn:Hgo.
    + apply session_inv_idle; [apply E1|done..].
    + by apply session_inv_spawned.
  - injection Hrun as <-. split; [by apply engine_inv_set_current|].
    intros _. split; [by eexists|]. intros _.
    cbn in E. injection E as <-. by eexists.
Qed.

Lemma game_loop_inv (now : Z) (w w' : @World Rng) :
  session_inv w -> game_loop now w = Ok w' -> session_inv w'.
Proof.
  intros Hs. unfold game_loop. cbn [current_mode game_state set_previous_time].
  destruct (bool_decide (current_mode w = STATE_PLAYING)) eqn:Hmode;
    [|intros [= <-]; by apply (session_inv_same w)].
  destruct (game_over (game_state w)) eqn:Hover;
    [intros [= <-]; by apply (session_inv_same w)|].
  cbn [andb negb]. destruct (_ >=? _); [|intros [= <-]; by apply (session_inv_same w)].
  apply bool_decide_eq_true_1 in Hmode.
  apply gravity_step_inv; [by apply (session_inv_same w)|done..].
Qed.

Lemma keyboard_inv (fuel : nat) (v : CameraView) (key : ascii) (w w' : @World Rng) :
  session_inv w -> keyboard fuel v key w = Ok w' -> session_inv w'.
Proof.
  intros Hs. pose proof Hs as [Hinv Hplay]. unfold keyboard, engine_accepts_input.
  destruct (bool_decide (current_mode w = STATE_PLAYING)) eqn:Hplaying.
  - apply bool_decide_eq_true_1 in Hplaying.
    destruct (Hplay (or_introl Hplaying)) as [Hsome Hvalid].
    rewrite (bool_decide_eq_true_2 _ Hsome).
    rewrite (bool_decide_eq_false_2 (current_mode w = STATE_PAUSED)) by congruence.
    rewrite !andb_true_r, !andb_false_r. cbn [andb].
    destruct (key_in key ["p"; "P"]%char).
    { intros [= <-]. split; [done|]. by intros _. }
    destruct (game_over (game_state w)) eqn:Hover; cbn [negb andb].
    { destruct (bool_decide (key = ESC)).
      - rewrite Hplaying. intros [= <-]. by apply set_mode_main_menu_inv.
      - rewrite Hplaying. intros [= <-]. by apply session_inv_idle. }
    specialize (Hvalid eq_refl).
    destruct (bool_decide (key = " "%char)).
    { intros Hrun. bind_inv_as Hrun [gs r]. injection Hrun as <-.
      apply hard_drop_engine_inv in E; [|done]. by apply session_inv_spawned. }
    destruct (key_in key _).
    { intros Hrun. apply handle_wasd_inv in Hrun as (? & Hv & Hm); [|done..].
      split; [done|]. intros _. split; [|done]. destruct Hv as (p & Hp & _). by exists p. }
    intros Hrun. bind_inv_as Hrun gs. injection Hrun as <-.
    assert (Hgs : engine_inv gs /\ piece_valid gs).
    { repeat (destruct (key_in key _);
        [eapply rotate_or_restore_inv; [| | |exact E]; tauto || done|]).
      by injection E as <-. }
    destruct Hgs as [Hinv' Hvalid']. split; [done|]. intros _.
    split; [|done]. destruct Hvalid' as (p & Hp & _). by exists p.
  - apply bool_decide_eq_false_1 in Hplaying. rewrite !andb_false_r, !andb_false_l.
    cbn [andb]. destruct (key_in key ["p"; "P"]%char && _) eqn:Hpause.
    { apply andb_true_iff in Hpause as [_ Hpaused]. apply bool_decide_eq_true_1 in Hpaused.
      intros [= <-]. destruct (Hplay (or_intror Hpaused)) as [? ?]. split; [done|]. by intros _. }
    destruct (bool_decide (key = ESC)).
    { destruct (current_mode w); try done; intros [= <-]; by apply set_mode_main_menu_inv. }
    clear Hpause. destruct (current_mode w) eqn:Hmode; [| |done| |].
    + destruct (bool_decide (key = ENTER)); intros [= <-]; [by apply set_mode_main_menu_inv|done].
    + destruct (key_in key _); [by apply start_game_inv|]. by intros [= <-].
    + by intros [= <-].
    + destruct (key_in key _); [by apply start_game_inv|]. by intros [= <-].
Qed.

Lemma demo_reset_engine_inv (r r' : Rng) (s s' : GameState) :
  engine_inv s -> demo_reset r s = Ok (s', r') -> engine_inv s'.
Proof.
  intros (_ & _ & Hq & Hn). unfold demo_reset. intros Hrun.
  pose proof (shuffle_perm r (range 0 (length SHAPES_3D))) as Hperm.
  destruct (shuffle r _) as [bag r0]. cbn [fst] in Hperm.
  bind_inv_as Hrun [gs r1]. injection Hrun as <- _.
  apply spawn_engine_inv in E as [E _]; [exact E|].
  split; [apply empty_grid_wf|]. split; [|done].
  unfold bag_valid. cbn. rewrite Hperm. apply seq_Forall_lt.
Qed.

Lemma demo_drop_engine_inv (fuel : nat) (s s' : GameState) :
  engine_inv s -> demo_drop fuel s = Ok s' -> engine_inv s'.
Proof.
  revert s. induction fuel as [|fuel IH]; intros s Hinv Hrun; [done|].
  cbn [demo_drop] in Hrun. bind_inv_as Hrun cur. bind_inv_as Hrun collides.
  apply the_current_piece_inv in E. destruct collides; [by injection Hrun as <-|].
  apply IH in Hrun; [done|]. apply engine_inv_set_current; [done|].
  by eapply engine_inv_next.
Qed.

Lemma demo_random_move_engine_inv (fuel : nat) (r r' : Rng) (s s' : GameState) :
  engine_inv s -> demo_random_move fuel r s = Ok (s', r') -> engine_inv s'.
Proof.
  unfold demo_random_move. intros Hinv Hrun.
  destruct (random_lt r _) as [[] r0]; [|by injection Hrun as <- _].
  destruct (randrange r0 3) as [[|[|[|choice]]] r1]; [| | |done].
  - destruct (randrange r1 4) as [i r2]. bind_inv_as Hrun [[dx dy] dz].
    bind_inv_as Hrun cur. bind_inv_as Hrun cur'. bind_inv_as Hrun collides.
    apply the_current_piece_inv in E0.
    pose proof (engine_inv_next _ _ Hinv E0) as Hn.
    destruct collides; injection Hrun as <- _.
    + apply engine_inv_set_current; [by apply engine_inv_set_current|done].
    + by apply engine_inv_set_current.
  - destruct (randrange r1 3) as [i r2]. bind_inv_as Hrun axis.
    bind_inv_as Hrun cur. bind_inv_as Hrun t. injection Hrun as <- _.
    apply the_current_piece_inv in E0. apply engine_inv_set_current; [done|].
    by eapply engine_inv_next.
  - bind_inv_as Hrun gs. bind_inv_as Hrun cur.
    apply demo_drop_engine_inv in E; [|done]. apply the_current_piece_inv in E0.
    apply lock_engine_inv in Hrun as [? _]; [done|].
    apply engine_inv_set_current; [done|]. by eapply engine_inv_next.
Qed.

Lemma demo_fall_engine_inv (elapsed : Z) (r r' : Rng) (s s' : GameState) :
  engine_inv s -> demo_fall elapsed r s = Ok (s', r') -> engine_inv s'.
Proof.
  unfold demo_fall. intros Hinv Hrun.
  destruct (_ <? 16); [|by injection Hrun as <- _].
  bind_inv_as Hrun p. bind_inv_as Hrun cur. bind_inv_as Hrun collides.
  apply the_current_piece_inv in E. pose proof (engine_inv_next _ _ Hinv E) as Hn.
  destruct collides.
  - apply lock_engine_inv in Hrun as [? _]; [done|].
    apply engine_inv_set_current; [by apply engine_inv_set_current|done].
  - injection Hrun as <- _. by apply engine_inv_set_current.
Qed.

Lemma display_main_menu_inv (fuel : nat) (elapsed : Z) (w w' : @World Rng) :
  session_inv w -> display_main_menu fuel elapsed w = Ok w' -> session_inv w'.
Proof.
  intros Hs. pose proof Hs as [Hinv _]. unfold display_main_menu.
  destruct (bool_decide (current_mode w = STATE_MAIN_MENU)) eqn:Hmode;
    [|by intros [= <-]].
  apply bool_decide_eq_true_1 in Hmode. intros Hrun.
  bind_inv_as Hrun [gs r]. bind_inv_as Hrun [gs2 r2]. injection Hrun as <-.
  apply session_inv_idle; cbn; [|congruence..].
  assert (Hgs : engine_inv gs).
  { destruct (current_piece (game_state w)).
    - by injection E as <- _.
    - by apply demo_reset_engine_inv in E. }
  destruct (current_piece gs); [|by injection E0 as <- _].
  bind_inv_as E0 [gs3 r3]. bind_inv_as E0 [gs4 r4].
  apply demo_random_move_engine_inv in E1; [|done].
  apply demo_fall_engine_inv in E2; [|done].
  destruct (game_over gs4).
  - by apply demo_reset_engine_inv in E0.
  - by injection E0 as <- _.
Qed.

(** Every world that a session reaches from the freshly loaded program
    satisfies the invariant: the grid keeps its dimensions, the bag holds
    shape indices, the queued piece sits at the spawn anchor, and while a
    game is played or paused and not over, the current piece exists and
    does not collide. *)
Lemma session_invariant (fuel : nat) (v : CameraView) (es : list Event)
    (r : Rng) (w : @World Rng) :
  run_events fuel v es (initial_world r) = Ok w -> session_inv w.
Proof.
  assert (Hgen : forall w0, session_inv w0 ->
            run_events fuel v es w0 = Ok w -> session_inv w).
  { unfold run_events. induction es as [|e es IH]; intros w0 H0 Hrun.
    - by injection Hrun as <-.
    - cbn [for_each] in Hrun. bind_inv_as Hrun w1. apply (IH w1); [|done].
      destruct e; cbn [dispatch] in E.
      + by eapply keyboard_inv.
      + by eapply special_keys_inv.
      + by eapply game_loop_inv.
      + by eapply display_main_menu_inv. }
  apply Hgen. apply session_inv_idle; [|done..].
  apply engine_inv_fresh; [done|constructor|done..].
Qed.

Lemma spawn_times_run (n : nat) (r r' : Rng) (s s' : GameState) (ds : list Tetromino) :
  spawn_times n r s = Ok (ds, s', r') -> spawn_run r s ds r' s'.
Proof.
  revert r s ds. induction n as [|n IH]; intros r s ds Hrun.
  - injection Hrun as <- <- <-. constructor.
  - cbn [spawn_times] in Hrun. bind_inv_as Hrun [s1 r1].
    bind_inv_as Hrun [[ds' s2] r2]. injection Hrun as <- <- <-.
    eapply spawn_run_step; [reflexivity|exact E|]. by apply IH.
Qed.

(** ** Further properties of the engine *)

(** *** Spawning *)

Lemma list_two_last {A} (l : list A) :
  (2 <= length l)%nat -> exists l' a b, l = l' ++ [a; b].
Proof.
  intros Hl. destruct (list_snoc_inv l) as (l1 & b & ->); [intros ->; cbn in Hl; lia|].
  rewrite length_app in Hl. cbn in Hl.
  destruct (list_snoc_inv l1) as (l2 & a & ->); [intros ->; cbn in Hl; lia|].
  exists l2, a, b. by rewrite <- app_assoc.
Qed.

Lemma bag_valid_app (l1 l2 : list nat) :
  bag_valid (l1 ++ l2) <-> bag_valid l1 /\ bag_valid l2.
Proof. apply Forall_app. Qed.

(** X1: [spawn_new_piece] has one way to fail.  In a state of a session
    (grid of the playfield's dimensions, shape indices in the bag, a queued
    piece whenever there is a current one) it either succeeds or raises
    IndexError, and it raises exactly when there is no current piece (so
    that two pieces are drawn) and the bag holds exactly one index. *)
Theorem spawn_fails_iff_one_index_left (r : Rng) (s : GameState) :
  engine_inv s ->
  ((exists s' r', spawn_new_piece r s = Ok (s', r')) \/
   spawn_new_piece r s = Raise IndexError) /\
  (spawn_new_piece r s = Raise IndexError <->
   current_piece s = None /\ length (piece_bag s) = 1%nat).
Proof.
  intros (Hwf & Hbag & _ & Hnext).
  destruct (current_piece s) as [c|] eqn:Hc.
  - destruct (Hnext (ltac:(by eexists))) as [q Hq].
    destruct (spawn_mid_game r s c q Hwf Hbag Hc Hq)
      as (bag' & k & sh & col & b & _ & _ & _ & _ & Hrun).
    rewrite Hrun. split; [left; by do 2 eexists|]. split; [done|]. by intros [? _].
  - destruct (refill_bag_valid r _ Hbag) as [Hvalid Hne].
    destruct (decide (length (piece_bag s) = 1%nat)) as [Hone|Hone].
    + destruct (piece_bag s) as [|k [|? ?]] eqn:Hs; try done.
      assert (Hk : (k < 7)%nat) by (by apply Forall_cons in Hbag as [? _]).
      rewrite (spawn_first_one_left r s k Hc Hs Hk). split; [by right|]. done.
    + assert (Hlen : (2 <= length (refill_bag r (piece_bag s)).1)%nat).
      { destruct (piece_bag s) as [|k [|k2 bag]] eqn:Hs; [|done|cbn; lia].
        destruct (refill_bag_empty r) as [_ Hperm]. rewrite Hperm. cbn. lia. }
      destruct (list_two_last _ Hlen) as (bag' & k2 & k1 & Heq).
      rewrite Heq in Hvalid. apply bag_valid_app in Hvalid as [_ Hvalid].
      apply Forall_cons in Hvalid as [Hk2 Hvalid].
      apply Forall_cons in Hvalid as [Hk1 _].
      destruct (spawn_first_two_left r s bag' k2 k1 Hwf Hc Heq Hk1 Hk2)
        as (sh1 & col1 & sh2 & col2 & b & r' & _ & _ & _ & _ & _ & Hrun).
      rewrite Hrun. split; [left; by do 2 eexists|]. split; [done|]. by intros [_ ?].
Qed.

(** Every catalogue shape fits at the spawn anchor of an empty playfield. *)
Lemma spawn_anchor_free (k : nat) (sh : list Offset) :
  SHAPES_3D !! k = Some sh -> collision_scan empty_grid spawn_anchor sh = Ok false.
Proof.
  intros Hk. do 7 (destruct k as [|k]; [injection Hk as <-; by vm_compute|]). done.
Qed.

(** X2: starting a game from the menu ([s]) or restarting after a game over
    ([r]) succeeds if the bag holds shape indices and not exactly one of
    them (the case in which X1 shows the spawn to fail), and the new game
    is in playing mode with an empty playfield, score 0, the flag down,
    a current and a queued catalogue piece at the spawn anchor, and the
    current piece free.  The bag is not reset (the two pieces come off the
    bag as it was, refilled only if it was empty), and neither are the last
    piece nor the fall timer. *)
Theorem new_game_starts_clean (fuel : nat) (v : CameraView) (key : ascii) (w : World) :
  (current_mode w = STATE_MAIN_MENU /\ key ∈ ["s"; "S"]%char) \/
  (current_mode w = STATE_GAME_OVER /\ key ∈ ["r"; "R"]%char) ->
  bag_valid (piece_bag (game_state w)) ->
  length (piece_bag (game_state w)) <> 1%nat ->
  exists w' cur nxt kc kn,
    keyboard fuel v key w = Ok w' /\
    current_mode w' = STATE_PLAYING /\
    grid (game_state w') = empty_grid /\
    score (game_state w') = 0 /\
    game_over (game_state w') = false /\
    current_piece (game_state w') = Some cur /\
    next_piece (game_state w') = Some nxt /\
    position cur = spawn_anchor /\ position nxt = spawn_anchor /\
    catalogue_entry cur kc /\ catalogue_entry nxt kn /\
    (refill_bag (random_state w) (piece_bag (game_state w))).1
      = piece_bag (game_state w') ++ [kn; kc] /\
    piece_valid (game_state w') /\
    last_piece (game_state w') = last_piece (game_state w) /\
    time_accumulator_fall w' = time_accumulator_fall w.
Proof.
  intros Hkey Hbag Hone.
  assert (Hstart : keyboard fuel v key w = start_game w).
  { unfold keyboard, engine_accepts_input.
    destruct Hkey as [[Hmode Hkey]|[Hmode Hkey]]; rewrite Hmode;
      key_cases Hkey; reflexivity. }
  rewrite Hstart. clear Hstart Hkey. unfold start_game.
  set (gs := set_next_piece None _).
  assert (Hlen : (2 <= length (refill_bag (random_state w) (piece_bag gs)).1)%nat).
  { subst gs. cbn [piece_bag set_next_piece set_current_piece set_game_over
      set_score reset_grid set_grid].
    destruct (piece_bag (game_state w)) as [|k [|k2 bag]] eqn:Hs; [|done|cbn; lia].
    destruct (refill_bag_empty (random_state w)) as [_ Hperm]. rewrite Hperm. cbn. lia. }
  destruct (list_two_last _ Hlen) as (bag' & k2 & k1 & Heq).
  destruct (refill_bag_valid (random_state w) (piece_bag gs) Hbag) as [Hvalid _].
  rewrite Heq in Hvalid. apply bag_valid_app in Hvalid as [_ Hvalid].
  apply Forall_cons in Hvalid as [Hk2 Hvalid]. apply Forall_cons in Hvalid as [Hk1 _].
  destruct (spawn_first_two_left (random_state w) gs bag' k2 k1 empty_grid_wf
              eq_refl Heq Hk1 Hk2)
    as (sh1 & col1 & sh2 & col2 & b & r' & Hsh1 & Hcol1 & Hsh2 & Hcol2 & Hb & Hrun).
  change (grid gs) with empty_grid in Hb.
  rewrite (spawn_anchor_free k1 sh1 Hsh1) in Hb. injection Hb as <-.
  rewrite Hrun. cbn [mbind result_bind].
  eexists _, (mkTetromino sh1 spawn_anchor col1), (mkTetromino sh2 spawn_anchor col2),
    k1, k2.
  split; [reflexivity|].
  cbn [set_mode set_current_mode set_random_state set_game_state game_state
       current_mode time_accumulator_fall grid score game_over current_piece
       next_piece last_piece piece_bag position].
  split; [done|]. split; [done|]. split; [done|]. split; [done|].
  split; [done|]. split; [done|]. split; [done|]. split; [done|].
  split; [done|]. split; [done|]. split; [exact Heq|].
  split; [|done].
  eexists. split; [reflexivity|]. unfold check_collision. cbn.
  by apply (spawn_anchor_free k1).
Qed.

(** *** Locking *)

(** X3: a lock in a session state succeeds and advances the queue: the
    locked piece becomes the last piece as it was (shape, position, colour),
    the queued piece becomes the current piece unchanged, and the new
    queued piece is the catalogue entry of the index popped off the end of
    the bag (refilled first if it was empty), placed at the spawn anchor. *)
Theorem lock_advances_queue (r : Rng) (s : GameState) (p : Tetromino) :
  engine_inv s ->
  current_piece s = Some p ->
  exists s' r' q n k,
    lock_piece_and_clear r s = Ok (s', r') /\
    next_piece s = Some q /\
    last_piece s' = Some p /\
    current_piece s' = Some q /\
    next_piece s' = Some n /\
    position n = spawn_anchor /\ catalogue_entry n k /\
    (refill_bag (randrange r 7).2 (piece_bag s)).1 = piece_bag s' ++ [k] /\
    engine_inv s'.
Proof.
  intros Hinv Hp. pose proof Hinv as (Hwf & Hbag & Hq & Hnext).
  destruct (Hnext (ltac:(by eexists))) as [q Hnq].
  destruct (lock_piece_and_clear_spec r s p q Hwf Hbag Hp Hnq)
    as (g1 & g2 & bag' & k & sh & col & b & _ & _ & _ & Hwf2 & Hrefill & Hsh & Hcol
        & _ & Hrun).
  eexists _, _, q, (mkTetromino sh spawn_anchor col), k.
  split; [exact Hrun|].
  cbn [last_piece current_piece next_piece piece_bag position fst snd].
  split; [done|]. split; [done|]. split; [done|]. split; [done|]. split; [done|].
  split; [done|]. split; [done|].
  apply (lock_engine_inv r _ s _ Hinv) in Hrun. apply Hrun.
Qed.
(** *** Rotation about any axis *)

Lemma rotate_shape_x (sh : list Offset) :
  rotate_shape 0 sh = Ok (quarter_turn_x <$> sh).
Proof. induction sh as [|[[x y] z] sh IH]; [done|]. simpl. by rewrite IH. Qed.

Lemma rotate_shape_z (sh : list Offset) :
  rotate_shape 2 sh = Ok (quarter_turn_z <$> sh).
Proof. induction sh as [|[[x y] z] sh IH]; [done|]. simpl. by rewrite IH. Qed.

Lemma rotate_shape_unknown_axis (axis : Z) (o : Offset) (sh : list Offset) :
  axis <> 0 -> axis <> 1 -> axis <> 2 ->
  rotate_shape axis (o :: sh) = Raise UnboundLocalError.
Proof.
  intros H0 H1 H2. destruct o as [[x y] z]. cbn [rotate_shape rotate_offset].
  by rewrite !(proj2 (Z.eqb_neq _ _)).
Qed.

Lemma quarter_turn_x_four (sh : list Offset) :
  quarter_turn_x <$> (quarter_turn_x <$> (quarter_turn_x <$> (quarter_turn_x <$> sh)))
  = sh.
Proof.
  rewrite <- !list_fmap_compose.
  rewrite <- (list_fmap_id sh) at 2. apply list_fmap_ext.
  intros _ [[x y] z] _. simpl. by rewrite ?Z.opp_involutive.
Qed.

Lemma quarter_turn_z_four (sh : list Offset) :
  quarter_turn_z <$> (quarter_turn_z <$> (quarter_turn_z <$> (quarter_turn_z <$> sh)))
  = sh.
Proof.
  rewrite <- !list_fmap_compose.
  rewrite <- (list_fmap_id sh) at 2. apply list_fmap_ext.
  intros _ [[x y] z] _. simpl. by rewrite ?Z.opp_involutive.
Qed.

(** What a successful rotation has done to the offsets. *)
Lemma rotate_inv (axis : Z) (t t' : Tetromino) :
  rotate axis t = Ok t' ->
  position t' = position t /\ color t' = color t /\
  (shape t' = quarter_turn_x <$> shape t \/
   shape t' = quarter_turn_y <$> shape t \/
   shape t' = quarter_turn_z <$> shape t \/
   (shape t = [] /\ shape t' = [])).
Proof.
  unfold rotate. intros Hrun. bind_inv_as Hrun sh'. injection Hrun as <-. cbn.
  split; [done|]. split; [done|].
  destruct (decide (axis = 0)) as [->|H0];
    [rewrite rotate_shape_x in E; injection E as <-; tauto|].
  destruct (decide (axis = 1)) as [->|H1];
    [rewrite rotate_shape_y in E; injection E as <-; tauto|].
  destruct (decide (axis = 2)) as [->|H2];
    [rewrite rotate_shape_z in E; injection E as <-; tauto|].
  destruct (shape t) as [|o sh].
  - injection E as <-. tauto.
  - by rewrite rotate_shape_unknown_axis in E.
Qed.

(** X4: what C9 states of the Y axis holds of the other two axes of
    [Tetromino.rotate] as well: a rotation about X replaces every offset
    (x,y,z) by (x,-z,y), one about Z by (-y,x,z); neither fails; four of
    them in a row give back the piece with its offset list, so three undo
    one. *)
Theorem rotate_x_z_four_times (t : Tetromino) :
  rotate 0 t = Ok (set_shape (quarter_turn_x <$> shape t) t) /\
  rotate 2 t = Ok (set_shape (quarter_turn_z <$> shape t) t) /\
  rotate_times 4 0 t = Ok t /\
  rotate_times 4 2 t = Ok t /\
  rotate_times 3 0 (set_shape (quarter_turn_x <$> shape t) t) = Ok t /\
  rotate_times 3 2 (set_shape (quarter_turn_z <$> shape t) t) = Ok t.
Proof.
  destruct t as [sh pos col].
  pose proof (quarter_turn_x_four sh) as Hx. pose proof (quarter_turn_z_four sh) as Hz.
  unfold rotate_times, rotate, set_shape. cbn [shape position color].
  rewrite !rotate_shape_x, !rotate_shape_z. cbn [mbind result_bind shape position color].
  rewrite !rotate_shape_x, !rotate_shape_z. cbn [mbind result_bind shape position color].
  rewrite !rotate_shape_x, !rotate_shape_z. cbn [mbind result_bind shape position color].
  rewrite !rotate_shape_x, !rotate_shape_z. cbn [mbind result_bind shape position color].
  by rewrite Hx, Hz.
Qed.

(** X5: an axis other than 0, 1 and 2 makes [Tetromino.rotate] fail with
    UnboundLocalError at the first offset (the local [rotated] is read
    before any branch has assigned it), and leaves a piece without offsets
    as it is. *)
Theorem rotate_unknown_axis (axis : Z) (t : Tetromino) :
  axis <> 0 -> axis <> 1 -> axis <> 2 ->
  (shape t <> [] -> rotate axis t = Raise UnboundLocalError) /\
  (shape t = [] -> rotate axis t = Ok t).
Proof.
  intros H0 H1 H2. destruct t as [[|o sh] pos col]; unfold rotate; cbn [shape].
  - split; [done|]. by intros _.
  - rewrite rotate_shape_unknown_axis by done. split; [done|]. done.
Qed.

Lemma dist2_quarter_turn_x a b : dist2 (quarter_turn_x a) (quarter_turn_x b) = dist2 a b.
Proof. destruct a as [[? ?] ?], b as [[? ?] ?]. unfold dist2. cbn. ring. Qed.
Lemma dist2_quarter_turn_y a b : dist2 (quarter_turn_y a) (quarter_turn_y b) = dist2 a b.
Proof. destruct a as [[? ?] ?], b as [[? ?] ?]. unfold dist2. cbn. ring. Qed.
Lemma dist2_quarter_turn_z a b : dist2 (quarter_turn_z a) (quarter_turn_z b) = dist2 a b.
Proof. destruct a as [[? ?] ?], b as [[? ?] ?]. unfold dist2. cbn. ring. Qed.

Lemma dist2_zero a b : dist2 a b = 0 <-> a = b.
Proof.
  destruct a as [[x y] z], b as [[x' y'] z']. unfold dist2. cbn. split.
  - intros Hd.
    pose proof (Z.square_nonneg (x - x')). pose proof (Z.square_nonneg (y - y')).
    pose proof (Z.square_nonneg (z - z')).
    assert (Hx : (x - x') * (x - x') = 0) by lia.
    assert (Hy : (y - y') * (y - y') = 0) by lia.
    assert (Hz : (z - z') * (z - z') = 0) by lia.
    apply Z.mul_eq_0 in Hx, Hy, Hz.
    assert (x = x') as -> by lia. assert (y = y') as -> by lia.
    assert (z = z') as -> by lia. done.
  - intros [= -> -> ->]. lia.
Qed.

(** X6: a rotation moves the cells of a piece rigidly about its anchor: the
    anchor and the colour stay, the offsets keep their number and order,
    the squared distance between any two of them is unchanged, and hence
    distinct cells stay distinct. *)
Theorem rotate_is_rigid (axis : Z) (t t' : Tetromino) :
  rotate axis t = Ok t' ->
  position t' = position t /\ color t' = color t /\
  length (shape t') = length (shape t) /\
  (forall i j a b a' b',
     shape t !! i = Some a -> shape t !! j = Some b ->
     shape t' !! i = Some a' -> shape t' !! j = Some b' ->
     dist2 a' b' = dist2 a b) /\
  (NoDup (shape t) -> NoDup (shape t')).
Proof.
  intros Hrun. apply rotate_inv in Hrun as (Hpos & Hcol & Hsh).
  split; [done|]. split; [done|].
  assert (Hf : exists f : Offset -> Offset,
             shape t' = f <$> shape t /\ forall a b, dist2 (f a) (f b) = dist2 a b).
  { destruct Hsh as [Hsh|[Hsh|[Hsh|[H1 H2]]]].
    - exists quarter_turn_x. split; [done|]. apply dist2_quarter_turn_x.
    - exists quarter_turn_y. split; [done|]. apply dist2_quarter_turn_y.
    - exists quarter_turn_z. split; [done|]. apply dist2_quarter_turn_z.
    - exists id. rewrite H1, H2. done. }
  destruct Hf as (f & -> & Hf). split; [by rewrite length_fmap|]. split.
  - intros i j a b a' b' Ha Hb Ha' Hb'. rewrite list_lookup_fmap in Ha', Hb'.
    rewrite Ha in Ha'. rewrite Hb in Hb'. injection Ha' as <-. injection Hb' as <-.
    apply Hf.
  - apply NoDup_fmap_2. intros a b Hab. apply dist2_zero. rewrite <- (Hf a b).
    by apply dist2_zero.
Qed.
(** *** Pause, escape and the game-over screen *)

Lemma set_previous_time_same (w : @World Rng) : set_previous_time (previous_time w) w = w.
Proof. by destruct w. Qed.

Lemma key_in_false (key : ascii) (keys : list ascii) :
  key ∉ keys -> key_in key keys = false.
Proof. intros Hk. unfold key_in. by apply bool_decide_eq_false_2. Qed.



(** X7: what ESC does depends on more than the mode.  While a game is being
    played (playing mode, flag down, a current piece) the key is ignored:
    the handler returns before it reaches the ESC branch.  Otherwise ESC
    ends the program (SystemExit) on the loading screen and in the menu, and
    in the other modes leads to the menu with an empty playfield, score 0,
    the flag down and no piece; the bag, the fall timer and the generator
    are kept. *)
Theorem escape_key (fuel : nat) (v : CameraView) (w : @World Rng) :
  keyboard fuel v ESC w =
    (if engine_accepts_input w then Ok w
     else match current_mode w with
          | STATE_LOADING | STATE_MAIN_MENU => Raise SystemExit
          | _ => Ok (set_mode STATE_MAIN_MENU w)
          end) /\
  set_mode STATE_MAIN_MENU w =
    mkWorld
      (mkGameState empty_grid 0 false None None None (piece_bag (game_state w)))
      STATE_MAIN_MENU (previous_time w) (time_accumulator_fall w) (random_state w).
Proof.
  split; [|done]. unfold keyboard.
  assert (Hp : key_in ESC ["p"; "P"]%char = false) by done.
  assert (Hw : key_in ESC ["w"; "W"; "a"; "A"; "s"; "S"; "d"; "D"]%char = false) by done.
  assert (Hq : key_in ESC ["q"; "Q"]%char = false) by done.
  assert (He : key_in ESC ["e"; "E"]%char = false) by done.
  assert (Hr : key_in ESC ["r"; "R"]%char = false) by done.
  assert (Hs : bool_decide (ESC = " "%char) = false) by done.
  rewrite Hp, Hw, Hq, He, Hr, Hs. cbn [andb]. rewrite !andb_false_r. cbn [andb].
  destruct (engine_accepts_input w).
  - cbn [mbind result_bind]. by rewrite set_game_state_same.
  - rewrite (bool_decide_eq_true_2 (ESC = ESC)) by done. by destruct (current_mode w).
Qed.

Lemma finished_dispatch (fuel : nat) (v : CameraView) (e : Event) (w : @World Rng) :
  current_mode w = STATE_PLAYING -> game_over (game_state w) = true ->
  (forall key, e <> Key key) ->
  exists t, dispatch fuel v e w = Ok (set_previous_time t w).
Proof.
  intros Hmode Hover He. destruct e as [key|key|now|elapsed]; cbn [dispatch].
  - by destruct (He key).
  - exists (previous_time w). rewrite set_previous_time_same.
    unfold special_keys, engine_accepts_input. by rewrite Hover, andb_false_r.
  - exists now. unfold game_loop. cbn [current_mode game_state set_previous_time].
    by rewrite Hover, andb_false_r.
  - exists (previous_time w). rewrite set_previous_time_same.
    unfold display_main_menu. rewrite Hmode.
    by rewrite (bool_decide_eq_false_2 (STATE_PLAYING = STATE_MAIN_MENU)).
Qed.

Lemma hard_drop_key_mode (fuel : nat) (v : CameraView) (w w1 : @World Rng) :
  current_mode w = STATE_PLAYING -> game_over (game_state w) = false ->
  keyboard fuel v " "%char w = Ok w1 -> current_mode w1 = STATE_PLAYING.
Proof.
  intros Hmode Hover Hrun.
  unfold keyboard, engine_accepts_input in Hrun. rewrite Hmode, Hover in Hrun.
  rewrite (key_in_false " "%char ["p"; "P"]%char) in Hrun by set_solver.
  rewrite (bool_decide_eq_true_2 (STATE_PLAYING = STATE_PLAYING)) in Hrun by done.
  rewrite (bool_decide_eq_true_2 (" "%char = " "%char)) in Hrun by done.
  rewrite (bool_decide_eq_false_2 (" "%char = ESC)) in Hrun by done.
  cbn [andb negb] in Hrun.
  destruct (bool_decide (is_Some (current_piece (game_state w)))).
  - bind_inv_as Hrun [gs r]. by injection Hrun as <-.
  - by injection Hrun as <-.
Qed.

Lemma finished_key (fuel : nat) (v : CameraView) (key : ascii) (w : @World Rng) :
  current_mode w = STATE_PLAYING -> game_over (game_state w) = true ->
  key ∉ ["p"; "P"; ESC]%char ->
  keyboard fuel v key w = Ok (set_mode STATE_GAME_OVER w).
Proof.
  intros Hmode Hover Hkey.
  assert (Hp : key ∉ ["p"; "P"]%char) by set_solver.
  assert (Hesc : key <> ESC) by set_solver.
  unfold keyboard, engine_accepts_input.
  rewrite Hmode, Hover, (key_in_false _ _ Hp). cbn [andb negb].
  rewrite !andb_false_r. cbn [andb].
  by rewrite (bool_decide_eq_false_2 _ Hesc).
Qed.

(** *** Steps of the move keys *)

Ltac in_list := repeat first [apply list_elem_of_here | apply list_elem_of_further].

Lemma move_zero (t : Tetromino) : move 0 0 0 t = t.
Proof. destruct t as [sh [[px py] pz] col]. unfold move. cbn. by rewrite !Z.add_0_r. Qed.

(** X8: a W/A/S/D key moves the current piece by at most one cell, along
    one horizontal axis: whatever the camera and whatever collides, the
    piece afterwards is the piece before displaced by (0,0,0), (1,0,0),
    (-1,0,0), (0,0,1) or (0,0,-1) (the second attempt along the other axis
    included), and nothing else in the world has changed. *)
Theorem handle_wasd_one_cell (v : CameraView) (key : ascii) (w w' : @World Rng)
    (p : Tetromino) :
  current_piece (game_state w) = Some p ->
  handle_wasd v key w = Ok w' ->
  exists dx dz,
    (dx, dz) ∈ [(0, 0); (1, 0); (-1, 0); (0, 1); (0, -1)] /\
    w' = set_game_state (set_current_piece (Some (move dx 0 dz p)) (game_state w)) w.
Proof.
  intros Hp Hrun.
  assert (Hsame : w = set_game_state (set_current_piece (Some (move 0 0 0 p)) (game_state w)) w).
  { rewrite move_zero. destruct w as [gs ? ? ? ?]. cbn in *. f_equal.
    destruct gs. cbn in *. by subst. }
  unfold handle_wasd in Hrun.
  destruct (_ || _ || _); [injection Hrun as <-; exists 0, 0; split; [in_list|done]|].
  cbv zeta in Hrun.
  destruct (if bool_decide (lower key = "w"%char) then _ else _) as [mx mz] eqn:Hdir.
  assert (Hm : (mx, mz) ∈ [(0, 0); (1, 0); (-1, 0); (0, 1); (0, -1)]).
  { repeat match type of Hdir with
           | context [if ?c then _ else _] => destruct c
           end; injection Hdir as <- <-; cbn; in_list. }
  destruct (negb (mx =? 0) || negb (mz =? 0)) eqn:Hnz;
    [|injection Hrun as <-; exists 0, 0; split; [in_list|done]].
  assert (Hcur : the_current_piece (game_state w) = Ok p)
    by (unfold the_current_piece; by rewrite Hp).
  rewrite Hcur in Hrun.
  cbn [mbind result_bind the_current_piece current_piece set_current_piece] in Hrun.
  bind_inv_as Hrun collides. destruct collides.
  - replace (move (- mx) 0 (- mz) (move mx 0 mz p)) with p in Hrun
      by (symmetry; apply (move_inverse mx 0 mz)).
    bind_inv_as Hrun gs. injection Hrun as <-.
    unfold move_or_revert in E0. cbn [the_current_piece current_piece set_current_piece
      mbind result_bind] in E0.
    bind_inv_as E0 collides. destruct collides; injection E0 as <-.
    + match goal with
      | |- context [move (- ?ax) 0 (- ?az) (move ?ax 0 ?az p)] =>
          replace (move (- ax) 0 (- az) (move ax 0 az p)) with p
            by (symmetry; apply (move_inverse ax 0 az))
      end.
      exists 0, 0. split; [in_list|].
      rewrite move_zero. destruct w as [gs ? ? ? ?]. cbn in *. f_equal.
    + eexists _, _. split; [|destruct w as [gs ? ? ? ?]; cbn in *; f_equal].
      repeat (apply elem_of_cons in Hm as [[= -> ->] | Hm]);
        [..|by apply elem_of_nil in Hm]; try done;
        cbn; destruct (forward_x_positive v), (forward_z_positive v); in_list.
  - injection Hrun as <-. by exists mx, mz.
Qed.
(** *** Blocks are conserved *)

Lemma cells_of_layers (g : Grid) :
  mjoin (mjoin (layers g)) = grid_cell g <$> all_cells.
Proof. vm_compute. reflexivity. Qed.

Lemma blocks_layers (g : Grid) : blocks g = blocks_in (layers g).
Proof.
  unfold blocks, blocks_in. rewrite cells_of_layers, filter_fmap_comm.
  by rewrite length_fmap.
Qed.

Lemma blocks_in_app ls1 ls2 : blocks_in (ls1 ++ ls2) = (blocks_in ls1 + blocks_in ls2)%nat.
Proof.
  unfold blocks_in. rewrite !join_app, filter_app. apply length_app.
Qed.

Lemma blocks_in_cons l ls : blocks_in (l :: ls) = (blocks_in [l] + blocks_in ls)%nat.
Proof. apply (blocks_in_app [l] ls). Qed.

Lemma blocks_in_empty n : blocks_in (replicate n empty_layer) = 0%nat.
Proof.
  induction n as [|n IH]; [done|]. cbn [replicate]. rewrite blocks_in_cons, IH.
  reflexivity.
Qed.

Lemma filter_all {A} (p : A -> bool) (l : list A) :
  forallb p l = true -> filter (fun a => p a) l = l.
Proof.
  induction l as [|a l IH]; [done|]. cbn [forallb]. intros [Ha Hl]%andb_true_iff.
  rewrite filter_cons_True by (by apply Is_true_true). by rewrite IH.
Qed.

Lemma filter_join_all {A} (p : A -> bool) (l : list (list A)) :
  forallb (forallb p) l = true -> filter (fun a => p a) (mjoin l) = mjoin l.
Proof.
  induction l as [|row l IH]; [done|]. cbn [forallb].
  intros [Hrow Hl]%andb_true_iff. change (mjoin (row :: l)) with (row ++ mjoin l).
  by rewrite filter_app, (filter_all _ _ Hrow), IH.
Qed.

Lemma blocks_in_full (l : list (list Cell)) :
  layer_full l = true -> blocks_in [l] = length (mjoin l).
Proof.
  intros Hfull. unfold blocks_in. change (mjoin [l]) with (l ++ []).
  by rewrite app_nil_r, (filter_join_all occupied l Hfull).
Qed.

Lemma blocks_in_split (ls : list (list (list Cell))) :
  Forall (fun l => length (mjoin l) = 64%nat) ls ->
  blocks_in ls =
  (blocks_in (filter (fun l => ~ layer_full l) ls) + 64 * count_full ls)%nat.
Proof.
  unfold count_full. induction 1 as [|l ls Hl _ IH]; [done|].
  rewrite blocks_in_cons, IH. destruct (layer_full l) eqn:Hfull.
  - rewrite filter_cons_False by (cbv beta; rewrite Hfull; naive_solver).
    rewrite filter_cons_True by (cbv beta; rewrite Hfull; naive_solver).
    rewrite (blocks_in_full l Hfull), Hl. cbn [length]. lia.
  - rewrite filter_cons_True by (cbv beta; rewrite Hfull; naive_solver).
    rewrite filter_cons_False by (cbv beta; rewrite Hfull; naive_solver).
    rewrite (blocks_in_cons l (filter _ ls)). lia.
Qed.

Lemma layers_cells (g : Grid) :
  Forall (fun l => length (mjoin l) = 64%nat) (layers g).
Proof.
  unfold layers. apply Forall_fmap, Forall_forall. intros y _. reflexivity.
Qed.

Lemma count_full_not_full (ls : list (list (list Cell))) :
  count_full (filter (fun l => ~ layer_full l) ls) = 0%nat.
Proof.
  unfold count_full. induction ls as [|l ls IH]; [done|].
  destruct (layer_full l) eqn:Hfull.
  - by rewrite filter_cons_False by (cbv beta; rewrite Hfull; naive_solver).
  - rewrite filter_cons_True by (cbv beta; rewrite Hfull; naive_solver).
    by rewrite filter_cons_False by (cbv beta; rewrite Hfull; naive_solver).
Qed.

Lemma count_full_empty n : count_full (replicate n empty_layer) = 0%nat.
Proof. unfold count_full. induction n as [|n IH]; [done|]. cbn [replicate]. done. Qed.

Lemma count_full_app ls1 ls2 :
  count_full (ls1 ++ ls2) = (count_full ls1 + count_full ls2)%nat.
Proof. unfold count_full. by rewrite filter_app, length_app. Qed.

Lemma clear_full_layers_blocks (g g' : Grid) (n : nat) :
  grid_wf g -> clear_full_layers g = Ok (g', n) ->
  n = length (full_layers g) /\ grid_wf g' /\ full_layers g' = [] /\
  layers g' =
    filter (fun l => ~ layer_full l) (layers g) ++ replicate n empty_layer /\
  (blocks g' + 64 * n = blocks g)%nat.
Proof.
  intros Hwf Hrun. destruct (clear_full_layers_terminates g Hwf) as (g1 & Hrun1 & Hwf' & Hl).
  rewrite Hrun in Hrun1. injection Hrun1 as <- ->.
  split; [apply count_full_layers|]. split; [done|]. split; [|split; [done|]].
  - apply length_zero_iff_nil. rewrite <- count_full_layers, Hl, count_full_app.
    by rewrite count_full_not_full, count_full_empty.
  - rewrite !blocks_layers, Hl, blocks_in_app, blocks_in_empty.
    rewrite (blocks_in_split (layers g)) by apply layers_cells. lia.
Qed.

(** X9: the layer clearing in general.  On a grid of the playfield's
    dimensions the loop terminates and returns the number of full layers;
    afterwards no layer is full; the layers that were not full keep their
    order and move down to the bottom, and as many empty layers as were
    removed fill the top; every removed layer takes exactly 64 blocks out
    of the playfield and no other block is lost or added. *)
Theorem clear_removes_all_full_layers (g : Grid) :
  grid_wf g ->
  exists g',
    clear_full_layers g = Ok (g', length (full_layers g)) /\
    grid_wf g' /\
    full_layers g' = [] /\
    layers g' =
      (layer g <$> filter (fun y => y ∉ full_layers g) (seq 0 20))
      ++ replicate (length (full_layers g)) empty_layer /\
    (blocks g' + 64 * length (full_layers g) = blocks g)%nat.
Proof.
  intros Hwf. destruct (clear_full_layers_terminates g Hwf) as (g' & Hrun & _).
  destruct (clear_full_layers_blocks g g' _ Hwf Hrun) as (Hn & Hwf' & Hnone & Hl & Hb).
  rewrite Hn in Hrun, Hl, Hb. exists g'.
  split; [done|]. split; [done|]. split; [done|]. split; [|done].
  by rewrite <- not_full_layers.
Qed.

Lemma all_cells_NoDup : NoDup all_cells.
Proof. apply (bool_decide_unpack _). by vm_compute. Qed.

Lemma all_cells_in_bounds (c : Z * Z * Z) : c ∈ all_cells <-> in_bounds c.
Proof.
  destruct c as [[x y] z]. unfold all_cells. rewrite in_bounds_unfold. grid_size.
  rewrite list_elem_of_bind. split.
  - intros (y' & Hc & Hy). apply list_elem_of_bind in Hc as (x' & Hc & Hx).
    apply list_elem_of_bind in Hc as (z' & Hc & Hz).
    apply list_elem_of_singleton in Hc as [= -> -> ->].
    apply elem_of_seqZ in Hx, Hy, Hz. lia.
  - intros (Hx & Hy & Hz). exists y. split; [|apply elem_of_seqZ; lia].
    apply list_elem_of_bind. exists x. split; [|apply elem_of_seqZ; lia].
    apply list_elem_of_bind. exists z. split; [|apply elem_of_seqZ; lia].
    by apply list_elem_of_singleton.
Qed.

Lemma absolute_cell_inj (pos : Z * Z * Z) : Inj (=) (=) (absolute_cell pos).
Proof.
  intros [[x y] z] [[x' y'] z']. unfold absolute_cell. cbn.
  intros [= ? ? ?]. f_equal; [f_equal|]; lia.
Qed.

Lemma filter_whole {A} (P : A -> Prop) `{!forall a, Decision (P a)} (l : list A) :
  (forall a, a ∈ l -> P a) -> filter P l = l.
Proof.
  induction l as [|a l IH]; [done|]. intros Hl.
  rewrite filter_cons_True by (apply Hl; left). rewrite IH; [done|].
  intros b Hb. apply Hl. by right.
Qed.

Lemma filter_none {A} (P : A -> Prop) `{!forall a, Decision (P a)} (l : list A) :
  (forall a, a ∈ l -> ~ P a) -> filter P l = [].
Proof.
  induction l as [|a l IH]; [done|]. intros Hl.
  rewrite filter_cons_False by (apply Hl; left). apply IH.
  intros b Hb. apply Hl. by right.
Qed.

(** Writing one colour into cells that were empty adds as many blocks as
    there are such cells. *)
Lemma blocks_add (g g' : Grid) (cells : list (Z * Z * Z)) (col : Color) :
  NoDup cells ->
  (forall c, c ∈ cells -> in_bounds c /\ grid_cell g c = None) ->
  (forall c, grid_cell g' c = if bool_decide (c ∈ cells /\ in_bounds c)
                              then Some col else grid_cell g c) ->
  blocks g' = (blocks g + length cells)%nat.
Proof.
  intros Hnd Hfree Hg'. unfold blocks.
  assert (Hperm : all_cells ≡ₚ cells ++ list_difference all_cells cells).
  { apply NoDup_Permutation; [apply all_cells_NoDup| |].
    - apply NoDup_app. split; [done|]. split.
      + intros c Hc Hd. by apply list_elem_of_difference in Hd as [_ ?].
      + apply NoDup_list_difference, all_cells_NoDup.
    - intros c. rewrite elem_of_app, list_elem_of_difference. split.
      + intros Hc. destruct (decide (c ∈ cells)); [by left|by right].
      + intros [Hc|[Hc _]]; [|done]. apply all_cells_in_bounds. by apply Hfree. }
  rewrite !Hperm, !filter_app, !length_app.
  rewrite (filter_whole (fun c => occupied (grid_cell g' c)) cells).
  2:{ intros c Hc. rewrite Hg'. destruct (Hfree c Hc) as [Hin _].
      by rewrite bool_decide_eq_true_2. }
  rewrite (filter_none (fun c => occupied (grid_cell g c)) cells).
  2:{ intros c Hc. destruct (Hfree c Hc) as [_ ->]. by intros []. }
  rewrite (filter_ext_elem (fun c => occupied (grid_cell g' c))
             (fun c => occupied (grid_cell g c)) (list_difference _ _)).
  2:{ intros c [_ Hc]%list_elem_of_difference. rewrite Hg'.
      rewrite bool_decide_eq_false_2; [done|]. by intros [? _]. }
  cbn [length]. lia.
Qed.

Lemma collision_free_cells (g : Grid) (pos : Z * Z * Z) (sh : list Offset) :
  grid_wf g -> collision_scan g pos sh = Ok false ->
  forall c, c ∈ (absolute_cell pos <$> sh) -> in_bounds c /\ grid_cell g c = None.
Proof.
  intros Hwf Hscan c (o & -> & Ho)%list_elem_of_fmap.
  destruct (collision_scan_spec g pos sh Hwf) as (b & Hb & Hiff).
  rewrite Hscan in Hb. injection Hb as <-.
  destruct (decide (in_bounds (absolute_cell pos o))) as [Hin|Hout].
  - split; [done|]. destruct (grid_cell g (absolute_cell pos o)) eqn:Hc; [|done].
    assert (false = true); [|done]. apply Hiff. exists o. split; [done|]. right.
    by rewrite Hc.
  - assert (false = true); [|done]. apply Hiff. exists o. split; [done|]. by left.
Qed.

(** X10: blocks are neither lost nor made.  Locking a free piece whose
    offsets are distinct, in a session state, leaves in the playfield the
    blocks that were there, plus one per cell of the piece, minus 64 for
    each layer cleared; no full layer remains, and the score has grown by
    10 per cell plus the bonus for the layers cleared. *)
Theorem lock_conserves_blocks (r : Rng) (s : GameState) (p : Tetromino) :
  engine_inv s ->
  current_piece s = Some p ->
  check_collision s (position p) = Ok false ->
  NoDup (shape p) ->
  exists s' r' n,
    lock_piece_and_clear r s = Ok (s', r') /\
    (blocks (grid s') + 64 * n = blocks (grid s) + length (shape p))%nat /\
    full_layers (grid s') = [] /\
    score s' = score s + 10 * Z.of_nat (length (shape p)) + layer_bonus n.
Proof.
  intros Hinv Hp Hfree Hnd. pose proof Hinv as (Hwf & Hbag & _ & Hnext).
  destruct (Hnext (ltac:(by eexists))) as [q Hq].
  destruct (lock_piece_and_clear_spec r s p q Hwf Hbag Hp Hq)
    as (g1 & g2 & bag' & k & sh & col & b & Hlock & Hwf1 & Hclear & Hwf2 & _ & _ & _
        & _ & Hrun).
  destruct (clear_full_layers_blocks g1 g2 _ Hwf1 Hclear) as (_ & _ & Hnone & _ & Hb).
  unfold check_collision, the_current_piece in Hfree. rewrite Hp in Hfree.
  cbn [mbind result_bind] in Hfree.
  destruct (lock_loop_spec (position p) (color p) (shape p) (grid s) Hwf)
    as (g1' & Hlock' & _ & Hcells).
  unfold lock_cells in Hlock. rewrite Hlock in Hlock'. injection Hlock' as <-.
  pose proof (blocks_add (grid s) g1 (absolute_cell (position p) <$> shape p) (color p)
                (NoDup_fmap_2 (Inj0 := absolute_cell_inj (position p)) _ _ Hnd)
                (collision_free_cells _ _ _ Hwf Hfree) Hcells) as Hadd.
  rewrite length_fmap in Hadd.
  eexists _, _, (count_full (layers g1)). split; [exact Hrun|].
  cbn [grid score]. split; [lia|]. split; [done|].
  rewrite update_score_spec. lia.
Qed.
(** *** The hard drop and the landing indicator *)

Lemma move_down (p : Tetromino) :
  move 0 (-1) 0 p = set_position ((position p).1.1, (position p).1.2 - 1, (position p).2) p.
Proof.
  destruct p as [sh [[px py] pz] col]. unfold move, set_position. cbn.
  by rewrite !Z.add_0_r.
Qed.

Lemma collides_at_scan (y : Z) (s : GameState) (p : Tetromino) :
  current_piece s = Some p ->
  collides_at y s = collision_scan (grid s) ((position p).1.1, y, (position p).2) (shape p).
Proof.
  intros Hp. unfold collides_at, check_collision, the_current_piece. by rewrite Hp.
Qed.

Lemma collides_at_total (y : Z) (s : GameState) (p : Tetromino) :
  grid_wf (grid s) -> current_piece s = Some p -> exists b, collides_at y s = Ok b.
Proof.
  intros Hwf Hp. rewrite (collides_at_scan y s p Hp).
  destruct (collision_scan_spec (grid s) ((position p).1.1, y, (position p).2)
              (shape p) Hwf) as (b & Hb & _).
  by exists b.
Qed.

Lemma at_height_same (s : GameState) (p : Tetromino) :
  current_piece s = Some p -> at_height (position p).1.2 s = s.
Proof.
  intros Hp. unfold at_height. rewrite Hp. destruct s, p as [sh [[px py] pz] col].
  cbn in *. by subst.
Qed.

Lemma at_height_at_height (y y' : Z) (s : GameState) :
  at_height y (at_height y' s) = at_height y s.
Proof.
  unfold at_height. destruct (current_piece s) eqn:Hc; cbn; [done|by rewrite Hc].
Qed.

Lemma collides_at_at_height (y y' : Z) (s : GameState) :
  collides_at y (at_height y' s) = collides_at y s.
Proof.
  unfold collides_at, at_height, check_collision, the_current_piece.
  destruct (current_piece s) eqn:Hc; cbn; rewrite ?Hc; done.
Qed.

(** One iteration of the [while True] of the hard drop. *)
Lemma hard_drop_step (fuel : nat) (r : Rng) (s : GameState) (p : Tetromino) :
  current_piece s = Some p ->
  hard_drop (S fuel) r s =
  (collides ← collides_at ((position p).1.2 - 1) s;
   if collides : bool then lock_piece_and_clear r s
   else hard_drop fuel r (at_height ((position p).1.2 - 1) s)).
Proof.
  intros Hp.
  assert (Hcur : the_current_piece s = Ok p)
    by (unfold the_current_piece; by rewrite Hp).
  cbn [hard_drop]. unfold collides_at, check_collision, at_height.
  rewrite Hp, !Hcur. cbn [mbind result_bind].
  cbn [the_current_piece current_piece set_current_piece mbind result_bind grid].
  rewrite shape_move, move_down. cbn [position set_position shape].
  destruct (collision_scan _ _ _) as [[]| |]; cbn [mbind result_bind]; try done.
  f_equal. destruct s, p as [sh [[px py] pz] col]. cbn in *. by subst.
Qed.

(** The cell of an offset is below the floor once the anchor is low enough. *)
Lemma collides_below_floor (y : Z) (s : GameState) (p : Tetromino) (o : Offset) :
  grid_wf (grid s) -> current_piece s = Some p -> o ∈ shape p ->
  y + o.1.2 < 0 -> collides_at y s = Ok true.
Proof.
  intros Hwf Hp Ho Hy. rewrite (collides_at_scan y s p Hp).
  destruct (collision_scan_spec (grid s) ((position p).1.1, y, (position p).2)
              (shape p) Hwf) as (b & Hb & Hiff).
  rewrite Hb. f_equal. apply Hiff. exists o. split; [done|]. left.
  destruct o as [[ox oy] oz]. cbn in Hy. unfold absolute_cell, in_bounds.
  cbn. grid_size. lia.
Qed.

Lemma hard_drop_descends (n : nat) (r : Rng) (s : GameState) (p : Tetromino) (o : Offset) :
  grid_wf (grid s) -> current_piece s = Some p -> o ∈ shape p ->
  (position p).1.2 + o.1.2 < Z.of_nat n ->
  exists h,
    rests_at h s /\
    forall fuel, (position p).1.2 - h < Z.of_nat fuel ->
      hard_drop fuel r s = lock_piece_and_clear r (at_height h s).
Proof.
  revert s p. induction n as [|n IH]; intros s p Hwf Hp Ho Hn.
  - exists (position p).1.2. split.
    + exists p. split; [done|]. split; [lia|]. split; [intros t ?; lia|].
      apply (collides_below_floor _ s p o); [done..|lia].
    + intros [|fuel] Hfuel; [lia|]. rewrite (hard_drop_step fuel r s p Hp).
      rewrite (collides_below_floor _ s p o) by (done || lia).
      cbn [mbind result_bind]. by rewrite at_height_same.
  - destruct (collides_at_total ((position p).1.2 - 1) s p Hwf Hp) as [[] Hb].
    + exists (position p).1.2. split.
      * exists p. split; [done|]. split; [lia|]. split; [intros t ?; lia|done].
      * intros [|fuel] Hfuel; [lia|]. rewrite (hard_drop_step fuel r s p Hp), Hb.
        cbn [mbind result_bind]. by rewrite at_height_same.
    + set (s1 := at_height ((position p).1.2 - 1) s).
      set (p1 := set_position ((position p).1.1, (position p).1.2 - 1, (position p).2) p).
      assert (Hp1 : current_piece s1 = Some p1)
        by (subst s1 p1; unfold at_height; by rewrite Hp).
      assert (Hwf1 : grid_wf (grid s1))
        by (subst s1; unfold at_height; by rewrite Hp).
      destruct (IH s1 p1 Hwf1 Hp1 Ho) as (h & (p1' & Hp1' & Hle & Hfree & Hcol) & Hdrop).
      { subst p1. cbn. lia. }
      rewrite Hp1 in Hp1'. injection Hp1' as <-. subst p1. cbn [position set_position fst snd] in *.
      exists h. split.
      * exists p. split; [done|]. split; [lia|]. split.
        -- intros t Ht. destruct (decide (t = (position p).1.2 - 1)) as [->|Hne]; [done|].
           rewrite <- (collides_at_at_height t ((position p).1.2 - 1) s).
           apply Hfree. lia.
        -- by rewrite <- (collides_at_at_height (h - 1) ((position p).1.2 - 1) s).
      * intros [|fuel] Hfuel; [lia|]. rewrite (hard_drop_step fuel r s p Hp), Hb.
        cbn [mbind result_bind]. fold s1. rewrite Hdrop by lia.
        subst s1. by rewrite at_height_at_height.
Qed.

Lemma rests_at_unique (h h' : Z) (s : GameState) :
  rests_at h s -> rests_at h' s -> h = h'.
Proof.
  intros (p & Hp & Hle & Hfree & Hcol) (p' & Hp' & Hle' & Hfree' & Hcol').
  rewrite Hp in Hp'. injection Hp' as <-.
  destruct (Z.lt_trichotomy h h') as [Hlt|[Heq|Hgt]]; [|done|].
  - specialize (Hfree (h' - 1)). rewrite Hcol' in Hfree.
    assert (Ok true = Ok false) by (apply Hfree; lia). done.
  - specialize (Hfree' (h - 1)). rewrite Hcol in Hfree'.
    assert (Ok true = Ok false) by (apply Hfree'; lia). done.
Qed.

(** X11: the hard drop terminates and locks the piece at the lowest height
    it can reach by falling.  For a current piece with at least one offset,
    in a session state, there is a height [h] at or below the piece such
    that the piece is free at every height from [h] up to where it is and
    collides at [h - 1]; as soon as the loop is given more iterations than
    the distance to [h], the hard drop is the lock of the piece put at
    height [h]: it returns, the last piece is the piece at [h] (same X, Z,
    shape and colour), and the queued piece has become the current one. *)
Theorem hard_drop_locks_at_lowest (r : Rng) (s : GameState) (p : Tetromino) :
  engine_inv s -> current_piece s = Some p -> shape p <> [] ->
  exists h,
    rests_at h s /\
    forall fuel, (position p).1.2 - h < Z.of_nat fuel ->
      exists s' r',
        hard_drop fuel r s = Ok (s', r') /\
        hard_drop fuel r s = lock_piece_and_clear r (at_height h s) /\
        last_piece s' = Some (set_position ((position p).1.1, h, (position p).2) p) /\
        current_piece s' = next_piece s.
Proof.
  intros Hinv Hp Hsh. pose proof Hinv as (Hwf & Hbag & _ & Hnext).
  destruct (shape p) as [|o sh] eqn:Hshape; [done|].
  destruct (hard_drop_descends (Z.to_nat (Z.max 0 ((position p).1.2 + o.1.2 + 1)))
              r s p o Hwf Hp) as (h & Hrest & Hdrop); [rewrite Hshape; left|lia|].
  exists h. split; [done|]. intros fuel Hfuel. rewrite (Hdrop fuel Hfuel).
  destruct (Hnext (ltac:(by eexists))) as [q Hq].
  set (p' := set_position ((position p).1.1, h, (position p).2) p).
  assert (Hp' : current_piece (at_height h s) = Some p')
    by (unfold at_height; by rewrite Hp).
  destruct (lock_piece_and_clear_spec r (at_height h s) p' q)
    as (g1 & g2 & bag' & k & sh' & col & b & _ & _ & _ & _ & _ & _ & _ & _ & Hrun);
    try (unfold at_height; by rewrite Hp).
  rewrite Hrun. eexists _, _. split; [done|]. split; [done|]. by cbn.
Qed.

Lemma landing_loop_spec (fuel : nat) (s : GameState) (p : Tetromino) (h t : Z) :
  grid_wf (grid s) -> current_piece s = Some p ->
  h <= t ->
  (forall u, h <= u < t -> collides_at u s = Ok false) ->
  collides_at (h - 1) s = Ok true ->
  (Z.to_nat t < fuel)%nat ->
  landing_loop fuel s ((position p).1.1, t, (position p).2) = Ok (s, Z.max 0 h).
Proof.
  intros Hwf Hp. revert t. induction fuel as [|fuel IH]; intros t Hle Hfree Hcol Hfuel;
    [lia|].
  assert (Hcur : the_current_piece s = Ok p)
    by (unfold the_current_piece; by rewrite Hp).
  assert (Hscan : forall y,
            check_collision
              (set_current_piece
                 (Some (set_position ((position p).1.1, y, (position p).2) p)) s)
              ((position p).1.1, y, (position p).2) = collides_at y s).
  { intros y. rewrite (collides_at_scan y s p Hp). unfold check_collision. by cbn. }
  assert (Hback : forall y,
            set_current_piece
              (Some (set_position (position p)
                       (set_position ((position p).1.1, y, (position p).2) p)))
              (set_current_piece
                 (Some (set_position ((position p).1.1, y, (position p).2) p)) s) = s).
  { intros y. destruct s, p as [sh [[px py] pz] col]. cbn in *. by subst. }
  cbn [landing_loop fst snd]. destruct (Z.gtb_spec t 0) as [Hpos|Hneg].
  - rewrite Hcur. cbn [mbind result_bind]. rewrite Hscan.
    destruct (decide (h = t)) as [->|Hne].
    + rewrite Hcol. cbn [mbind result_bind the_current_piece current_piece
        set_current_piece].
      rewrite Hback. do 2 f_equal. lia.
    + rewrite Hfree by lia.
      cbn [mbind result_bind the_current_piece current_piece set_current_piece].
      rewrite Hback. apply IH; [lia| |done|lia]. intros u Hu. apply Hfree. lia.
  - do 2 f_equal. lia.
Qed.

(** X12: the landing indicator shows where the hard drop will lock the
    piece.  If the current piece rests at height [h] (it is free from [h]
    up to where it is and collides at [h - 1], which is where X11 shows the
    hard drop to lock it), [find_landing_position] returns [h], or 0 if [h]
    is negative: the search never looks below height 0.  The loop ends
    within the iterations that the height of the piece allows, and the game
    state is as before (the piece is back at its position). *)
Theorem landing_indicator_shows_hard_drop (s : GameState) (h : Z) :
  grid_wf (grid s) -> rests_at h s ->
  find_landing_position s = Ok (s, Z.max 0 h).
Proof.
  intros Hwf (p & Hp & Hle & Hfree & Hcol). unfold find_landing_position. rewrite Hp.
  replace (position p) with ((position p).1.1, (position p).1.2, (position p).2) at 2
    by (by destruct (position p) as [[? ?] ?]).
  by apply (landing_loop_spec _ s p h); [..|lia].
Qed.
(** *** The playfield and the score in a session *)

Lemma board_kept_inv (s s' : GameState) : board_kept s s' -> board_inv s -> board_inv s'.
Proof. intros [Hg Hs]. unfold board_inv. by rewrite Hg, Hs. Qed.

Lemma board_kept_refl (s : GameState) : board_kept s s.
Proof. done. Qed.

Lemma board_inv_empty (s : GameState) :
  grid s = empty_grid -> score s = 0 -> board_inv s.
Proof. intros Hg Hs. split; [by rewrite Hg|]. exists 0. split; [done|]. by rewrite Hs. Qed.

Lemma layer_bonus_tens (n : nat) : exists k, 0 <= k /\ layer_bonus n = 10 * k.
Proof.
  destruct n as [|[|[|[|[|n]]]]].
  - by exists 0.
  - by exists 10.
  - by exists 30.
  - by exists 50.
  - by exists 80.
  - exists (10 * Z.of_nat (S (S (S (S (S n)))))). unfold layer_bonus. lia.
Qed.

Lemma move_or_revert_board dx dz bx bz (s s' : GameState) :
  move_or_revert dx dz bx bz s = Ok s' -> board_kept s s'.
Proof.
  unfold move_or_revert. intros Hrun. bind_inv Hrun. bind_inv Hrun. bind_inv Hrun.
  destruct a1; by injection Hrun as <-.
Qed.

Lemma rotate_or_restore_board n axis (s s' : GameState) :
  rotate_or_restore n axis s = Ok s' -> board_kept s s'.
Proof.
  unfold rotate_or_restore. intros Hrun. bind_inv Hrun. bind_inv Hrun.
  bind_inv Hrun. bind_inv Hrun. destruct a2; by injection Hrun as <-.
Qed.

Lemma handle_wasd_board (v : CameraView) (key : ascii) (w w' : @World Rng) :
  handle_wasd v key w = Ok w' -> board_kept (game_state w) (game_state w').
Proof.
  unfold handle_wasd. intros Hrun.
  destruct (negb _ || _ || _); [by injection Hrun as <-|].
  match type of Hrun with context [let '(_, _) := ?e in _] => destruct e as [mx mz] end.
  destruct (negb (mx =? 0) || negb (mz =? 0)); [|by injection Hrun as <-].
  bind_inv Hrun. bind_inv Hrun. bind_inv Hrun. destruct a1.
  - bind_inv Hrun. injection Hrun as <-. by apply move_or_revert_board in E2.
  - by injection Hrun as <-.
Qed.

Lemma special_keys_board (v : CameraView) (key : Z) (w w' : @World Rng) :
  special_keys v key w = Ok w' -> board_kept (game_state w) (game_state w').
Proof.
  unfold special_keys. intros Hrun.
  destruct (engine_accepts_input w); [|by injection Hrun as <-].
  bind_inv Hrun. injection Hrun as <-. cbn [game_state set_game_state].
  repeat (destruct (key =? _); [by (injection E as <-) || by eapply move_or_revert_board|]).
  by injection E as <-.
Qed.

Lemma spawn_board (r r' : Rng) (s s' : GameState) :
  spawn_new_piece r s = Ok (s', r') -> board_kept s s'.
Proof.
  intros Hrun. apply spawn_inv in Hrun
    as (ks & cur & b & _ & _ & _ & _ & _ & _ & _ & _ & _ & Hg & Hs & _).
  done.
Qed.

Lemma lock_board (r r' : Rng) (s s' : GameState) :
  engine_inv s -> board_inv s -> lock_piece_and_clear r s = Ok (s', r') -> board_inv s'.
Proof.
  intros Hinv [_ (k & Hk & Hscore)] Hrun. pose proof Hinv as (Hwf & Hbag & _ & Hnext).
  assert (Hp : exists p, current_piece s = Some p).
  { unfold lock_piece_and_clear in Hrun. bind_inv_as Hrun p.
    exists p. by apply the_current_piece_inv. }
  destruct Hp as [p Hp]. destruct (Hnext (ltac:(by eexists))) as [q Hq].
  destruct (lock_piece_and_clear_spec r s p q Hwf Hbag Hp Hq)
    as (g1 & g2 & bag' & k' & sh & col & b & _ & Hwf1 & Hclear & _ & _ & _ & _ & _ & Hrun').
  rewrite Hrun in Hrun'. injection Hrun' as -> _.
  destruct (clear_full_layers_blocks g1 g2 _ Hwf1 Hclear) as (_ & _ & Hnone & _).
  split; [done|]. cbn [score]. rewrite update_score_spec, Hscore.
  destruct (layer_bonus_tens (count_full (layers g1))) as (kb & Hkb & ->).
  exists (k + kb + Z.of_nat (length (shape p))). lia.
Qed.

Lemma hard_drop_board (fuel : nat) (r r' : Rng) (s s' : GameState) :
  engine_inv s -> board_inv s -> hard_drop fuel r s = Ok (s', r') -> board_inv s'.
Proof.
  revert s. induction fuel as [|fuel IH]; intros s Hinv Hb Hrun; [done|].
  cbn [hard_drop] in Hrun. bind_inv_as Hrun p. bind_inv_as Hrun cur.
  bind_inv_as Hrun collides. apply the_current_piece_inv in E.
  pose proof (engine_inv_next _ _ Hinv E) as Hn. destruct collides.
  - apply lock_board in Hrun; [done| |done].
    apply engine_inv_set_current; [by apply engine_inv_set_current|done].
  - apply IH in Hrun; [done| |done]. by apply engine_inv_set_current.
Qed.

Lemma start_game_board (w w' : @World Rng) :
  start_game w = Ok w' -> board_inv (game_state w').
Proof.
  unfold start_game. intros Hrun. bind_inv_as Hrun [gs r]. injection Hrun as <-.
  apply spawn_board in E as [Hg Hs]. by apply board_inv_empty.
Qed.

Lemma gravity_step_board (w w' : @World Rng) :
  engine_inv (game_state w) -> board_inv (game_state w) ->
  gravity_step w = Ok w' -> board_inv (game_state w').
Proof.
  unfold gravity_step. intros Hinv Hb Hrun.
  destruct (current_piece (game_state w)) as [p|] eqn:Hp; [|by injection Hrun as <-].
  pose proof (engine_inv_next _ _ Hinv Hp) as Hn.
  bind_inv_as Hrun cur. bind_inv_as Hrun collides. destruct collides.
  - bind_inv_as Hrun [gs r]. apply lock_board in E1; [|
      apply engine_inv_set_current; [by apply engine_inv_set_current|done]|done].
    injection Hrun as <-. by destruct (game_over gs).
  - by injection Hrun as <-.
Qed.

Lemma game_loop_board (now : Z) (w w' : @World Rng) :
  engine_inv (game_state w) -> board_inv (game_state w) ->
  game_loop now w = Ok w' -> board_inv (game_state w').
Proof.
  intros Hinv Hb. unfold game_loop. cbn [current_mode game_state set_previous_time].
  destruct (_ && _); [|by intros [= <-]].
  destruct (_ >=? _); [|by intros [= <-]].
  by apply gravity_step_board.
Qed.

Lemma keyboard_board (fuel : nat) (v : CameraView) (key : ascii) (w w' : @World Rng) :
  engine_inv (game_state w) -> board_inv (game_state w) ->
  keyboard fuel v key w = Ok w' -> board_inv (game_state w').
Proof.
  unfold keyboard. intros Hinv Hb Hrun.
  destruct (_ && _); [by injection Hrun as <-|].
  destruct (_ && _); [by injection Hrun as <-|].
  destruct (_ && _ && _ && _).
  { bind_inv_as Hrun [gs r]. injection Hrun as <-.
    by apply hard_drop_board in E. }
  destruct (engine_accepts_input w).
  { destruct (key_in key _).
    - eapply board_kept_inv; [|done]. by eapply handle_wasd_board.
    - bind_inv_as Hrun gs. injection Hrun as <-. eapply board_kept_inv; [|done].
      cbn [game_state set_game_state].
      repeat (destruct (key_in key _); [by eapply rotate_or_restore_board|]).
      by injection E as <-. }
  assert (Hmenu : board_inv (game_state (set_mode STATE_MAIN_MENU w)))
    by (by apply board_inv_empty).
  destruct (bool_decide (key = ESC)).
  { destruct (current_mode w); try done; by injection Hrun as <-. }
  destruct (current_mode w).
  - destruct (bool_decide _); by injection Hrun as <-.
  - destruct (key_in key _); [by apply start_game_board in Hrun|by injection Hrun as <-].
  - destruct (game_over (game_state w)); by injection Hrun as <-.
  - by injection Hrun as <-.
  - destruct (key_in key _); [by apply start_game_board in Hrun|by injection Hrun as <-].
Qed.

Lemma demo_reset_board (r r' : Rng) (s s' : GameState) :
  demo_reset r s = Ok (s', r') -> board_inv s'.
Proof.
  unfold demo_reset. intros Hrun. destruct (shuffle r _) as [bag r0].
  bind_inv_as Hrun [gs r1]. injection Hrun as <- _.
  apply spawn_board in E as [Hg Hs]. by apply board_inv_empty.
Qed.

Lemma demo_drop_board (fuel : nat) (s s' : GameState) :
  demo_drop fuel s = Ok s' -> board_kept s s'.
Proof.
  revert s. induction fuel as [|fuel IH]; intros s Hrun; [done|].
  cbn [demo_drop] in Hrun. bind_inv Hrun. bind_inv Hrun.
  destruct a0; [by injection Hrun as <-|]. by apply IH in Hrun.
Qed.

Lemma demo_random_move_board (fuel : nat) (r r' : Rng) (s s' : GameState) :
  engine_inv s -> board_inv s -> demo_random_move fuel r s = Ok (s', r') -> board_inv s'.
Proof.
  unfold demo_random_move. intros Hinv Hb Hrun.
  destruct (random_lt r _) as [[] r0]; [|by injection Hrun as <- _].
  destruct (randrange r0 3) as [[|[|[|choice]]] r1]; [| | |done].
  - destruct (randrange r1 4) as [i r2]. bind_inv_as Hrun [[dx dy] dz].
    bind_inv_as Hrun cur. bind_inv_as Hrun cur'. bind_inv_as Hrun collides.
    destruct collides; by injection Hrun as <- _.
  - destruct (randrange r1 3) as [i r2]. bind_inv_as Hrun axis.
    bind_inv_as Hrun cur. bind_inv_as Hrun t. by injection Hrun as <- _.
  - bind_inv_as Hrun gs. bind_inv_as Hrun cur.
    pose proof (demo_drop_engine_inv _ _ _ Hinv E) as Hinv1.
    apply demo_drop_board in E. apply the_current_piece_inv in E0.
    apply lock_board in Hrun; [done| |].
    + apply engine_inv_set_current; [done|]. by eapply engine_inv_next.
    + by apply (board_kept_inv s).
Qed.

Lemma demo_fall_board (elapsed : Z) (r r' : Rng) (s s' : GameState) :
  engine_inv s -> board_inv s -> demo_fall elapsed r s = Ok (s', r') -> board_inv s'.
Proof.
  unfold demo_fall. intros Hinv Hb Hrun.
  destruct (_ <? 16); [|by injection Hrun as <- _].
  bind_inv_as Hrun p. bind_inv_as Hrun cur. bind_inv_as Hrun collides.
  apply the_current_piece_inv in E. pose proof (engine_inv_next _ _ Hinv E) as Hn.
  destruct collides.
  - apply lock_board in Hrun; [done| |done].
    apply engine_inv_set_current; [by apply engine_inv_set_current|done].
  - by injection Hrun as <- _.
Qed.

Lemma display_main_menu_board (fuel : nat) (elapsed : Z) (w w' : @World Rng) :
  engine_inv (game_state w) -> board_inv (game_state w) ->
  display_main_menu fuel elapsed w = Ok w' -> board_inv (game_state w').
Proof.
  intros Hinv Hb. unfold display_main_menu.
  destruct (bool_decide _); [|by intros [= <-]]. intros Hrun.
  bind_inv_as Hrun [gs r]. bind_inv_as Hrun [gs2 r2]. injection Hrun as <-.
  cbn [game_state set_random_state set_game_state].
  assert (Hgs : engine_inv gs /\ board_inv gs).
  { destruct (current_piece (game_state w)).
    - by injection E as <- _.
    - split; [by apply demo_reset_engine_inv in E|by apply demo_reset_board in E]. }
  destruct Hgs as [Hinv1 Hb1].
  destruct (current_piece gs); [|by injection E0 as <- _].
  bind_inv_as E0 [gs3 r3]. bind_inv_as E0 [gs4 r4].
  pose proof (demo_random_move_engine_inv _ _ _ _ _ Hinv1 E1) as Hinv3.
  apply demo_random_move_board in E1; [|done..].
  apply demo_fall_board in E2; [|done..].
  destruct (game_over gs4).
  - by apply demo_reset_board in E0.
  - by injection E0 as <- _.
Qed.

Lemma dispatch_inv (fuel : nat) (v : CameraView) (e : Event) (w w' : @World Rng) :
  session_inv w -> dispatch fuel v e w = Ok w' -> session_inv w'.
Proof.
  intros Hs. destruct e; cbn [dispatch]; intros Hrun.
  - by eapply keyboard_inv.
  - by eapply special_keys_inv.
  - by eapply game_loop_inv.
  - by eapply display_main_menu_inv.
Qed.

Lemma dispatch_board (fuel : nat) (v : CameraView) (e : Event) (w w' : @World Rng) :
  engine_inv (game_state w) -> board_inv (game_state w) ->
  dispatch fuel v e w = Ok w' -> board_inv (game_state w').
Proof.
  intros Hinv Hb. destruct e; cbn [dispatch]; intros Hrun.
  - by eapply keyboard_board.
  - eapply board_kept_inv; [|done]. by eapply special_keys_board.
  - by eapply game_loop_board.
  - by eapply display_main_menu_board.
Qed.
(** *** The high-score table *)

Lemma insert_by_score_perm (e : ScoreEntry) (l : list ScoreEntry) :
  insert_by_score e l ≡ₚ e :: l.
Proof.
  induction l as [|e' l IH]; [done|]. cbn [insert_by_score].
  destruct (_ <? _); [|done]. rewrite IH. apply Permutation_swap.
Qed.

Lemma sort_by_score_desc_perm (l : list ScoreEntry) : sort_by_score_desc l ≡ₚ l.
Proof.
  unfold sort_by_score_desc. induction l as [|e l IH]; [done|].
  cbn [foldr]. by rewrite insert_by_score_perm, IH.
Qed.

Lemma insert_by_score_sorted (e : ScoreEntry) (l : list ScoreEntry) :
  StronglySorted by_score_desc l -> StronglySorted by_score_desc (insert_by_score e l).
Proof.
  induction 1 as [|e' l Hl IH Hall]; [repeat constructor|]. cbn [insert_by_score].
  destruct (Z.ltb_spec (entry_score e) (entry_score e')) as [Hlt|Hge].
  - constructor; [done|]. rewrite insert_by_score_perm.
    constructor; [unfold by_score_desc; lia|done].
  - constructor; [by constructor|]. constructor; [done|].
    eapply Forall_impl; [exact Hall|]. unfold by_score_desc. intros ?. lia.
Qed.

Lemma sort_by_score_desc_sorted (l : list ScoreEntry) :
  StronglySorted by_score_desc (sort_by_score_desc l).
Proof.
  unfold sort_by_score_desc. induction l as [|e l IH]; [constructor|].
  by apply insert_by_score_sorted.
Qed.

Lemma insert_by_score_filter (k : Z) (e : ScoreEntry) (l : list ScoreEntry) :
  StronglySorted by_score_desc l ->
  filter (fun a => entry_score a = k) (insert_by_score e l) =
  filter (fun a => entry_score a = k) (e :: l).
Proof.
  induction 1 as [|e' l Hl IH Hall]; [done|]. cbn [insert_by_score].
  destruct (Z.ltb_spec (entry_score e) (entry_score e')) as [Hlt|Hge]; [|done].
  rewrite (filter_cons _ e'), IH, !(filter_cons _ e), (filter_cons _ e').
  destruct (decide (entry_score e' = k)) as [He'|He'],
    (decide (entry_score e = k)) as [He|He]; try done. lia.
Qed.

(** The sort is stable: the entries of any one score are in the order they
    had before. *)
Lemma sort_by_score_desc_stable (k : Z) (l : list ScoreEntry) :
  filter (fun a => entry_score a = k) (sort_by_score_desc l) =
  filter (fun a => entry_score a = k) l.
Proof.
  induction l as [|e l IH]; [done|]. unfold sort_by_score_desc. cbn [foldr].
  rewrite insert_by_score_filter by apply sort_by_score_desc_sorted.
  rewrite !(filter_cons _ e). fold (sort_by_score_desc l). by rewrite IH.
Qed.

Lemma min_score_spec (l : list ScoreEntry) (m : Z) :
  min_score l = Some m ->
  (exists e, e ∈ l /\ entry_score e = m) /\ forall e, e ∈ l -> m <= entry_score e.
Proof.
  destruct l as [|e0 l]; [done|]. cbn [min_score]. intros [= <-].
  assert (Hgen : forall m0 (l0 : list ScoreEntry),
            let m := foldl (fun m e' => Z.min m (entry_score e')) m0 l0 in
            (m = m0 \/ exists e, e ∈ l0 /\ entry_score e = m) /\
            m <= m0 /\ forall e, e ∈ l0 -> m <= entry_score e).
  { intros m0 l0. revert m0. induction l0 as [|e l0 IH]; intros m0.
    - cbn. split; [by left|]. split; [done|]. by intros e []%elem_of_nil.
    - cbn [foldl]. destruct (IH (Z.min m0 (entry_score e))) as (Hin & Hle & Hall).
      split; [|split; [lia|]].
      + destruct Hin as [Heq|(e' & He' & Heq)].
        * destruct (Z.min_spec m0 (entry_score e)) as [[_ Hm]|[_ Hm]].
          -- left. by rewrite Heq.
          -- right. exists e. split; [left|]. by rewrite Heq.
        * right. exists e'. split; [by right|done].
      + intros e' [->|He']%elem_of_cons; [lia|by apply Hall]. }
  destruct (Hgen (entry_score e0) l) as (Hin & Hle & Hall). split.
  - destruct Hin as [Heq|(e & He & Heq)].
    + exists e0. split; [left|done].
    + exists e. split; [by right|done].
  - intros e [->|He]%elem_of_cons; [done|by apply Hall].
Qed.

Lemma add_score_accepts (date_str : String.string) (score : Z)
    (highscores : list ScoreEntry) :
  ((add_score date_str score highscores).1 = true <->
   (length highscores < 10)%nat \/
   exists e, e ∈ highscores /\ entry_score e < score) /\
  ((add_score date_str score highscores).1 = false ->
   (add_score date_str score highscores).2 = highscores /\
   (10 <= length highscores)%nat /\
   forall e, e ∈ highscores -> score <= entry_score e).
Proof.
  unfold add_score. change MAX_HIGHSCORES with 10%nat.
  destruct (Nat.ltb_spec (length highscores) 10) as [Hlt|Hge].
  { cbn. split; [split; [by left|done]|done]. }
  destruct (min_score highscores) as [m|] eqn:Hmin.
  2:{ destruct highscores; [cbn in Hge; lia|done]. }
  destruct (min_score_spec _ _ Hmin) as [(e0 & He0 & Hm) Hall].
  destruct (Z.ltb_spec m score) as [Hlt|Hle]; cbn.
  - split; [|done]. split; [|done]. intros _. right. exists e0. split; [done|lia].
  - split.
    + split; [done|]. intros [Hl|(e & He & Hs)]; [lia|]. specialize (Hall e He). lia.
    + intros _. split; [done|]. split; [done|]. intros e He. specialize (Hall e He). lia.
Qed.

(** X13: when a score enters the table.  [add_score] accepts a score iff
    the table holds fewer than ten entries or the score is higher than the
    score of some entry (a score equal to the lowest of ten is turned
    down); a score that is turned down leaves the table as it was. *)
Theorem add_score_accepts_iff (date_str : String.string) (score : Z)
    (highscores : list ScoreEntry) :
  ((add_score date_str score highscores).1 = true <->
   (length highscores < 10)%nat \/
   exists e, e ∈ highscores /\ entry_score e < score) /\
  ((add_score date_str score highscores).1 = false ->
   (add_score date_str score highscores).2 = highscores /\
   (10 <= length highscores)%nat /\
   forall e, e ∈ highscores -> score <= entry_score e).
Proof. apply add_score_accepts. Qed.

Lemma StronglySorted_take {A} (R : relation A) (n : nat) (l : list A) :
  StronglySorted R l -> StronglySorted R (take n l).
Proof.
  intros Hl. rewrite <- (take_drop n l) in Hl. by apply StronglySorted_app_1_l in Hl.
Qed.

(** X14: what the table holds after a score has been accepted.  It is in
    descending order of the scores; it holds one entry more than before, or
    ten if that would be more than ten; its entries, together with the
    entries that were cut off at the end, are the old entries and the new
    one, each as often as before; no entry that was cut off has a higher
    score than an entry that was kept; and entries of equal score are in
    the order they had in the old table, the new entry after them. *)
Theorem add_score_keeps_the_best (date_str : String.string) (score : Z)
    (highscores : list ScoreEntry) :
  (add_score date_str score highscores).1 = true ->
  let table := (add_score date_str score highscores).2 in
  let entry := mkScoreEntry score date_str in
  StronglySorted by_score_desc table /\
  length table = (S (length highscores) `min` 10)%nat /\
  (exists cut,
     table ++ cut ≡ₚ highscores ++ [entry] /\
     forall e e', e ∈ table -> e' ∈ cut -> entry_score e' <= entry_score e) /\
  (forall k, exists cut,
     filter (fun a => entry_score a = k) table ++ cut =
     filter (fun a => entry_score a = k) (highscores ++ [entry])).
Proof.
  unfold add_score. change MAX_HIGHSCORES with 10%nat.
  destruct (if (length highscores <? 10)%nat then _ else _); [|done].
  intros _. cbn [fst snd]. cbv zeta.
  set (sorted := sort_by_score_desc (highscores ++ [_])).
  assert (Hsorted : StronglySorted by_score_desc sorted)
    by apply sort_by_score_desc_sorted.
  assert (Hperm : sorted ≡ₚ highscores ++ [mkScoreEntry score date_str])
    by apply sort_by_score_desc_perm.
  split; [by apply StronglySorted_take|]. split.
  { rewrite length_take, Hperm, length_app. cbn [length]. lia. }
  split.
  - exists (drop 10 sorted). rewrite take_drop. split; [done|].
    intros e e' He He'. rewrite <- (take_drop 10 sorted) in Hsorted.
    by apply (StronglySorted_app_1_elem_of _ _ _ _ _ Hsorted).
  - intros k. exists (filter (fun a => entry_score a = k) (drop 10 sorted)).
    rewrite <- filter_app, take_drop. apply sort_by_score_desc_stable.
Qed.

Lemma insert_by_score_front (e : ScoreEntry) (l : list ScoreEntry) :
  Forall (fun a => entry_score a <= entry_score e) l -> insert_by_score e l = e :: l.
Proof.
  intros Hl. destruct l as [|a l]; [done|]. cbn [insert_by_score].
  apply Forall_cons in Hl as [Ha _]. by rewrite (proj2 (Z.ltb_ge _ _)).
Qed.

Lemma sort_append_sorted (e : ScoreEntry) (l : list ScoreEntry) :
  StronglySorted by_score_desc l ->
  sort_by_score_desc (l ++ [e]) =
  filter (fun a => entry_score e <= entry_score a) l ++ [e]
  ++ filter (fun a => entry_score a < entry_score e) l.
Proof.
  unfold sort_by_score_desc. rewrite foldr_app. cbn [foldr insert_by_score].
  induction 1 as [|a l Hl IH Hall]; [done|]. cbn [foldr]. rewrite IH.
  rewrite !(filter_cons _ a).
  destruct (decide (entry_score e <= entry_score a)) as [Hge|Hlt].
  - rewrite decide_False by lia. rewrite insert_by_score_front; [done|].
    apply Forall_app. split; [|apply Forall_cons; split; [done|]].
    + apply Forall_forall. intros b [_ Hb]%list_elem_of_filter.
      by apply (proj1 (Forall_forall _ _) Hall).
    + apply Forall_forall. intros b [_ Hb]%list_elem_of_filter.
      by apply (proj1 (Forall_forall _ _) Hall).
  - rewrite decide_True by lia.
    assert (Hnone : filter (fun a0 => entry_score e <= entry_score a0) l = []).
    { apply filter_none. intros b Hb Hb'.
      pose proof (proj1 (Forall_forall _ _) Hall b Hb) as Hab.
      unfold by_score_desc in Hab. lia. }
    assert (Hall' : filter (fun a0 => entry_score a0 < entry_score e) l = l).
    { apply filter_whole. intros b Hb.
      pose proof (proj1 (Forall_forall _ _) Hall b Hb) as Hab.
      unfold by_score_desc in Hab. lia. }
    rewrite Hnone, Hall'. cbn [app insert_by_score].
    rewrite (proj2 (Z.ltb_lt _ _)) by lia. by rewrite insert_by_score_front.
Qed.

(** X15: the rank of a new entry in a table that is in order.  If the table
    is in descending order and holds at most ten entries, an accepted score
    goes below the entries with a higher or an equal score and above the
    entries with a lower score, the table is cut to ten entries, and the
    new entry is in it. *)
Theorem add_score_rank (date_str : String.string) (score : Z)
    (highscores : list ScoreEntry) :
  StronglySorted by_score_desc highscores ->
  (length highscores <= 10)%nat ->
  (add_score date_str score highscores).1 = true ->
  let entry := mkScoreEntry score date_str in
  (add_score date_str score highscores).2 =
    take 10 (filter (fun a => score <= entry_score a) highscores ++ [entry]
             ++ filter (fun a => entry_score a < score) highscores) /\
  entry ∈ (add_score date_str score highscores).2 /\
  (length (add_score date_str score highscores).2 <= 10)%nat /\
  StronglySorted by_score_desc (add_score date_str score highscores).2.
Proof.
  intros Hsorted Hlen Hacc. cbv zeta.
  destruct (add_score_accepts date_str score highscores) as [[Hiff _] _].
  apply Hiff in Hacc as Hwhy.
  unfold add_score in Hacc |- *. change MAX_HIGHSCORES with 10%nat in *.
  destruct (if (length highscores <? 10)%nat then _ else _); [|done].
  cbn [fst snd].
  pose proof (sort_append_sorted (mkScoreEntry score date_str) _ Hsorted) as Heq.
  cbn [entry_score] in Heq.
  pose proof (sort_by_score_desc_sorted (highscores ++ [mkScoreEntry score date_str]))
    as Hso.
  rewrite Heq in Hso |- *.
  split; [done|]. split; [|split].
  - set (hi := filter (fun a => score <= entry_score a) highscores).
    assert (Hhi : (length hi < 10)%nat).
    { subst hi. destruct Hwhy as [Hlt|(e & He & Hs)].
      - pose proof (length_filter (fun a => score <= entry_score a) highscores). lia.
      - assert (Hnot : ~ score <= entry_score e) by lia.
        pose proof (length_filter_lt (fun a => score <= entry_score a) highscores e
                      He Hnot).
        lia. }
    rewrite take_app_ge by lia.
    apply elem_of_app. right.
    destruct (10 - length hi)%nat as [|n] eqn:Hn; [lia|]. cbn. left.
  - rewrite length_take. lia.
  - by apply StronglySorted_take.
Qed.
(** *** The camera *)

Lemma zoom_in_level (n : Z) :
  15 <= n <= 80 ->
  py_max CAMERA_DIST_MIN (float_of_Z n - 2.0)%float = float_of_Z (Z.max 15 (n - 2)) /\
  (if PrimFloat.ltb (float_of_Z n - 2.0)%float CAMERA_DIST_MIN
   then CAMERA_DIST_MIN else (float_of_Z n - 2.0)%float) = float_of_Z (Z.max 15 (n - 2)).
Proof.
  intros Hn. assert (Hin : n ∈ seqZ 15 66) by (apply elem_of_seqZ; lia).
  vm_compute in Hin.
  repeat (apply elem_of_cons in Hin as [-> | Hin]); [..|by apply elem_of_nil in Hin];
    by vm_compute.
Qed.

Lemma zoom_out_level (n : Z) :
  15 <= n <= 80 ->
  py_min CAMERA_DIST_MAX (float_of_Z n + 2.0)%float = float_of_Z (Z.min 80 (n + 2)) /\
  (if PrimFloat.ltb CAMERA_DIST_MAX (float_of_Z n + 2.0)%float
   then CAMERA_DIST_MAX else (float_of_Z n + 2.0)%float) = float_of_Z (Z.min 80 (n + 2)).
Proof.
  intros Hn. assert (Hin : n ∈ seqZ 15 66) by (apply elem_of_seqZ; lia).
  vm_compute in Hin.
  repeat (apply elem_of_cons in Hin as [-> | Hin]); [..|by apply elem_of_nil in Hin];
    by vm_compute.
Qed.

Lemma zoom_level_range (d : float) :
  zoom_level d ->
  PrimFloat.leb CAMERA_DIST_MIN d = true /\ PrimFloat.leb d CAMERA_DIST_MAX = true.
Proof.
  intros (n & Hn & ->). assert (Hin : n ∈ seqZ 15 66) by (apply elem_of_seqZ; lia).
  vm_compute in Hin.
  repeat (apply elem_of_cons in Hin as [-> | Hin]); [..|by apply elem_of_nil in Hin];
    by vm_compute.
Qed.

Lemma mouse_dispatch_zoom (e : MouseEvent) (c : Camera) :
  zoom_level (camera_dist c) -> zoom_level (camera_dist (mouse_dispatch e c)).
Proof.
  intros (n & Hn & Hd). destruct e as [button state x y|x y|button direction x y];
    cbn [mouse_dispatch].
  - unfold mouse_click.
    destruct (button =? GLUT_LEFT_BUTTON); [destruct (state =? GLUT_DOWN); by exists n|].
    destruct (_ && _).
    { exists (Z.max 15 (n - 2)). split; [lia|]. cbn [camera_dist set_camera_dist].
      rewrite Hd. apply zoom_in_level, Hn. }
    destruct (_ && _); [|by exists n].
    exists (Z.min 80 (n + 2)). split; [lia|]. cbn [camera_dist set_camera_dist].
    rewrite Hd. apply zoom_out_level, Hn.
  - unfold mouse_motion. destruct (mouse_down c); by exists n.
  - unfold mouse_wheel. destruct (direction >? 0); cbn [camera_dist set_camera_dist].
    + exists (Z.max 15 (n - 2)). split; [lia|]. rewrite Hd. apply zoom_in_level, Hn.
    + exists (Z.min 80 (n + 2)). split; [lia|]. rewrite Hd. apply zoom_out_level, Hn.
Qed.

Lemma mouse_dispatch_tilt (e : MouseEvent) (c : Camera) :
  tilt_clamped (camera_rot_x c) -> tilt_clamped (camera_rot_x (mouse_dispatch e c)).
Proof.
  intros Hc. destruct e as [button state x y|x y|button direction x y];
    cbn [mouse_dispatch].
  - unfold mouse_click, set_camera_dist.
    repeat match goal with |- context [if ?b then _ else _] => destruct b end; done.
  - unfold mouse_motion. destruct (mouse_down c); [|done]. cbn [camera_rot_x].
    set (a := (camera_rot_x c + _)%float).
    destruct (PrimFloat.ltb 90.0%float a) eqn:Hhi; [by vm_compute|].
    destruct (PrimFloat.ltb a (-90.0)%float) eqn:Hlo; [by vm_compute|done].
  - unfold mouse_wheel, set_camera_dist. by destruct (direction >? 0).
Qed.

(** X16: the camera stays in range.  Whatever mouse events arrive (button
    presses and releases, wheel buttons, drags, [mouse_wheel] calls), the
    zoom distance, which starts at 30.0, is always one of the whole numbers
    from 15 to 80 (the floats are exact there), hence within
    [CAMERA_DIST_MIN, CAMERA_DIST_MAX], and the vertical camera angle is
    never above 90 nor below -90. *)
Theorem camera_stays_in_range (es : list MouseEvent) :
  let c := run_mouse es initial_camera in
  zoom_level (camera_dist c) /\
  PrimFloat.leb CAMERA_DIST_MIN (camera_dist c) = true /\
  PrimFloat.leb (camera_dist c) CAMERA_DIST_MAX = true /\
  tilt_clamped (camera_rot_x c).
Proof.
  cbv zeta.
  assert (Hgen : forall c0, zoom_level (camera_dist c0) -> tilt_clamped (camera_rot_x c0) ->
            zoom_level (camera_dist (run_mouse es c0)) /\
            tilt_clamped (camera_rot_x (run_mouse es c0))).
  { unfold run_mouse. induction es as [|e es IH]; intros c0 Hz Ht; [done|].
    cbn [foldl]. apply IH; [by apply mouse_dispatch_zoom|by apply mouse_dispatch_tilt]. }
  destruct (Hgen initial_camera) as [Hz Ht].
  - exists 30. split; [lia|]. by vm_compute.
  - by vm_compute.
  - destruct (zoom_level_range _ Hz) as [Hlo Hhi]. done.
Qed.

(** X17: [mouse_wheel], which the program defines but never registers, and
    the wheel buttons 3 and 4 of [mouse_click], which it uses instead, zoom
    alike: at every distance the zoom can reach, a positive wheel direction
    is a press of button 3 and any other direction a press of button 4. *)
Theorem mouse_wheel_as_mouse_click (button direction x y x' y' : Z) (c : Camera) :
  zoom_level (camera_dist c) ->
  mouse_wheel button direction x y c =
  mouse_click (if direction >? 0 then 3 else 4) GLUT_DOWN x' y' c.
Proof.
  intros (n & Hn & Hd). unfold mouse_wheel, mouse_click.
  destruct (direction >? 0); cbn [Z.eqb andb GLUT_LEFT_BUTTON GLUT_DOWN Pos.eqb];
    rewrite Hd.
  - destruct (zoom_in_level n Hn) as [-> ->]. done.
  - destruct (zoom_out_level n Hn) as [-> ->]. done.
Qed.
(** *** The music manager *)

Section MusicProperties.

Context {Song : Type} `{EqDecision Song}.

Ltac in_levels := repeat first [apply list_elem_of_here | apply list_elem_of_further].

Lemma volume_levels_closed (v : float) :
  v ∈ volume_levels ->
  py_min 1.0%float (v + MUSIC_VOLUME_STEP)%float ∈ volume_levels /\
  py_max 0.0%float (v - MUSIC_VOLUME_STEP)%float ∈ volume_levels /\
  PrimFloat.leb 0.0%float v = true /\ PrimFloat.leb v 1.0%float = true.
Proof.
  unfold volume_levels. intros Hv.
  repeat (apply elem_of_cons in Hv as [-> | Hv]); [..|by apply elem_of_nil in Hv];
    (split; [vm_compute; in_levels|]); (split; [vm_compute; in_levels|]);
    by vm_compute.
Qed.

Lemma toggle_mute_inv (m : @MusicManager Song) :
  volume m ∈ volume_levels -> mixer_follows m ->
  volume (toggle_mute m) ∈ volume_levels /\ mixer_follows (toggle_mute m).
Proof. intros Hv Hm. split; [done|]. by right. Qed.

Lemma adjust_volume_inv (increase : bool) (m : @MusicManager Song) :
  volume m ∈ volume_levels -> mixer_follows m ->
  volume (adjust_volume increase m) ∈ volume_levels /\
  mixer_follows (adjust_volume increase m).
Proof.
  intros Hv Hm. destruct (volume_levels_closed _ Hv) as (Hup & Hdown & _).
  unfold adjust_volume, mixer_follows. cbn [volume is_muted mixer_volume].
  split; [by destruct increase|]. destruct (is_muted m) eqn:Hmuted; cbn [negb].
  - destruct Hm as [Hm|Hm]; [by left|right]. by rewrite Hmuted in Hm.
  - by right.
Qed.

Lemma load_and_play_music_inv (music_files : list Song) (loaded : bool) (r : Rng)
    (m : @MusicManager Song) :
  volume m ∈ volume_levels -> mixer_follows m ->
  volume (load_and_play_music music_files loaded r m).1 ∈ volume_levels /\
  mixer_follows (load_and_play_music music_files loaded r m).1.
Proof.
  intros Hv Hm. unfold load_and_play_music. destruct music_files as [|s0 files]; [done|].
  destruct (match filter _ _ with [] => _ | _ => _ end) as [played available].
  destruct (randrange r (length available)) as [i r'].
  destruct (available !! i) as [song|]; [|done].
  destruct loaded; cbn [fst volume]; (split; [done|]); [by right|done].
Qed.

Lemma random_choice_elem (r : Rng) (l : list Song) :
  l <> [] -> exists song, l !! (randrange r (length l)).1 = Some song /\ song ∈ l.
Proof.
  intros Hl. pose proof (randrange_lt r (length l)) as Hi.
  destruct (lookup_lt_is_Some_2 l (randrange r (length l)).1) as [song Hsong].
  { apply Hi. destruct l; [done|cbn; lia]. }
  exists song. split; [done|]. by eapply list_elem_of_lookup_2.
Qed.

Lemma load_and_play_music_history (files : list Song) (loaded : bool) (r : Rng)
    (m : @MusicManager Song) :
  files <> [] -> NoDup files -> NoDup (played_songs m) -> played_songs m ⊆ files ->
  let m' := (load_and_play_music files loaded r m).1 in
  exists song,
    song ∈ files /\
    ((length (played_songs m) < length files)%nat ->
     (song ∉ played_songs m) /\ played_songs m' = played_songs m ++ [song]) /\
    ((length files <= length (played_songs m))%nat -> played_songs m' = [song]) /\
    NoDup (played_songs m') /\ played_songs m' ⊆ files /\
    (loaded = true -> mixer_song m' = Some song).
Proof.
  intros Hne Hndf Hnd Hsub. cbv zeta. unfold load_and_play_music.
  destruct files as [|f0 files'] eqn:Hfiles; [done|]. rewrite <- Hfiles in *.
  set (available := filter (fun s => s ∉ played_songs m) files).
  assert (Hav : forall s, s ∈ available <-> (s ∉ played_songs m) /\ s ∈ files)
    by (intros s; apply (list_elem_of_filter (fun s => s ∉ played_songs m))).
  assert (Hlen : (length files <= length (played_songs m))%nat <-> available = []).
  { split.
    - intros Hle. apply elem_of_nil_inv. intros s [Hn Hs]%Hav. apply Hn.
      assert (Hperm : played_songs m ≡ₚ files).
      { apply submseteq_length_Permutation; [by apply NoDup_submseteq|done]. }
      by rewrite Hperm.
    - intros Hnil. apply submseteq_length, NoDup_submseteq; [done|].
      intros s Hs. destruct (decide (s ∈ played_songs m)) as [|Hn]; [done|].
      assert (s ∈ available) as Hin by (by apply Hav). rewrite Hnil in Hin.
      by apply elem_of_nil in Hin. }
  clearbody available.
  destruct available as [|a0 av] eqn:Havail.
  - assert (Hle : (length files <= length (played_songs m))%nat) by (by apply Hlen).
    destruct (random_choice_elem r files Hne) as (song & Hsong & Hin).
    destruct (randrange r (length files)) as [i r']. cbn [fst] in Hsong.
    rewrite Hsong. exists song. split; [done|].
    split; [intros Hlt; lia|].
    destruct loaded; cbn [fst played_songs mixer_song app];
      (split; [done|]); (split; [apply NoDup_singleton|]);
      (split; [by intros s ->%list_elem_of_singleton|]); done.
  - assert (Hlt : (length (played_songs m) < length files)%nat).
    { destruct (decide (length files <= length (played_songs m))%nat) as [Hle|]; [|lia].
      by apply Hlen in Hle. }
    rewrite <- Havail in *.
    assert (Hne' : available <> []) by (by rewrite Havail).
    destruct (random_choice_elem r available Hne') as (song & Hsong & Hin).
    destruct (randrange r (length available)) as [i r']. cbn [fst] in Hsong.
    rewrite Hsong. apply Hav in Hin as [Hnew Hin]. exists song. split; [done|].
    assert (Hnd' : NoDup (played_songs m ++ [song])).
    { apply NoDup_app. split; [done|]. split; [|apply NoDup_singleton].
      by intros s Hs ->%list_elem_of_singleton. }
    assert (Hsub' : played_songs m ++ [song] ⊆ files).
    { intros s [Hs| ->%list_elem_of_singleton]%elem_of_app; [by apply Hsub|done]. }
    destruct loaded; cbn [fst played_songs mixer_song];
      (split; [done|]); (split; [intros Hle; lia|]); done.
Qed.


Lemma load_and_play_music_keeps (files : list Song) (loaded : bool) (r : Rng)
    (m : @MusicManager Song) :
  NoDup files -> NoDup (played_songs m) -> played_songs m ⊆ files ->
  let m' := (load_and_play_music files loaded r m).1 in
  NoDup (played_songs m') /\ played_songs m' ⊆ files /\
  ((length (played_songs m) < length files)%nat ->
   length (played_songs m') = S (length (played_songs m))).
Proof.
  intros Hndf Hnd Hsub. cbv zeta. destruct (decide (length files = 0)%nat) as [H0|Hne].
  { destruct files; [|done]. cbn. split; [done|]. split; [done|]. cbn. lia. }
  assert (Hne' : files <> []) by (by intros ->).
  destruct (load_and_play_music_history files loaded r m Hne' Hndf Hnd Hsub)
    as (song & _ & Hnew & _ & Hnd' & Hsub' & _).
  split; [done|]. split; [done|]. intros Hlt. destruct (Hnew Hlt) as [_ ->].
  rewrite length_app. cbn. lia.
Qed.

Lemma next_song_inv (music_files : list Song) (loaded : bool) (r : Rng)
    (m : @MusicManager Song) :
  volume m ∈ volume_levels -> mixer_follows m ->
  volume (next_song music_files loaded r m).1 ∈ volume_levels /\
  mixer_follows (next_song music_files loaded r m).1.
Proof. intros Hv Hm. unfold next_song. by apply load_and_play_music_inv. Qed.

Lemma next_song_keeps (files : list Song) (loaded : bool) (r : Rng)
    (m : @MusicManager Song) :
  NoDup files -> NoDup (played_songs m) -> played_songs m ⊆ files ->
  let m' := (next_song files loaded r m).1 in
  NoDup (played_songs m') /\ played_songs m' ⊆ files /\
  ((length (played_songs m) < length files)%nat ->
   length (played_songs m') = S (length (played_songs m))).
Proof.
  intros Hndf Hnd Hsub. unfold next_song.
  by apply (load_and_play_music_keeps files loaded r (stop_and_unload m)).
Qed.

(** X18: when all songs have been played the history starts over: a song
    change in a directory all of whose songs are in the history leaves a
    history of exactly one song, the one it has chosen.  The song that was
    playing is stopped and unloaded before the choice: if the chosen song
    loads the mixer holds it, and if it fails to load the mixer holds no
    song; its volume is as it was. *)
Theorem playlist_starts_over (files : list Song) (loaded : bool) (r : Rng)
    (m : @MusicManager Song) :
  files <> [] -> NoDup files ->
  NoDup (played_songs m) -> played_songs m ≡ₚ files ->
  exists song,
    song ∈ files /\
    played_songs (next_song files loaded r m).1 = [song] /\
    (loaded = true -> mixer_song (next_song files loaded r m).1 = Some song) /\
    (loaded = false ->
     mixer_song (next_song files loaded r m).1 = None /\
     mixer_volume (next_song files loaded r m).1 = mixer_volume m).
Proof.
  intros Hne Hndf Hnd Hperm. unfold next_song.
  destruct (load_and_play_music_history files loaded r (stop_and_unload m) Hne Hndf Hnd)
    as (song & Hin & _ & Hall & _ & _ & Hmix).
  { intros s Hs. cbn [stop_and_unload played_songs] in Hs. by rewrite <- Hperm. }
  exists song. split; [done|].
  split; [apply Hall; cbn [stop_and_unload played_songs]; by rewrite Hperm|].
  split; [done|]. intros ->. unfold load_and_play_music.
  destruct files as [|f0 files']; [done|].
  destruct (match filter _ _ with [] => _ | _ => _ end) as [played available].
  destruct (randrange r (length available)) as [i r'].
  by destruct (available !! i).
Qed.

End MusicProperties.
(** *** Drawing *)

Lemma for_each_collect {A B} (body : A -> list B -> result (list B)) (f : A -> list B)
    (l : list A) (s : list B) :
  (forall i s', i ∈ l -> body i s' = Ok (s' ++ f i)) ->
  for_each l body s = Ok (s ++ (l ≫= f)).
Proof.
  revert s. induction l as [|i l IH]; intros s Hbody.
  - cbn. by rewrite app_nil_r.
  - cbn [for_each]. rewrite Hbody by left. cbn [mbind result_bind].
    rewrite IH by (intros j s' Hj; apply Hbody; by right).
    change ((i :: l) ≫= f) with (f i ++ (l ≫= f)). by rewrite <- app_assoc.
Qed.

Lemma draw_cell_spec (g : Grid) (x y z : nat) (drawn : list Block) :
  grid_wf g -> (x < 8)%nat -> (y < 20)%nat -> (z < 8)%nat ->
  draw_cell g x y z drawn =
  Ok (drawn ++ match cell_at g x y z with
               | Some col => [((Z.of_nat x, Z.of_nat y, Z.of_nat z), col)]
               | None => []
               end).
Proof.
  intros Hwf Hx Hy Hz. unfold draw_cell. rewrite cell_get_ok by (done || lia).
  rewrite !Nat2Z.id. cbn [mbind result_bind].
  destruct (cell_at g x y z); [done|]. by rewrite app_nil_r.
Qed.

(** The settled blocks as the three loops collect them. *)
Lemma draw_settled_blocks_spec (g : Grid) :
  grid_wf g ->
  draw_settled_blocks g =
  Ok (x ← seq 0 8; y ← seq 0 20; z ← seq 0 8;
      match cell_at g x y z with
      | Some col => [((Z.of_nat x, Z.of_nat y, Z.of_nat z), col)]
      | None => []
      end).
Proof.
  intros Hwf. unfold draw_settled_blocks. grid_size.
  rewrite (for_each_collect _ (fun x => seq 0 20 ≫= fun y => seq 0 8 ≫= fun z =>
             match cell_at g x y z with
             | Some col => [((Z.of_nat x, Z.of_nat y, Z.of_nat z), col)]
             | None => []
             end)); [done|].
  intros x s Hx%elem_of_seq. apply for_each_collect.
  intros y s' Hy%elem_of_seq. apply for_each_collect.
  intros z s'' Hz%elem_of_seq. apply draw_cell_spec; (done || lia).
Qed.

Lemma bind_sublist_pointwise {A B} (f g : A -> list B) (l : list A) :
  (forall x, f x `sublist_of` g x) -> (l ≫= f) `sublist_of` (l ≫= g).
Proof.
  intros Hfg. induction l as [|x l IH]; [done|].
  change ((x :: l) ≫= f) with (f x ++ (l ≫= f)).
  change ((x :: l) ≫= g) with (g x ++ (l ≫= g)). by apply sublist_app.
Qed.

Lemma fmap_bind_list {A B C} (h : B -> C) (f : A -> list B) (l : list A) :
  h <$> (l ≫= f) = l ≫= (fun x => h <$> f x).
Proof.
  induction l as [|x l IH]; [done|].
  change ((x :: l) ≫= f) with (f x ++ (l ≫= f)). rewrite fmap_app, IH. done.
Qed.

Lemma Ok_inj {A} (a b : A) : Ok a = Ok b -> a = b.
Proof. by intros [= ->]. Qed.

Lemma cells_in_drawing_order_NoDup : NoDup cells_in_drawing_order.
Proof. apply (bool_decide_unpack _). by vm_compute. Qed.

Lemma settled_blocks_spec (g : Grid) (drawn : list Block) :
  grid_wf g -> draw_settled_blocks g = Ok drawn ->
  (forall c col, (c, col) ∈ drawn <-> grid_cell g c = Some col) /\
  NoDup drawn.*1.
Proof.
  intros Hwf Hrun. rewrite (draw_settled_blocks_spec g Hwf) in Hrun.
  apply Ok_inj in Hrun. subst drawn. split.
  - intros c col. rewrite list_elem_of_bind. split.
    + intros (x & Hc & Hx%elem_of_seq). apply list_elem_of_bind in Hc as (y & Hc & Hy%elem_of_seq).
      apply list_elem_of_bind in Hc as (z & Hc & Hz%elem_of_seq).
      destruct (cell_at g x y z) as [col'|] eqn:Hcell; [|by apply elem_of_nil in Hc].
      apply list_elem_of_singleton in Hc as [= -> ->].
      rewrite grid_cell_in_bounds by (rewrite in_bounds_unfold; lia).
      by rewrite !Nat2Z.id.
    + intros Hcell. destruct c as [[cx cy] cz].
      destruct (decide (in_bounds (cx, cy, cz))) as [Hin|Hout];
        [|by rewrite grid_cell_out_of_bounds in Hcell].
      rewrite grid_cell_in_bounds in Hcell by done.
      unfold in_bounds in Hin. grid_size.
      exists (Z.to_nat cx). split; [|apply elem_of_seq; lia].
      apply list_elem_of_bind. exists (Z.to_nat cy). split; [|apply elem_of_seq; lia].
      apply list_elem_of_bind. exists (Z.to_nat cz). split; [|apply elem_of_seq; lia].
      rewrite Hcell, !Z2Nat.id by lia. by apply list_elem_of_singleton.
  - apply (sublist_NoDup _ cells_in_drawing_order); [apply cells_in_drawing_order_NoDup|].
    rewrite fmap_bind_list. unfold cells_in_drawing_order.
    apply bind_sublist_pointwise. intros x. rewrite fmap_bind_list.
    apply bind_sublist_pointwise. intros y. rewrite fmap_bind_list.
    apply bind_sublist_pointwise. intros z.
    destruct (cell_at g x y z); cbn; [done|]. apply sublist_nil_l.
Qed.

(** X19: what is drawn.  On a grid of the playfield's dimensions
    [draw_scene_3d] draws one block for each occupied cell, in the colour
    the cell holds, and none for an empty cell; after these it draws the
    cells of the current piece in the colour of the piece, if there is a
    piece and the game is not over, and nothing more otherwise.  If the
    piece does not collide and its offsets are distinct, no two blocks are
    drawn at the same place. *)
Theorem draw_scene_3d_draws_the_board (gs : GameState) :
  grid_wf (grid gs) ->
  exists settled falling,
    draw_scene_3d gs = Ok (settled ++ falling) /\
    (forall c col, (c, col) ∈ settled <-> grid_cell (grid gs) c = Some col) /\
    NoDup settled.*1 /\
    falling =
      match current_piece gs with
      | Some p => if game_over gs then []
                  else (fun c => (c, color p)) <$> piece_cells p
      | None => []
      end /\
    (forall p, current_piece gs = Some p ->
       check_collision gs (position p) = Ok false -> NoDup (shape p) ->
       NoDup (settled ++ falling).*1).
Proof.
  intros Hwf. unfold draw_scene_3d.
  pose proof (draw_settled_blocks_spec (grid gs) Hwf) as Hspec.
  destruct (draw_settled_blocks (grid gs)) as [settled| |] eqn:Hrun; [|done..].
  clear Hspec. destruct (settled_blocks_spec (grid gs) settled Hwf Hrun) as [Hin Hnd].
  cbn [mbind result_bind].
  exists settled.
  exists (match current_piece gs with
          | Some p => if game_over gs then []
                      else (fun c => (c, color p)) <$> piece_cells p
          | None => []
          end).
  split.
  { destruct (current_piece gs) as [p|]; [|by rewrite app_nil_r].
    destruct (game_over gs); cbn [negb]; [by rewrite app_nil_r|].
    unfold piece_cells. by rewrite <- list_fmap_compose. }
  split; [done|]. split; [done|]. split; [done|].
  intros p Hp Hfree Hndp. rewrite Hp, fmap_app.
  destruct (game_over gs); [by rewrite app_nil_r|].
  assert (Hfst : ((fun c => (c, color p)) <$> piece_cells p).*1 = piece_cells p).
  { rewrite <- list_fmap_compose. rewrite <- (list_fmap_id (piece_cells p)) at 2.
    by apply list_fmap_ext. }
  rewrite Hfst.
  unfold check_collision, the_current_piece in Hfree. rewrite Hp in Hfree.
  cbn [mbind result_bind] in Hfree.
  apply NoDup_app. split; [done|]. split.
  - intros c Hc Hc'. apply list_elem_of_fmap in Hc as ([c' col] & -> & Hc).
    apply Hin in Hc. cbn [fst] in *.
    destruct (collision_free_cells _ _ _ Hwf Hfree c') as [_ Hnone]; [done|].
    by rewrite Hnone in Hc.
  - unfold piece_cells.
    exact (NoDup_fmap_2 (Inj0 := absolute_cell_inj (position p)) _ _ Hndp).
Qed.

(** *** The program as a whole *)

Section ProgramProperties.

Context {Song : Type} `{EqDecision Song}.

Lemma set_random_state_same (w : @World Rng) : set_random_state (random_state w) w = w.
Proof. by destruct w. Qed.

Lemma music_keys_pause (key : ascii) (d : @Songs Song) (r : Rng)
    (m : @MusicManager Song) :
  key ∈ ["p"; "P"]%char -> music_keys key d r m = (m, r).
Proof.
  intros Hk. unfold music_keys.
  repeat (apply elem_of_cons in Hk as [-> | Hk]); [done..|by apply elem_of_nil in Hk].
Qed.

(** An input is handled by the music manager first, which may draw from
    the generator, and by the engine then. *)
Lemma handle_split (fuel : nat) (v0 : CameraView) (i : @Input Song)
    (p : @Program Rng Song) :
  handle fuel i p =
  (w ← dispatch fuel (view_of v0 i) (event_of i)
         (set_random_state
            (music_of i (random_state (world p)) (music_manager p)).2 (world p));
   Ok (mkProgram w (music_of i (random_state (world p)) (music_manager p)).1)).
Proof.
  destruct i as [v key d|v key|now ended|elapsed];
    cbn [handle view_of event_of music_of dispatch fst snd];
    rewrite ?set_random_state_same; try done.
  - unfold keyboard_with_music.
    destruct (key_in key ["p"; "P"]%char) eqn:Hk; cbn [andb].
    + apply bool_decide_eq_true_1 in Hk. rewrite (music_keys_pause _ _ _ _ Hk).
      cbn [fst snd]. rewrite set_random_state_same.
      by destruct (_ || _).
    + by destruct (music_keys key d _ _).
  - unfold game_loop_with_music. by destruct (music_events ended _ _).
Qed.

Lemma handle_world (fuel : nat) (v0 : CameraView) (i : @Input Song)
    (p p' : @Program Rng Song) :
  handle fuel i p = Ok p' ->
  dispatch fuel (view_of v0 i) (event_of i)
    (set_random_state
       (music_of i (random_state (world p)) (music_manager p)).2 (world p))
  = Ok (world p') /\
  music_manager p' = (music_of i (random_state (world p)) (music_manager p)).1.
Proof.
  rewrite (handle_split fuel v0). intros Hrun. bind_inv_as Hrun w.
  by injection Hrun as <-.
Qed.


Lemma initial_program_world (d : @Songs Song) (r : Rng) :
  exists r' m, initial_program d r = mkProgram (initial_world r') m /\
    m = (load_and_play_music (songs_found d) (song_loads d) r MusicManager_fields).1.
Proof.
  unfold initial_program. destruct (load_and_play_music _ _ _ _) as [m r'].
  by exists r', m.
Qed.

(** **** The engine in the program *)

Lemma handle_inv (fuel : nat) (i : @Input Song) (p p' : @Program Rng Song) :
  session_inv (world p) -> board_inv (game_state (world p)) ->
  handle fuel i p = Ok p' ->
  session_inv (world p') /\ board_inv (game_state (world p')).
Proof.
  intros Hs Hb Hrun.
  apply (handle_world fuel (mkCameraView false false false false false false 0 0 0 0))
    in Hrun as [Hrun _].
  split.
  - eapply dispatch_inv; [|exact Hrun]. by apply (session_inv_same (world p)).
  - eapply dispatch_board; [| |exact Hrun]; [by destruct Hs|done].
Qed.

Lemma run_program_inv (fuel : nat) (inputs : list (@Input Song))
    (p p' : @Program Rng Song) :
  session_inv (world p) -> board_inv (game_state (world p)) ->
  run_program fuel inputs p = Ok p' ->
  session_inv (world p') /\ board_inv (game_state (world p')).
Proof.
  unfold run_program. revert p. induction inputs as [|i inputs IH]; intros p Hs Hb Hrun.
  - by injection Hrun as <-.
  - cbn [for_each] in Hrun. bind_inv_as Hrun p1.
    destruct (handle_inv fuel i p p1 Hs Hb E) as [Hs1 Hb1]. by apply (IH p1).
Qed.

Lemma initial_program_inv (d : @Songs Song) (r : Rng) :
  session_inv (world (initial_program d r)) /\
  board_inv (game_state (world (initial_program d r))).
Proof.
  destruct (initial_program_world d r) as (r' & m & -> & _). cbn [world]. split.
  - apply session_inv_idle; [|done..].
    apply engine_inv_fresh; [done|constructor|done..].
  - by apply board_inv_empty.
Qed.

(** X20: the falling piece never overlaps a block and never leaves the
    playfield.  In every state that the program reaches from its start,
    through any keys, special keys, ticks and redraws, with any camera
    views and whatever the music manager draws from the generator in
    between, the grid has the playfield's dimensions, the bag holds shape
    indices and the queued piece sits at the spawn anchor; and while a game
    is played or paused there are a current and a queued piece, and unless
    the game is over the current piece does not collide where it stands. *)
Theorem program_piece_never_collides (fuel : nat) (inputs : list (@Input Song))
    (d : @Songs Song) (r : Rng) (p : @Program Rng Song) :
  run_program fuel inputs (initial_program d r) = Ok p ->
  grid_wf (grid (game_state (world p))) /\
  bag_valid (piece_bag (game_state (world p))) /\
  (forall q, next_piece (game_state (world p)) = Some q -> position q = spawn_anchor) /\
  (current_mode (world p) = STATE_PLAYING \/ current_mode (world p) = STATE_PAUSED ->
   exists c q,
     current_piece (game_state (world p)) = Some c /\
     next_piece (game_state (world p)) = Some q /\
     (game_over (game_state (world p)) = false ->
      check_collision (game_state (world p)) (position c) = Ok false)).
Proof.
  intros Hrun. destruct (initial_program_inv d r) as [Hs0 Hb0].
  destruct (run_program_inv fuel inputs _ p Hs0 Hb0 Hrun)
    as [[(Hwf & Hbag & Hq & Hnext) Hmode] _].
  split; [done|]. split; [done|]. split; [exact Hq|].
  intros Hm. destruct (Hmode Hm) as [[c Hc] Hfree].
  destruct (Hnext ltac:(by eexists)) as [q Hqn].
  exists c, q. split; [done|]. split; [done|].
  intros Hover. destruct (Hfree Hover) as (c' & Hc' & Hcol). congruence.
Qed.

(** X21: in every state that the program reaches from its start, through
    any inputs (the demo of the menu included), no layer of the playfield
    is full (a completed layer never survives the lock that completed it)
    and the score is a non-negative multiple of 10. *)
Theorem program_board_invariant (fuel : nat) (inputs : list (@Input Song))
    (d : @Songs Song) (r : Rng) (p : @Program Rng Song) :
  run_program fuel inputs (initial_program d r) = Ok p ->
  full_layers (grid (game_state (world p))) = [] /\
  0 <= score (game_state (world p)) /\
  exists k, score (game_state (world p)) = 10 * k.
Proof.
  intros Hrun. destruct (initial_program_inv d r) as [Hs0 Hb0].
  destruct (run_program_inv fuel inputs _ p Hs0 Hb0 Hrun)
    as [_ (Hnone & k & Hk & Hs)].
  split; [done|]. split; [lia|]. by exists k.
Qed.

(** **** Pause and game over *)

Lemma same_game_refl (w : @World Rng) : same_game w w.
Proof. done. Qed.

Lemma same_game_trans (w1 w2 w3 : @World Rng) :
  same_game w1 w2 -> same_game w2 w3 -> same_game w1 w3.
Proof. intros (? & ? & ?) (? & ? & ?). repeat split; congruence. Qed.

Lemma frozen_handle (fuel : nat) (i : @Input Song) (p : @Program Rng Song) :
  (forall v r, exists t,
     dispatch fuel v (event_of i) (set_random_state r (world p))
     = Ok (set_previous_time t (set_random_state r (world p)))) ->
  exists p', handle fuel i p = Ok p' /\ same_game (world p) (world p').
Proof.
  intros Hd.
  rewrite (handle_split fuel (mkCameraView false false false false false false 0 0 0 0)).
  edestruct Hd as [t ->]. cbn [mbind result_bind]. eexists. split; [done|]. done.
Qed.


Lemma finished_handle (fuel : nat) (i : @Input Song) (p : @Program Rng Song) :
  current_mode (world p) = STATE_PLAYING -> game_over (game_state (world p)) = true ->
  not_key i ->
  exists p', handle fuel i p = Ok p' /\ same_game (world p) (world p').
Proof.
  intros Hmode Hover Hi. apply frozen_handle. intros v r.
  apply finished_dispatch; [done..|].
  intros key Hkey. destruct i as [v' key' d| | |]; try done. by eapply Hi.
Qed.

Lemma frozen_run (fuel : nat) (inputs : list (@Input Song)) (P : @Input Song -> Prop)
    (Q : @World Rng -> Prop) :
  (forall w w', same_game w w' -> Q w -> Q w') ->
  (forall i p, Q (world p) -> P i ->
     exists p', handle fuel i p = Ok p' /\ same_game (world p) (world p')) ->
  Forall P inputs -> forall p, Q (world p) ->
  exists p', run_program fuel inputs p = Ok p' /\ same_game (world p) (world p').
Proof.
  intros HQ Hstep Hin. induction Hin as [|i inputs Hi _ IH]; intros p Hp.
  - exists p. split; [done|apply same_game_refl].
  - destruct (Hstep i p Hp Hi) as (p1 & Hrun1 & Hsame1).
    destruct (IH p1 (HQ _ _ Hsame1 Hp)) as (p2 & Hrun2 & Hsame2).
    exists p2. split; [|by eapply same_game_trans].
    unfold run_program in *. cbn [for_each]. by rewrite Hrun1.
Qed.


(** X23: a hard drop never changes the mode, not even when the piece it
    spawns collides.  A game that ends by a hard drop therefore stays in
    playing mode with the flag up: ticks, redraws and arrow keys leave game
    state, mode and fall timer as they are, and the game-over mode (where
    the score is submitted) is entered only by the next key press other
    than [p], [P] and ESC, which changes nothing else of the game. *)
Theorem hard_drop_game_over_waits_for_key (fuel : nat) (v : CameraView)
    (d : @Songs Song) (p p1 : @Program Rng Song) :
  current_mode (world p) = STATE_PLAYING ->
  game_over (game_state (world p)) = false ->
  handle fuel (KeyPressed v " "%char d) p = Ok p1 ->
  current_mode (world p1) = STATE_PLAYING /\
  music_manager p1 = music_manager p /\
  (game_over (game_state (world p1)) = true ->
   (forall inputs, Forall not_key inputs ->
      exists p2, run_program fuel inputs p1 = Ok p2 /\ same_game (world p1) (world p2)) /\
   (forall v' key d', key ∉ ["p"; "P"; ESC]%char ->
      exists p2,
        handle fuel (KeyPressed v' key d') p1 = Ok p2 /\
        current_mode (world p2) = STATE_GAME_OVER /\
        game_state (world p2) = game_state (world p1) /\
        time_accumulator_fall (world p2) = time_accumulator_fall (world p1))).
Proof.
  intros Hmode Hover Hrun.
  apply (handle_world fuel v) in Hrun as [Hrun Hmusic].
  cbn [view_of event_of music_of dispatch] in Hrun, Hmusic.
  assert (Hkeys : music_keys " "%char d (random_state (world p)) (music_manager p)
                  = (music_manager p, random_state (world p))) by done.
  rewrite Hkeys in Hrun, Hmusic. cbn [fst snd] in Hrun, Hmusic.
  rewrite set_random_state_same in Hrun.
  assert (Hmode1 : current_mode (world p1) = STATE_PLAYING)
    by (by eapply hard_drop_key_mode).
  split; [done|]. split; [done|]. intros Hover1. split.
  - intros inputs Hin.
    apply (frozen_run fuel inputs not_key
             (fun w => current_mode w = STATE_PLAYING /\ game_over (game_state w) = true));
      [| |done|done].
    + intros w w' (Hg & Hm & _) [Hw1 Hw2]. split; congruence.
    + intros i q [Hq1 Hq2] Hi. by apply finished_handle.
  - intros v' key d' Hkey.
    rewrite (handle_split fuel v'). cbn [view_of event_of music_of dispatch].
    destruct (music_keys key d' _ _) as [m r]. cbn [fst snd].
    rewrite finished_key; [|done..]. cbn [mbind result_bind].
    eexists. split; [done|]. by cbn.
Qed.

(** **** The music manager in the program *)

Lemma music_keys_inv (key : ascii) (d : @Songs Song) (r : Rng) (m : @MusicManager Song) :
  volume m ∈ volume_levels -> mixer_follows m ->
  volume (music_keys key d r m).1 ∈ volume_levels /\
  mixer_follows (music_keys key d r m).1.
Proof.
  intros Hv Hm. unfold music_keys.
  destruct (bool_decide _); [by apply toggle_mute_inv|].
  destruct (bool_decide _); [by apply adjust_volume_inv|].
  destruct (bool_decide _); [by apply adjust_volume_inv|].
  destruct (bool_decide _); [by apply next_song_inv|]. done.
Qed.

Lemma music_events_inv (ended : list (@Songs Song)) (r : Rng) (m : @MusicManager Song) :
  volume m ∈ volume_levels -> mixer_follows m ->
  volume (music_events ended r m).1 ∈ volume_levels /\
  mixer_follows (music_events ended r m).1.
Proof.
  revert r m. induction ended as [|d ended IH]; intros r m Hv Hm; [done|].
  cbn [music_events].
  destruct (next_song_inv (songs_found d) (song_loads d) r m Hv Hm) as [Hv1 Hm1].
  destruct (next_song _ _ r m) as [m1 r1]. by apply IH.
Qed.

Lemma music_of_inv (i : @Input Song) (r : Rng) (m : @MusicManager Song) :
  volume m ∈ volume_levels -> mixer_follows m ->
  volume (music_of i r m).1 ∈ volume_levels /\ mixer_follows (music_of i r m).1.
Proof.
  intros Hv Hm. destruct i; cbn [music_of fst]; [|done| |done].
  - by apply music_keys_inv.
  - by apply music_events_inv.
Qed.

(** X24: the volume stays in range and the mixer follows it.  In every
    state that the program reaches from its start, whatever keys are
    pressed and songs end (whatever the directory of songs holds and
    whether or not a song loads), the volume, which starts at 0.2 and moves
    in steps of 0.1, is between 0.0 and 1.0, and the mixer, once it has been
    told a volume, is at 0 while muted and at the volume of the manager
    otherwise. *)
Theorem volume_stays_in_range (fuel : nat) (inputs : list (@Input Song))
    (d : @Songs Song) (r : Rng) (p : @Program Rng Song) :
  run_program fuel inputs (initial_program d r) = Ok p ->
  PrimFloat.leb 0.0%float (volume (music_manager p)) = true /\
  PrimFloat.leb (volume (music_manager p)) 1.0%float = true /\
  mixer_follows (music_manager p).
Proof.
  assert (Hgen : forall p0 : @Program Rng Song,
            volume (music_manager p0) ∈ volume_levels ->
            mixer_follows (music_manager p0) ->
            run_program fuel inputs p0 = Ok p ->
            volume (music_manager p) ∈ volume_levels /\ mixer_follows (music_manager p)).
  { unfold run_program. induction inputs as [|i inputs IH]; intros p0 Hv Hm Hrun.
    - by injection Hrun as <-.
    - cbn [for_each] in Hrun. bind_inv_as Hrun p1.
      apply (handle_world fuel
               (mkCameraView false false false false false false 0 0 0 0))
        in E as [_ Hmusic].
      destruct (music_of_inv i (random_state (world p0)) (music_manager p0) Hv Hm)
        as [Hv1 Hm1].
      rewrite <- Hmusic in Hv1, Hm1. by apply (IH p1). }
  intros Hrun. destruct (initial_program_world d r) as (r' & m & Hinit & Hm).
  rewrite Hinit in Hrun.
  destruct (load_and_play_music_inv (songs_found d) (song_loads d) r MusicManager_fields)
    as [Hv0 Hm0].
  { unfold volume_levels. cbn. in_list. }
  { by left. }
  rewrite <- Hm in Hv0, Hm0.
  destruct (Hgen (mkProgram (initial_world r') m) Hv0 Hm0 Hrun) as [Hv Hmix].
  destruct (volume_levels_closed _ Hv) as (_ & _ & Hlo & Hhi). done.
Qed.

Lemma music_events_history (files : list Song) (ended : list (@Songs Song)) (r : Rng)
    (m : @MusicManager Song) (c : nat) :
  NoDup files -> Forall (fun d => songs_found d = files) ended ->
  NoDup (played_songs m) -> played_songs m ⊆ files ->
  ((c <= length files)%nat -> length (played_songs m) = c) ->
  let m' := (music_events ended r m).1 in
  NoDup (played_songs m') /\ played_songs m' ⊆ files /\
  ((c + length ended <= length files)%nat ->
   length (played_songs m') = (c + length ended)%nat).
Proof.
  intros Hndf Hdir. revert r m c. induction Hdir as [|d ended Hd _ IH];
    intros r m c Hnd Hsub Hc; cbv zeta.
  { cbn. split; [done|]. split; [done|]. intros Hle. rewrite Nat.add_0_r in *. auto. }
  cbn [music_events]. rewrite Hd.
  destruct (next_song_keeps files (song_loads d) r m Hndf Hnd Hsub)
    as (Hnd1 & Hsub1 & Hlen1).
  destruct (next_song files (song_loads d) r m) as [m1 r1]. cbn [fst] in *.
  destruct (IH r1 m1 (S c) Hnd1 Hsub1) as (H1 & H2 & H3).
  { intros Hle. rewrite Hlen1; [|rewrite Hc; lia]. rewrite Hc; lia. }
  split; [done|]. split; [done|]. cbn [length]. intros Hle. rewrite H3; lia.
Qed.

Lemma music_of_history (files : list Song) (i : @Input Song) (r : Rng)
    (m : @MusicManager Song) (c : nat) :
  NoDup files -> in_directory files i ->
  NoDup (played_songs m) -> played_songs m ⊆ files ->
  ((c <= length files)%nat -> length (played_songs m) = c) ->
  let m' := (music_of i r m).1 in
  NoDup (played_songs m') /\ played_songs m' ⊆ files /\
  ((c + song_changes i <= length files)%nat ->
   length (played_songs m') = (c + song_changes i)%nat).
Proof.
  intros Hndf Hdir Hnd Hsub Hc. cbv zeta.
  destruct i as [v key d|v key|now ended|elapsed];
    cbn [music_of song_changes in_directory fst] in *.
  - unfold music_keys.
    destruct (bool_decide (key = "m"%char)) eqn:Hm.
    { apply bool_decide_eq_true_1 in Hm. subst key. cbn.
      split; [done|]. split; [done|]. rewrite Nat.add_0_r. done. }
    destruct (bool_decide (key = "6"%char)) eqn:H6.
    { apply bool_decide_eq_true_1 in H6. subst key. cbn.
      split; [done|]. split; [done|]. rewrite Nat.add_0_r. done. }
    destruct (bool_decide (key = "7"%char)) eqn:H7.
    { apply bool_decide_eq_true_1 in H7. subst key. cbn.
      split; [done|]. split; [done|]. rewrite Nat.add_0_r. done. }
    destruct (bool_decide (key = "8"%char)) eqn:H8.
    + pose proof (music_events_history files [d] r m c Hndf ltac:(by constructor)
                    Hnd Hsub Hc) as Hh.
      cbv zeta in Hh. cbn [music_events length] in Hh.
      by destruct (next_song (songs_found d) (song_loads d) r m).
    + cbn. split; [done|]. split; [done|]. rewrite Nat.add_0_r. done.
  - split; [done|]. split; [done|]. rewrite Nat.add_0_r. done.
  - by apply music_events_history.
  - split; [done|]. split; [done|]. rewrite Nat.add_0_r. done.
Qed.

(** X25: no song is repeated before all have been played.  While the
    directory holds the same songs, each once, the history of the music
    manager never holds a song twice and holds songs of the directory
    only; as long as the songs chosen so far (the one at the start, one for
    every key [8] and one for every song that ended) are not more than the
    directory holds, the history holds that many songs, so that all of them
    are different; and when they are as many as the directory holds, every
    song has been played exactly once.  A song that fails to load counts
    as played. *)
Theorem playlist_no_repeat (fuel : nat) (files : list Song)
    (inputs : list (@Input Song)) (d : @Songs Song) (r : Rng)
    (p : @Program Rng Song) :
  NoDup files ->
  songs_found d = files ->
  Forall (in_directory files) inputs ->
  run_program fuel inputs (initial_program d r) = Ok p ->
  let played := played_songs (music_manager p) in
  let n := S (song_changes_in inputs) in
  NoDup played /\
  played ⊆ files /\
  ((n <= length files)%nat -> length played = n) /\
  (n = length files -> played ≡ₚ files).
Proof.
  intros Hndf Hd Hdir Hrun. cbv zeta.
  assert (Hgen : forall (p0 : @Program Rng Song) (c : nat),
            NoDup (played_songs (music_manager p0)) ->
            played_songs (music_manager p0) ⊆ files ->
            ((c <= length files)%nat -> length (played_songs (music_manager p0)) = c) ->
            run_program fuel inputs p0 = Ok p ->
            NoDup (played_songs (music_manager p)) /\
            played_songs (music_manager p) ⊆ files /\
            ((c + song_changes_in inputs <= length files)%nat ->
             length (played_songs (music_manager p)) = (c + song_changes_in inputs)%nat)).
  { clear Hrun. unfold run_program, song_changes_in.
    induction Hdir as [|i inputs Hi _ IH]; intros p0 c Hnd Hsub Hc Hrun.
    - injection Hrun as <-. cbn. rewrite Nat.add_0_r. done.
    - cbn [for_each] in Hrun. bind_inv_as Hrun p1.
      apply (handle_world fuel
               (mkCameraView false false false false false false 0 0 0 0))
        in E as [_ Hmusic].
      destruct (music_of_history files i (random_state (world p0)) (music_manager p0) c
                  Hndf Hi Hnd Hsub Hc) as (Hnd1 & Hsub1 & Hc1).
      rewrite <- Hmusic in Hnd1, Hsub1, Hc1.
      destruct (IH p1 (c + song_changes i)%nat Hnd1 Hsub1 Hc1 Hrun) as (H1 & H2 & H3).
      split; [done|]. split; [done|].
      change (sum_list (song_changes <$> i :: inputs))
        with (song_changes i + sum_list (song_changes <$> inputs))%nat.
      intros Hle. rewrite H3; lia. }
  destruct (initial_program_world d r) as (r' & m & Hinit & Hm). rewrite Hinit in Hrun.
  rewrite Hd in Hm.
  destruct (load_and_play_music_keeps files (song_loads d) r MusicManager_fields Hndf)
    as (Hnd0 & Hsub0 & Hlen0); [constructor|by intros s Hs%elem_of_nil|].
  rewrite <- Hm in Hnd0, Hsub0, Hlen0.
  destruct (Hgen (mkProgram (initial_world r') m) 1%nat Hnd0 Hsub0) as (H1 & H2 & H3);
    [|done|].
  { cbn [music_manager]. intros Hle. apply Hlen0. cbn. lia. }
  split; [done|]. split; [done|]. split; [exact H3|].
  intros Hall. apply submseteq_length_Permutation; [by apply NoDup_submseteq|].
  rewrite H3; lia.
Qed.

End ProgramProperties.

End Properties.

(** ** The properties at concrete inputs *)

#[local] Existing Instance counter_random.
#[local] Existing Instance counter_random_spec.

Ltac by_decide := apply (bool_decide_unpack _); vm_compute; exact I.

Lemma check_collision_iff_witness :
  grid_wf (grid (game_state example_blocked_game)) /\
  current_piece (game_state example_blocked_game) = Some (piece_of 0 (0, 0, 0)) /\
  exists b,
    check_collision (game_state example_blocked_game) (2, 17, 4) = Ok b /\
    (b = true <->
     exists o, o ∈ shape (piece_of 0 (0, 0, 0)) /\
       (~ in_bounds (absolute_cell (2, 17, 4) o) \/
        grid_cell (grid (game_state example_blocked_game))
          (absolute_cell (2, 17, 4) o) <> None)) /\
    (b = false <->
     forall o, o ∈ shape (piece_of 0 (0, 0, 0)) ->
       in_bounds (absolute_cell (2, 17, 4) o) /\
       grid_cell (grid (game_state example_blocked_game))
         (absolute_cell (2, 17, 4) o) = None).
Proof.
  assert (Hg : grid_wf (grid (game_state example_blocked_game)))
    by by_decide.
  exact (conj Hg (conj eq_refl
           (check_collision_iff (game_state example_blocked_game)
              (piece_of 0 (0, 0, 0)) (2, 17, 4) Hg eq_refl))).
Defined.

Lemma clear_full_layers_3_5_witness :
  grid_wf example_grid_3_5 /\ full_layers example_grid_3_5 = [3; 5]%nat /\
  exists g',
    clear_full_layers example_grid_3_5 = Ok (g', 2%nat) /\
    layer g' 3 = layer example_grid_3_5 4 /\
    layer g' 4 = layer example_grid_3_5 6 /\
    layer g' 17 = layer example_grid_3_5 19 /\
    layer g' 18 = empty_layer /\ layer g' 19 = empty_layer.
Proof.
  assert (Hg : grid_wf example_grid_3_5)
    by by_decide.
  assert (Hf : full_layers example_grid_3_5 = [3; 5]%nat) by (vm_compute; reflexivity).
  split; [exact Hg|]. split; [exact Hf|].
  destruct (clear_full_layers_3_5 example_grid_3_5 Hg Hf)
    as (g' & Hrun & _ & _ & H3 & Hup & H18 & H19 & _).
  exists g'. split; [exact Hrun|]. split; [exact H3|].
  split; [apply (Hup 4%nat); lia|]. split; [apply (Hup 17%nat); lia|].
  split; [exact H18|exact H19].
Defined.

Lemma score_law_witness :
  grid_wf (grid example_lock_state) /\ bag_valid (piece_bag example_lock_state) /\
  current_piece example_lock_state = Some (piece_of 0 (0, 0, 0)) /\
  next_piece example_lock_state = Some (piece_of 5 spawn_anchor) /\
  exists g1 g2 n s' r',
    lock_cells (grid example_lock_state) (piece_of 0 (0, 0, 0)) = Ok g1 /\
    clear_full_layers g1 = Ok (g2, n) /\
    lock_piece_and_clear 0%nat example_lock_state = Ok (s', r') /\
    score s' = score example_lock_state + 10 * 4 + layer_bonus n.
Proof.
  assert (Hg : grid_wf (grid example_lock_state))
    by by_decide.
  assert (Hb : bag_valid (piece_bag example_lock_state))
    by by_decide.
  split; [exact Hg|]. split; [exact Hb|]. split; [reflexivity|]. split; [reflexivity|].
  destruct (score_law 0%nat example_lock_state (piece_of 0 (0, 0, 0))
              (piece_of 5 spawn_anchor) Hg Hb eq_refl eq_refl)
    as (g1 & g2 & n & s' & r' & Hlock & Hclear & Hrun & Hscore & _).
  exists g1, g2, n, s', r'. split; [exact Hlock|]. split; [exact Hclear|].
  split; [exact Hrun|exact Hscore].
Defined.

(** The same locking event evaluated: one layer is cleared and the score
    goes from 0 to 140. *)
Example lock_example_scores_140 :
  (fun res => score res.1) <$> (match lock_piece_and_clear 0%nat example_lock_state with
                                | Ok res => Some res
                                | _ => None
                                end) = Some 140.
Proof. vm_compute. reflexivity. Qed.

Lemma example_game_mid_game : mid_game (game_state example_game).
Proof.
  split; [by_decide|]. split; [by_decide|]. split; [by eexists|].
  eexists. split; reflexivity.
Defined.

Lemma game_loop_one_step_per_tick_witness :
  current_mode example_game = STATE_PLAYING /\
  game_over (game_state example_game) = false /\
  mid_game (game_state example_game) /\
  exists w',
    game_loop 1000 example_game = Ok w' /\ previous_time w' = 1000 /\
    time_accumulator_fall w' = 500.
Proof.
  split; [reflexivity|]. split; [reflexivity|]. split; [exact example_game_mid_game|].
  destruct (game_loop_one_step_per_tick 1000 example_game eq_refl eq_refl
              example_game_mid_game) as (w' & p & Hrun & Hprev & _ & _ & Hstep).
  exists w'. split; [exact Hrun|]. split; [exact Hprev|].
  exact (proj1 (Hstep ltac:(vm_compute; discriminate))).
Defined.

(** C4, as stated, fails: a tick that arrives 1000 ms after the previous
    one crosses two thresholds, yet [game_loop] applies one gravity step
    (the piece is at Y = 16 and 500 ms stay in the accumulator), where a
    step per threshold would leave the piece at Y = 15 and the accumulator
    empty. *)
Lemma game_loop_two_thresholds_counterexample :
  (time_accumulator_fall example_game + (1000 - previous_time example_game))
    `div` FALL_INTERVAL_MS = 2 /\
  game_loop 1000 example_game <> game_loop_specified 1000 example_game /\
  exists w1 w2,
    game_loop 1000 example_game = Ok w1 /\
    game_loop_specified 1000 example_game = Ok w2 /\
    position <$> current_piece (game_state w1) = Some (4, 16, 4) /\
    time_accumulator_fall w1 = 500 /\
    position <$> current_piece (game_state w2) = Some (4, 15, 4) /\
    time_accumulator_fall w2 = 0.
Proof.
  split; [reflexivity|]. split.
  - intros Heq.
    apply (f_equal (fun res => match res with
                               | Ok w => time_accumulator_fall w
                               | _ => -1
                               end)) in Heq.
    vm_compute in Heq. discriminate Heq.
  - eexists _, _. split; [vm_compute; reflexivity|]. split; [vm_compute; reflexivity|].
    repeat split.
Qed.

(** C5 fails on the code: "start" pops two indices after refilling the bag
    only when it is empty, so it raises [IndexError] whenever exactly one
    index is left.  Both sessions reach that state through the callbacks
    alone; the first shows it at the moment before the key is pressed. *)
Theorem start_with_one_index_left_raises :
  run_events 0 example_view session_after_demo (initial_world 0%nat)
    = Raise IndexError /\
  (exists w,
     run_events 0 example_view (removelast session_after_demo) (initial_world 0%nat)
       = Ok w /\
     current_mode w = STATE_MAIN_MENU /\ piece_bag (game_state w) = [0%nat] /\
     keyboard 0 example_view "s"%char w = Raise IndexError) /\
  run_events 0 example_view session_after_pause (initial_world 0%nat)
    = Raise IndexError /\
  spawn_new_piece 0%nat (set_piece_bag [0%nat] GameState_init) = Raise IndexError.
Proof.
  split; [vm_compute; reflexivity|]. split.
  - eexists. split; [vm_compute; reflexivity|]. repeat split.
  - split; vm_compute; reflexivity.
Qed.

(** C6, as stated, fails: a run of seven consecutive draws that begins at a
    refill boundary can repeat a shape.  The key [s] in the menu of a
    freshly loaded program finds the bag empty, refills it and draws 6 and
    5.  After a pause and ESC the menu keeps the five indices that are
    left; its redraw replaces them by a fresh shuffle, of which the demo
    draws 2 and 1; the next start keeps that bag and draws 0 and 6; the
    lock after a hard drop draws 5.  The seven draws are 6, 5, 2, 1, 0, 6,
    5: the pieces 6 and 5 are drawn twice, 3 and 4 not at all. *)
Lemma bag_fairness_counterexample :
  exists w1 w2 w4 w5 w6 w7,
    run_events 30 example_view (take 1 menu_detour_session) (initial_world 0%nat) = Ok w1 /\
    piece_bag (game_state w1) = [] /\
    run_events 30 example_view (take 2 menu_detour_session) (initial_world 0%nat) = Ok w2 /\
    piece_bag (game_state w2) = [0; 1; 2; 3; 4]%nat /\
    run_events 30 example_view (take 4 menu_detour_session) (initial_world 0%nat) = Ok w4 /\
    current_mode w4 = STATE_MAIN_MENU /\
    current_piece (game_state w4) = None /\
    piece_bag (game_state w4) = [0; 1; 2; 3; 4]%nat /\
    run_events 30 example_view (take 5 menu_detour_session) (initial_world 0%nat) = Ok w5 /\
    piece_bag (game_state w5) = [3; 4; 5; 6; 0]%nat /\
    run_events 30 example_view (take 6 menu_detour_session) (initial_world 0%nat) = Ok w6 /\
    piece_bag (game_state w6) = [3; 4; 5]%nat /\
    run_events 30 example_view menu_detour_session (initial_world 0%nat) = Ok w7 /\
    piece_bag (game_state w7) = [3; 4]%nat /\
    shape <$> last_piece (game_state w7) = shape <$> current_piece (game_state w6) /\
    current_piece (game_state w7) = next_piece (game_state w6) /\
    [current_piece (game_state w2); next_piece (game_state w2);
     current_piece (game_state w5); next_piece (game_state w5);
     current_piece (game_state w6); next_piece (game_state w6);
     next_piece (game_state w7)]
    = (fun k => Some (piece_of k spawn_anchor)) <$> [6; 5; 2; 1; 0; 6; 5]%nat /\
    ~ NoDup [current_piece (game_state w2); next_piece (game_state w2);
             current_piece (game_state w5); next_piece (game_state w5);
             current_piece (game_state w6); next_piece (game_state w6);
             next_piece (game_state w7)].
Proof.
  do 6 eexists.
  do 16 (split; [vm_compute; reflexivity|]).
  split; [vm_compute; reflexivity|].
  intros Hnd. apply NoDup_cons in Hnd as [Hnotin _]. apply Hnotin.
  vm_compute. do 4 apply list_elem_of_further. apply list_elem_of_here.
Qed.

(** [scripted_random] keeps what the documentation promises of [shuffle]
    and [randrange]. *)
Lemma scripted_random_spec : @RandomSpec (list nat) scripted_random.
Proof.
  split.
  - intros r l. cbn. rewrite Permutation_app_comm. by rewrite take_drop.
  - intros r n Hn. cbn. apply Nat.mod_upper_bound. lia.
Qed.

(** C7 fails on the code: the demo that [display] plays in the menu rotates
    the current piece without testing for a collision and without
    restoring it, so [display] returns with the piece in a colliding state.
    In the first redraw of the menu the demo spawns the I piece at the
    anchor (4,17,4), [random.random()] returns 0.01 and the demo chooses
    ['rotate'] about the axis 2: the piece stands upright with its top cell
    at Y = 20, above the playfield.  The ['move'] branch next to it tests
    the piece and moves it back: with the direction (1,0,0) the same piece
    would reach X = 8, and it is at the anchor again, free, when [display]
    returns. *)
Theorem demo_rotation_leaves_collision :
  exists w,
    @run_events (list nat) scripted_random 0 example_view demo_rotation_session
      (initial_world demo_rotation_script) = Ok w /\
    current_mode w = STATE_MAIN_MENU /\
    game_over (game_state w) = false /\
    current_piece (game_state w) = Some example_upright_piece /\
    rotate 2 (piece_of 0 spawn_anchor) = Ok example_upright_piece /\
    check_collision (game_state w) (position example_upright_piece) = Ok true /\
    ~ in_bounds (absolute_cell (position example_upright_piece) (0, 3, 0)) /\
    (exists w',
       @run_events (list nat) scripted_random 0 example_view demo_rotation_session
         (initial_world [1; 0; 0; 1; 0; 0]%nat) = Ok w' /\
       check_collision
         (set_current_piece (Some (move 1 0 0 (piece_of 0 spawn_anchor))) (game_state w'))
         (5, 17, 4) = Ok true /\
       current_piece (game_state w') = Some (piece_of 0 spawn_anchor) /\
       check_collision (game_state w') spawn_anchor = Ok false).
Proof.
  eexists. split; [vm_compute; reflexivity|].
  do 5 (split; [vm_compute; reflexivity|]).
  split; [vm_compute; intros [_ [[_ H] _]]; discriminate H|].
  eexists. split; [vm_compute; reflexivity|].
  split; [vm_compute; reflexivity|]. split; vm_compute; reflexivity.
Qed.

Lemma bag_fairness_witness :
  exists ds r' s',
    spawn_run 0%nat GameState_init ds r' s' /\
    piece_bag GameState_init = [] /\ length ds = 7%nat /\
    exists ks,
      Forall2 catalogue_entry ds ks /\ ks ≡ₚ seq 0 7 /\ NoDup ks /\
      color <$> ds ≡ₚ CYBER_COLORS /\ shape <$> ds ≡ₚ SHAPES_3D /\
      piece_bag s' = [].
Proof.
  destruct (spawn_times 6 0%nat GameState_init) as [[[ds s'] r']| |] eqn:Hrun;
    [|vm_compute in Hrun; discriminate Hrun..].
  assert (Hlen : length ds = 7%nat).
  { vm_compute in Hrun. injection Hrun as <- _ _. reflexivity. }
  pose proof (spawn_times_run _ _ _ _ _ _ Hrun) as Hspawn.
  exists ds, r', s'. split; [exact Hspawn|]. split; [reflexivity|]. split; [exact Hlen|].
  exact (bag_fairness _ _ _ _ _ Hspawn eq_refl Hlen).
Defined.

Lemma speculative_changes_revert_witness :
  current_mode example_blocked_game = STATE_PLAYING /\
  game_over (game_state example_blocked_game) = false /\
  grid_wf (grid (game_state example_blocked_game)) /\
  current_piece (game_state example_blocked_game) = Some (piece_of 0 (0, 0, 0)) /\
  check_collision (game_state example_blocked_game) (position (piece_of 0 (0, 0, 0)))
    = Ok false /\
  special_keys example_view GLUT_KEY_UP example_blocked_game = Ok example_blocked_game /\
  keyboard 0 example_view "e"%char example_blocked_game = Ok example_blocked_game /\
  keyboard 0 example_view "q"%char example_blocked_game
    = Ok (set_game_state
            (set_current_piece
               (Some (set_shape [(0, 0, 0); (0, 0, 1); (0, 0, 2); (0, 0, 3)]
                        (piece_of 0 (0, 0, 0))))
               (game_state example_blocked_game))
            example_blocked_game).
Proof.
  assert (Hg : grid_wf (grid (game_state example_blocked_game))) by by_decide.
  assert (Hfree : check_collision (game_state example_blocked_game)
                    (position (piece_of 0 (0, 0, 0))) = Ok false)
    by (vm_compute; reflexivity).
  split; [reflexivity|]. split; [reflexivity|]. split; [exact Hg|].
  split; [reflexivity|]. split; [exact Hfree|].
  destruct (speculative_changes_revert 0 example_view example_blocked_game
              (piece_of 0 (0, 0, 0)) eq_refl eq_refl Hg eq_refl Hfree)
    as (_ & Hup & _ & _ & _ & Hq & He & _ & _ & Hrevert).
  split; [|split].
  - destruct Hup as (w' & Hrun & Hra). rewrite Hrun.
    rewrite (proj2 (Hrevert _ _ Hra) ltac:(vm_compute; reflexivity)). reflexivity.
  - destruct (He "e"%char ltac:(apply list_elem_of_here)) as (w' & t & Ht & Hrun & Hra).
    rewrite Hrun. vm_compute in Ht. injection Ht as <-.
    rewrite (proj2 (Hrevert _ _ Hra) ltac:(vm_compute; reflexivity)). reflexivity.
  - destruct (Hq "q"%char ltac:(apply list_elem_of_here)) as (w' & t & Ht & Hrun & Hra).
    rewrite Hrun. vm_compute in Ht. injection Ht as <-.
    destruct Hra as (b & Hb & ->). vm_compute in Hb. injection Hb as <-. reflexivity.
Defined.



Lemma lock_cells_frame_witness :
  grid_wf empty_grid /\
  exists g',
    lock_cells empty_grid example_edge_piece = Ok g' /\
    grid_cell g' (6, 0, 0) = Some (color example_edge_piece) /\
    grid_cell g' (7, 0, 0) = Some (color example_edge_piece) /\
    grid_cell g' (8, 0, 0) = None /\
    grid_cell g' (5, 0, 0) = None.
Proof.
  split; [exact empty_grid_wf|].
  destruct (lock_cells_frame empty_grid example_edge_piece empty_grid_wf)
    as (g' & Hrun & _ & _ & Hin & Hout & Hoob).
  exists g'. split; [exact Hrun|].
  split; [apply Hin; by_decide|]. split; [apply Hin; by_decide|].
  split; [apply Hoob; by_decide|].
  rewrite Hout by by_decide. reflexivity.
Defined.

(** ** The further properties at concrete inputs *)

Lemma mid_game_engine_inv (s : GameState) : mid_game s -> engine_inv s.
Proof.
  intros (Hwf & Hbag & _ & q & Hq & Hpos). split; [exact Hwf|]. split; [exact Hbag|].
  split.
  - intros q' Hq'. rewrite Hq in Hq'. injection Hq' as <-. exact Hpos.
  - intros _. rewrite Hq. by eexists.
Defined.

Lemma example_one_left_inv : engine_inv example_one_left.
Proof.
  split; [exact empty_grid_wf|]. split; [by_decide|].
  split; [intros q Hq; discriminate Hq|]. intros [p Hp]. discriminate Hp.
Defined.

Lemma spawn_fails_iff_one_index_left_witness :
  engine_inv example_one_left /\
  spawn_new_piece 0%nat example_one_left = Raise IndexError /\
  engine_inv (game_state example_game) /\
  exists s' r', spawn_new_piece 0%nat (game_state example_game) = Ok (s', r').
Proof.
  split; [exact example_one_left_inv|]. split.
  - apply (proj2 (spawn_fails_iff_one_index_left 0%nat example_one_left
                    example_one_left_inv)).
    split; reflexivity.
  - split; [exact (mid_game_engine_inv _ example_game_mid_game)|].
    vm_compute. do 2 eexists. reflexivity.
Defined.

Lemma new_game_starts_clean_witness :
  ((current_mode example_menu = STATE_MAIN_MENU /\ "s"%char ∈ ["s"; "S"]%char) \/
   (current_mode example_menu = STATE_GAME_OVER /\ "s"%char ∈ ["r"; "R"]%char)) /\
  bag_valid (piece_bag (game_state example_menu)) /\
  length (piece_bag (game_state example_menu)) <> 1%nat /\
  exists w',
    keyboard 0 example_view "s"%char example_menu = Ok w' /\
    current_mode w' = STATE_PLAYING /\
    grid (game_state w') = empty_grid /\
    score (game_state w') = 0 /\
    game_over (game_state w') = false /\
    piece_valid (game_state w').
Proof.
  assert (H1 : (current_mode example_menu = STATE_MAIN_MENU /\ "s"%char ∈ ["s"; "S"]%char) \/
               (current_mode example_menu = STATE_GAME_OVER /\ "s"%char ∈ ["r"; "R"]%char))
    by (left; split; [reflexivity|apply list_elem_of_here]).
  assert (H2 : bag_valid (piece_bag (game_state example_menu))) by constructor.
  assert (H3 : length (piece_bag (game_state example_menu)) <> 1%nat) by discriminate.
  split; [exact H1|]. split; [exact H2|]. split; [exact H3|].
  destruct (new_game_starts_clean 0 example_view "s"%char example_menu H1 H2 H3)
    as (w' & cur & nxt & kc & kn & Hrun & Hmode & Hgrid & Hscore & Hover & _ & _ & _ & _
        & _ & _ & _ & Hvalid & _).
  exists w'. repeat (split; [assumption|]). exact Hvalid.
Defined.

Lemma example_lock_state_inv : engine_inv example_lock_state.
Proof.
  split; [by_decide|]. split; [by_decide|]. split.
  - intros q Hq. injection Hq as <-. reflexivity.
  - intros _. by eexists.
Defined.

Lemma lock_advances_queue_witness :
  engine_inv example_lock_state /\
  current_piece example_lock_state = Some (piece_of 0 (0, 0, 0)) /\
  exists s' r',
    lock_piece_and_clear 0%nat example_lock_state = Ok (s', r') /\
    last_piece s' = Some (piece_of 0 (0, 0, 0)) /\
    current_piece s' = next_piece example_lock_state.
Proof.
  split; [exact example_lock_state_inv|]. split; [reflexivity|].
  destruct (lock_advances_queue 0%nat example_lock_state (piece_of 0 (0, 0, 0))
              example_lock_state_inv eq_refl)
    as (s' & r' & q & n & k & Hrun & Hq & Hlast & Hcur & _).
  exists s', r'. split; [exact Hrun|]. split; [exact Hlast|].
  rewrite Hcur. symmetry. exact Hq.
Defined.

Lemma rotate_unknown_axis_witness :
  3 <> 0 /\ 3 <> 1 /\ 3 <> 2 /\
  rotate 3 (piece_of 0 (0, 0, 0)) = Raise UnboundLocalError.
Proof.
  split; [discriminate|]. split; [discriminate|]. split; [discriminate|].
  apply (rotate_unknown_axis 3 (piece_of 0 (0, 0, 0))); discriminate.
Defined.

Lemma rotate_is_rigid_witness :
  rotate 0 (piece_of 2 spawn_anchor)
    = Ok (set_shape [(0, 0, 0); (1, 0, 0); (2, 0, 0); (2, 0, 1)] (piece_of 2 spawn_anchor)) /\
  NoDup (shape (piece_of 2 spawn_anchor)) /\
  NoDup [(0, 0, 0); (1, 0, 0); (2, 0, 0); (2, 0, 1)] /\
  dist2 (2, 0, 1) (0, 0, 0) = dist2 (2, 1, 0) (0, 0, 0).
Proof.
  assert (Hrun : rotate 0 (piece_of 2 spawn_anchor)
                 = Ok (set_shape [(0, 0, 0); (1, 0, 0); (2, 0, 0); (2, 0, 1)]
                         (piece_of 2 spawn_anchor))) by reflexivity.
  assert (Hnd : NoDup (shape (piece_of 2 spawn_anchor))) by by_decide.
  split; [exact Hrun|]. split; [exact Hnd|].
  destruct (rotate_is_rigid 0 _ _ Hrun) as (_ & _ & _ & Hdist & Hnd').
  split; [exact (Hnd' Hnd)|].
  exact (Hdist 3%nat 0%nat (2, 1, 0) (0, 0, 0) (2, 0, 1) (0, 0, 0)
           eq_refl eq_refl eq_refl eq_refl).
Defined.



Lemma hard_drop_game_over_waits_for_key_witness :
  current_mode (world example_blocked) = STATE_PLAYING /\
  game_over (game_state (world example_blocked)) = false /\
  handle 5 (KeyPressed example_view " "%char example_directory) example_blocked
    = Ok example_dropped /\
  game_over (game_state (world example_dropped)) = true /\
  current_mode (world example_dropped) = STATE_PLAYING /\
  (exists p2,
     run_program 5 [TimerFired 1000 [example_directory]; Redisplay 1000; TimerFired 2000 []]
       example_dropped = Ok p2 /\
     same_game (world example_dropped) (world p2)) /\
  (exists p2,
     handle 5 (KeyPressed example_view "x"%char example_directory) example_dropped = Ok p2 /\
     current_mode (world p2) = STATE_GAME_OVER).
Proof.
  assert (Hrun : handle 5 (KeyPressed example_view " "%char example_directory)
                   example_blocked = Ok example_dropped)
    by (vm_compute; reflexivity).
  assert (Hover : game_over (game_state (world example_dropped)) = true)
    by (vm_compute; reflexivity).
  split; [reflexivity|]. split; [reflexivity|]. split; [exact Hrun|].
  split; [exact Hover|].
  destruct (hard_drop_game_over_waits_for_key 5 example_view example_directory
              example_blocked example_dropped eq_refl eq_refl Hrun)
    as (Hmode & _ & Hthen).
  split; [exact Hmode|]. destruct (Hthen Hover) as [Hticks Hkey]. split.
  - apply Hticks. repeat constructor; intros v key d Hkey'; discriminate Hkey'.
  - destruct (Hkey example_view "x"%char example_directory ltac:(by_decide))
      as (p2 & Hp2 & Hm2 & _).
    exists p2. split; [exact Hp2|exact Hm2].
Defined.

Lemma handle_wasd_one_cell_witness :
  current_piece (game_state example_game) = Some (piece_of 6 spawn_anchor) /\
  handle_wasd example_view "w"%char example_game = Ok example_moved /\
  exists dx dz,
    (dx, dz) ∈ [(0, 0); (1, 0); (-1, 0); (0, 1); (0, -1)] /\
    example_moved =
      set_game_state
        (set_current_piece (Some (move dx 0 dz (piece_of 6 spawn_anchor)))
           (game_state example_game)) example_game.
Proof.
  assert (Hp : current_piece (game_state example_game) = Some (piece_of 6 spawn_anchor))
    by (vm_compute; reflexivity).
  assert (Hrun : handle_wasd example_view "w"%char example_game = Ok example_moved)
    by (vm_compute; reflexivity).
  split; [exact Hp|]. split; [exact Hrun|].
  exact (handle_wasd_one_cell example_view "w"%char example_game example_moved
           (piece_of 6 spawn_anchor) Hp Hrun).
Defined.

Lemma clear_removes_all_full_layers_witness :
  grid_wf example_grid_3_5 /\
  exists g',
    clear_full_layers example_grid_3_5 = Ok (g', 2%nat) /\
    full_layers g' = [] /\
    (blocks g' + 128 = blocks example_grid_3_5)%nat.
Proof.
  assert (Hwf : grid_wf example_grid_3_5) by by_decide.
  assert (Hfull : full_layers example_grid_3_5 = [3; 5]%nat) by (vm_compute; reflexivity).
  split; [exact Hwf|].
  destruct (clear_removes_all_full_layers example_grid_3_5 Hwf)
    as (g' & Hrun & _ & Hnone & _ & Hb).
  rewrite Hfull in Hrun, Hb. exists g'. split; [exact Hrun|]. split; [exact Hnone|].
  exact Hb.
Defined.

Lemma lock_conserves_blocks_witness :
  engine_inv example_lock_state /\
  current_piece example_lock_state = Some (piece_of 0 (0, 0, 0)) /\
  check_collision example_lock_state (0, 0, 0) = Ok false /\
  NoDup (shape (piece_of 0 (0, 0, 0))) /\
  blocks (grid example_lock_state) = 60%nat /\
  exists s' r' n,
    lock_piece_and_clear 0%nat example_lock_state = Ok (s', r') /\
    (blocks (grid s') + 64 * n = 60 + 4)%nat /\
    full_layers (grid s') = [].
Proof.
  assert (Hfree : check_collision example_lock_state (0, 0, 0) = Ok false)
    by (vm_compute; reflexivity).
  assert (Hnd : NoDup (shape (piece_of 0 (0, 0, 0)))) by by_decide.
  assert (Hblocks : blocks (grid example_lock_state) = 60%nat)
    by (vm_compute; reflexivity).
  split; [exact example_lock_state_inv|]. split; [reflexivity|]. split; [exact Hfree|].
  split; [exact Hnd|]. split; [exact Hblocks|].
  destruct (lock_conserves_blocks 0%nat example_lock_state (piece_of 0 (0, 0, 0))
              example_lock_state_inv eq_refl Hfree Hnd)
    as (s' & r' & n & Hrun & Hb & Hnone & _).
  rewrite Hblocks in Hb. exists s', r', n. split; [exact Hrun|]. split; [exact Hb|].
  exact Hnone.
Defined.

Lemma example_landing_state_inv : engine_inv example_landing_state.
Proof.
  split; [by_decide|]. split; [by_decide|]. split.
  - intros q Hq. injection Hq as <-. reflexivity.
  - intros _. by eexists.
Defined.

Lemma example_landing_state_rests : rests_at 4 example_landing_state.
Proof.
  exists (piece_of 6 spawn_anchor). split; [reflexivity|]. split; [by vm_compute|].
  split; [|by vm_compute]. intros t Ht.
  assert (Hy : (position (piece_of 6 spawn_anchor)).1.2 = 17) by reflexivity.
  rewrite Hy in Ht.
  assert (Hin : t ∈ seqZ 4 13) by (apply elem_of_seqZ; lia).
  vm_compute in Hin.
  repeat (apply elem_of_cons in Hin as [-> | Hin]); [..|by apply elem_of_nil in Hin];
    by vm_compute.
Defined.

Lemma hard_drop_locks_at_lowest_witness :
  engine_inv example_landing_state /\
  current_piece example_landing_state = Some (piece_of 6 spawn_anchor) /\
  shape (piece_of 6 spawn_anchor) <> [] /\
  rests_at 4 example_landing_state /\
  exists s' r',
    hard_drop 14 0%nat example_landing_state = Ok (s', r') /\
    last_piece s' = Some (set_position (4, 4, 4) (piece_of 6 spawn_anchor)).
Proof.
  split; [exact example_landing_state_inv|]. split; [reflexivity|].
  split; [discriminate|]. split; [exact example_landing_state_rests|].
  destruct (hard_drop_locks_at_lowest 0%nat example_landing_state
              (piece_of 6 spawn_anchor) example_landing_state_inv eq_refl
              ltac:(discriminate)) as (h & Hrest & Hdrop).
  rewrite (rests_at_unique h 4 _ Hrest example_landing_state_rests) in Hdrop.
  destruct (Hdrop 14%nat ltac:(vm_compute; reflexivity))
    as (s' & r' & Hrun & _ & Hlast & _).
  exists s', r'. split; [exact Hrun|]. exact Hlast.
Defined.

Lemma landing_indicator_shows_hard_drop_witness :
  grid_wf (grid example_landing_state) /\
  rests_at 4 example_landing_state /\
  find_landing_position example_landing_state = Ok (example_landing_state, 4).
Proof.
  assert (Hwf : grid_wf (grid example_landing_state)) by by_decide.
  split; [exact Hwf|]. split; [exact example_landing_state_rests|].
  exact (landing_indicator_shows_hard_drop example_landing_state 4 Hwf
           example_landing_state_rests).
Defined.

Lemma example_program_reached :
  run_program 0 example_inputs (initial_program example_directory 0%nat)
  = Ok example_program.
Proof. vm_compute. reflexivity. Defined.

Lemma program_piece_never_collides_witness :
  run_program 0 example_inputs (initial_program example_directory 0%nat)
    = Ok example_program /\
  current_mode (world example_program) = STATE_PLAYING /\
  exists c,
    current_piece (game_state (world example_program)) = Some c /\
    check_collision (game_state (world example_program)) (position c) = Ok false.
Proof.
  split; [exact example_program_reached|].
  assert (Hmode : current_mode (world example_program) = STATE_PLAYING)
    by (vm_compute; reflexivity).
  assert (Hover : game_over (game_state (world example_program)) = false)
    by (vm_compute; reflexivity).
  split; [exact Hmode|].
  destruct (program_piece_never_collides 0 example_inputs example_directory 0%nat
              example_program example_program_reached) as (_ & _ & _ & Hplay).
  destruct (Hplay (or_introl Hmode)) as (c & q & Hc & _ & Hfree).
  exists c. split; [exact Hc|]. exact (Hfree Hover).
Defined.

Lemma program_board_invariant_witness :
  run_program 0 example_inputs (initial_program example_directory 0%nat)
    = Ok example_program /\
  full_layers (grid (game_state (world example_program))) = [] /\
  0 <= score (game_state (world example_program)) /\
  exists k, score (game_state (world example_program)) = 10 * k.
Proof.
  split; [exact example_program_reached|].
  exact (program_board_invariant 0 example_inputs example_directory 0%nat
           example_program example_program_reached).
Defined.

Lemma volume_stays_in_range_witness :
  run_program 0 example_inputs (initial_program example_directory 0%nat)
    = Ok example_program /\
  PrimFloat.leb 0.0%float (volume (music_manager example_program)) = true /\
  PrimFloat.leb (volume (music_manager example_program)) 1.0%float = true /\
  mixer_follows (music_manager example_program).
Proof.
  split; [exact example_program_reached|].
  exact (volume_stays_in_range 0 example_inputs example_directory 0%nat
           example_program example_program_reached).
Defined.

Lemma example_table_sorted : StronglySorted by_score_desc example_table.
Proof.
  repeat (constructor; [|repeat (constructor; [unfold by_score_desc; cbn; lia|]);
                          constructor]).
  constructor.
Defined.

Lemma add_score_keeps_the_best_witness :
  (add_score "2024-06-01 09:30"%string 150 example_table).1 = true /\
  StronglySorted by_score_desc
    (add_score "2024-06-01 09:30"%string 150 example_table).2 /\
  length (add_score "2024-06-01 09:30"%string 150 example_table).2 = 10%nat.
Proof.
  assert (Hacc : (add_score "2024-06-01 09:30"%string 150 example_table).1 = true)
    by reflexivity.
  split; [exact Hacc|].
  destruct (add_score_keeps_the_best "2024-06-01 09:30"%string 150 example_table Hacc)
    as (Hsorted & Hlen & _).
  split; [exact Hsorted|]. exact Hlen.
Defined.

Lemma add_score_rank_witness :
  StronglySorted by_score_desc example_table /\
  (length example_table <= 10)%nat /\
  (add_score "2024-06-01 09:30"%string 100 example_table).1 = false /\
  (add_score "2024-06-01 09:30"%string 200 example_table).1 = true /\
  entry_score <$> (add_score "2024-06-01 09:30"%string 200 example_table).2
    = [900; 800; 700; 600; 500; 400; 300; 200; 200; 100] /\
  (add_score "2024-06-01 09:30"%string 200 example_table).2 !! 8%nat
    = Some (mkScoreEntry 200 "2024-06-01 09:30"%string).
Proof.
  assert (Hlen : (length example_table <= 10)%nat) by (vm_compute; lia).
  assert (Hacc : (add_score "2024-06-01 09:30"%string 200 example_table).1 = true)
    by reflexivity.
  split; [exact example_table_sorted|]. split; [exact Hlen|]. split; [reflexivity|].
  split; [exact Hacc|].
  destruct (add_score_rank "2024-06-01 09:30"%string 200 example_table
              example_table_sorted Hlen Hacc) as (Heq & _).
  rewrite Heq. split; reflexivity.
Defined.

Lemma mouse_wheel_as_mouse_click_witness :
  zoom_level (camera_dist initial_camera) /\
  mouse_wheel 0 1 640 360 initial_camera = mouse_click 3 GLUT_DOWN 640 360 initial_camera /\
  mouse_wheel 0 (-1) 640 360 initial_camera = mouse_click 4 GLUT_DOWN 640 360 initial_camera.
Proof.
  assert (Hz : zoom_level (camera_dist initial_camera)).
  { exists 30. split; [lia|]. vm_compute. reflexivity. }
  split; [exact Hz|]. split.
  - exact (mouse_wheel_as_mouse_click 0 1 640 360 640 360 initial_camera Hz).
  - exact (mouse_wheel_as_mouse_click 0 (-1) 640 360 640 360 initial_camera Hz).
Defined.

Lemma example_songs_NoDup : NoDup example_songs.
Proof. by_decide. Defined.

Lemma example_inputs_in_directory : Forall (in_directory example_songs) example_inputs.
Proof. repeat constructor. Defined.

Lemma playlist_no_repeat_witness :
  NoDup example_songs /\
  songs_found example_directory = example_songs /\
  Forall (in_directory example_songs) example_inputs /\
  run_program 0 example_inputs (initial_program example_directory 0%nat)
    = Ok example_program /\
  S (song_changes_in example_inputs) = length example_songs /\
  played_songs (music_manager example_program) ≡ₚ example_songs.
Proof.
  assert (Hn : S (song_changes_in example_inputs) = length example_songs)
    by (vm_compute; reflexivity).
  split; [exact example_songs_NoDup|]. split; [reflexivity|].
  split; [exact example_inputs_in_directory|]. split; [exact example_program_reached|].
  split; [exact Hn|].
  destruct (playlist_no_repeat 0 example_songs example_inputs example_directory 0%nat
              example_program example_songs_NoDup eq_refl example_inputs_in_directory
              example_program_reached) as (_ & _ & _ & Hall).
  exact (Hall Hn).
Defined.

Lemma playlist_starts_over_witness :
  example_songs <> [] /\
  NoDup (played_songs example_played_all) /\
  played_songs example_played_all ≡ₚ example_songs /\
  mixer_song example_played_all = Some 1%nat /\
  (exists song,
     song ∈ example_songs /\
     played_songs (next_song example_songs true 0%nat example_played_all).1 = [song] /\
     mixer_song (next_song example_songs true 0%nat example_played_all).1 = Some song) /\
  (exists song,
     played_songs (next_song example_songs false 0%nat example_played_all).1 = [song] /\
     mixer_song (next_song example_songs false 0%nat example_played_all).1 = None).
Proof.
  assert (Hne : example_songs <> []) by discriminate.
  assert (Hnd : NoDup (played_songs example_played_all)) by by_decide.
  assert (Hperm : played_songs example_played_all ≡ₚ example_songs).
  { symmetry. exact (Permutation_cons_append [2; 3]%nat 1%nat). }
  split; [exact Hne|]. split; [exact Hnd|]. split; [exact Hperm|].
  split; [reflexivity|]. split.
  - destruct (playlist_starts_over example_songs true 0%nat example_played_all
                Hne example_songs_NoDup Hnd Hperm) as (song & Hin & Hplayed & Hmix & _).
    exists song. split; [exact Hin|]. split; [exact Hplayed|]. exact (Hmix eq_refl).
  - destruct (playlist_starts_over example_songs false 0%nat example_played_all
                Hne example_songs_NoDup Hnd Hperm) as (song & _ & Hplayed & _ & Hfail).
    exists song. split; [exact Hplayed|]. exact (proj1 (Hfail eq_refl)).
Defined.

Lemma draw_scene_3d_draws_the_board_witness :
  grid_wf (grid example_lock_state) /\
  check_collision example_lock_state (0, 0, 0) = Ok false /\
  exists settled falling,
    draw_scene_3d example_lock_state = Ok (settled ++ falling) /\
    falling = (fun c => (c, color (piece_of 0 (0, 0, 0)))) <$>
                [(0, 0, 0); (1, 0, 0); (2, 0, 0); (3, 0, 0)] /\
    NoDup (settled ++ falling).*1.
Proof.
  assert (Hwf : grid_wf (grid example_lock_state)) by by_decide.
  assert (Hfree : check_collision example_lock_state (0, 0, 0) = Ok false)
    by (vm_compute; reflexivity).
  split; [exact Hwf|]. split; [exact Hfree|].
  destruct (draw_scene_3d_draws_the_board example_lock_state Hwf)
    as (settled & falling & Hrun & _ & _ & Hfalling & Hnd).
  exists settled, falling. split; [exact Hrun|]. split; [exact Hfalling|].
  apply (Hnd (piece_of 0 (0, 0, 0)) eq_refl Hfree). by_decide.
Defined.
